(** * PyEMMA serialization: a shallow embedding of
      [pyemma/_base/serialization/serialization.py]

    The development follows the Python module top-down:
    - Python values, dictionaries and exceptions;
    - a state-and-exception monad for code that mutates a dictionary, an
      instance or the object heap and may raise;
    - the interpolation map, its validation and [__interpolate];
    - [__getstate__] / [__setstate__];
    - the [_save_data_producer] property, [save] and [load].

    Python is modelled with Python 3 semantics (ordering of values of
    different types raises [TypeError]). *)

From stdpp Require Import base numbers strings list gmap sorting countable.

Set Warnings "-register-all".
Open Scope Z_scope.

(** ** Exceptions *)

(** The exception classes that the module raises itself or that the
    operations it performs on dictionaries and attributes raise. *)
Inductive exn :=
| DeveloperError
| KeyError
| TypeError
| IndexError
| AssertionError
| AttributeError
| ValueError
| RuntimeError
| RecursionError
| OtherError (tag : string).

Global Instance exn_eq_dec : EqDecision exn.
Proof. solve_decision. Defined.

(** ** Python values *)

(** Keys of a Python dict: the hashable values, up to Python equality
    ([True == 1], [False == 0]). Objects and functions hash by identity. *)
Inductive hkey :=
| HNone
| HInt (z : Z)
| HInf
| HStr (s : string)
| HObj (o : nat)
| HFunc (f : nat).

Global Instance hkey_eq_dec : EqDecision hkey.
Proof. solve_decision. Defined.

Global Instance hkey_countable : Countable hkey.
Proof.
  refine (inj_countable'
    (λ k, match k with
          | HNone => inl (inl ())
          | HInt z => inl (inr z)
          | HInf => inr (inl (inl ()))
          | HStr s => inr (inl (inr s))
          | HObj o => inr (inr (inl o))
          | HFunc f => inr (inr (inr f))
          end)
    (λ x, match x with
          | inl (inl ()) => HNone
          | inl (inr z) => HInt z
          | inr (inl (inl ())) => HInf
          | inr (inl (inr s)) => HStr s
          | inr (inr (inl o)) => HObj o
          | inr (inr (inr f)) => HFunc f
          end) _); by intros [].
Defined.

(** Values stored in a state dict or in an action tuple. [PInf] is
    [float('inf')]; [PList] stands for lists and tuples alike; [PObj o] is a
    reference to the object at address [o]; [PFunc f] is a callable, named by
    its index in the table of functions. *)
Inductive pyval :=
| PNone
| PBool (b : bool)
| PInt (z : Z)
| PInf
| PStr (s : string)
| PList (l : list pyval)
| PDict (d : gmap hkey pyval)
| PObj (o : nat)
| PFunc (f : nat).

(** A state dictionary, as handed to [__setstate__] and built by
    [__getstate__]. *)
Abbreviation dict := (gmap hkey pyval).

(** [hash(v)]: [None] for the unhashable values. *)
Definition hash_key (v : pyval) : option hkey :=
  match v with
  | PNone => Some HNone
  | PBool b => Some (HInt (Z.b2z b))
  | PInt z => Some (HInt z)
  | PInf => Some HInf
  | PStr s => Some (HStr s)
  | PObj o => Some (HObj o)
  | PFunc f => Some (HFunc f)
  | PList _ | PDict _ => None
  end.

(** [bool(v)]. *)
Definition truthy (v : pyval) : bool :=
  match v with
  | PNone => false
  | PBool b => b
  | PInt z => negb (z =? 0)
  | PInf => true
  | PStr s => negb (String.eqb s "")
  | PList l => match l with [] => false | _ => true end
  | PDict d => negb (bool_decide (d = ∅))
  | PObj _ | PFunc _ => true
  end.

(** [v == s] for a string literal [s]. *)
Definition py_eq_str (v : pyval) (s : string) : bool :=
  match v with PStr s' => String.eqb s' s | _ => false end.

(** Numbers that are compared with version numbers: an integer or
    [float('inf')]. *)
Inductive number := Fin (z : Z) | Inf.

Definition as_number (v : pyval) : option number :=
  match v with
  | PInt z => Some (Fin z)
  | PBool b => Some (Fin (Z.b2z b))
  | PInf => Some Inf
  | _ => None
  end.

Definition number_gt (a b : number) : bool :=
  match a, b with
  | Fin x, Fin y => y <? x
  | Inf, Fin _ => true
  | _, Inf => false
  end.

Definition number_ge (a b : number) : bool :=
  match a, b with
  | Fin x, Fin y => y <=? x
  | Inf, _ => true
  | Fin _, Inf => false
  end.

(** ** Results and the state-and-exception monad *)

Abbreviation result := (sum exn).

Global Instance result_ret : MRet result := λ A a, inr a.
Global Instance result_bind : MBind result :=
  λ A B f r, match r with inl e => inl e | inr a => f a end.

(** A computation over a mutable store [S]: it returns a value or raises,
    and in both cases leaves a store behind (a Python exception does not
    undo the mutations made before it). *)
Definition M (S A : Type) : Type := S → result A * S.

Global Instance M_ret {S} : MRet (M S) := λ A a s, (inr a, s).
Global Instance M_bind {S} : MBind (M S) :=
  λ A B f m s, match m s with
               | (inl e, s') => (inl e, s')
               | (inr a, s') => f a s'
               end.

Definition raise {S A} (e : exn) : M S A := λ s, (inl e, s).
Definition lift {S A} (r : result A) : M S A := λ s, (r, s).
Definition get {S} : M S S := λ s, (inr s, s).
Definition put {S} (s : S) : M S unit := λ _, (inr (), s).
Definition modify {S} (f : S → S) : M S unit := λ s, (inr (), f s).

(** [try: m except: h] where [h] receives the exception caught. *)
Definition try_except {S A} (m : M S A) (h : exn → M S A) : M S A :=
  λ s, match m s with
       | (inl e, s') => h e s'
       | r => r
       end.

(** [try: m finally: fin]. An exception raised by [fin] replaces the
    outcome of [m]. *)
Definition try_finally {S A} (m : M S A) (fin : M S unit) : M S A :=
  λ s, match m s with
       | (r, s') => match fin s' with
                    | (inl e, s'') => (inl e, s'')
                    | (inr _, s'') => (r, s'')
                    end
       end.

(** [for x in l: body x]. *)
Fixpoint for_each {S A} (l : list A) (body : A → M S unit) : M S unit :=
  match l with
  | [] => mret ()
  | x :: l' => body x ;; for_each l' body
  end.

(** Run a computation over a component of the store. *)
Definition zoom {S T A} (proj : S → T) (upd : T → S → S) (m : M T A) : M S A :=
  λ s, match m (proj s) with (r, t') => (r, upd t' s) end.

(** ** Dictionary operations *)

(** [state[name]] *)
Definition getitem (name : pyval) : M dict pyval :=
  match hash_key name with
  | None => raise TypeError
  | Some k => λ st, match st !! k with
                    | Some v => (inr v, st)
                    | None => (inl KeyError, st)
                    end
  end.

(** [state[name] = value] *)
Definition setitem (name value : pyval) : M dict unit :=
  match hash_key name with
  | None => raise TypeError
  | Some k => modify (insert k value)
  end.

(** [state.pop(name)] *)
Definition pop (name : pyval) : M dict pyval :=
  match hash_key name with
  | None => raise TypeError
  | Some k => λ st, match st !! k with
                    | Some v => (inr v, delete k st)
                    | None => (inl KeyError, st)
                    end
  end.

(** [state.pop(name, default)] *)
Definition pop_default (name default : pyval) : M dict pyval :=
  match hash_key name with
  | None => raise TypeError
  | Some k => λ st, match st !! k with
                    | Some v => (inr v, delete k st)
                    | None => (inr default, st)
                    end
  end.

(** ** Classes and their interpolation maps *)

(** A migration action is a tuple; its first component is the verb. *)
Abbreviation action := (list pyval).

(** Keys of [_serialize_interpolation_map]: class version numbers, or
    (by mistake of the class author) something that is not an integer. *)
Inductive ikey := KInt (z : Z) | KStr (s : string).

Global Instance ikey_eq_dec : EqDecision ikey.
Proof. solve_decision. Defined.

Global Instance ikey_countable : Countable ikey.
Proof.
  refine (inj_countable'
    (λ k, match k with KInt z => inl z | KStr s => inr s end)
    (λ x, match x with inl z => KInt z | inr s => KStr s end) _); by intros [].
Defined.

(** Values of [_serialize_interpolation_map]: a list or tuple of actions, or
    (by mistake) something else. *)
Inductive ivalue := Actions (acts : list action) | NotASequence.

Abbreviation interp_map := (gmap ikey ivalue).

(** A class, as seen through [hasattr] and [getattr] (so inherited
    attributes count). A field is [None] where [hasattr] is false. Classes
    are told apart by their importable names, as everywhere in the
    serialization protocol. *)
Record klass := Klass {
  importable_name : string;                      (* _importable_name(c) *)
  serialize_version : option Z;                  (* c._serialize_version *)
  serialize_fields : option (list string);       (* c._serialize_fields *)
  serialize_interpolation_map : option interp_map;     (* c._serialize_interpolation_map *)
  get_param_names : option (list string);        (* c._get_param_names() *)
  is_BaseEstimator : bool;                       (* issubclass(c, BaseEstimator) *)
  has_get_params : bool;                         (* hasattr(c, 'get_params') *)
  has_set_params : bool;                         (* hasattr(c, 'set_params') *)
  get_model_params : option (gmap string pyval → result dict);
                                                 (* self.get_model_params(deep=False) *)
  get_model_param_names : option (list string);  (* self._get_model_param_names() *)
  set_model_params : option (dict → gmap string pyval → result (gmap string pyval));
                                                 (* self.set_model_params( **new_state ) *)
}.

Definition valid_ops : list string := ["set"; "rm"; "mv"; "map"].

(** [v in valid_ops] *)
Definition in_valid_ops (v : pyval) : bool :=
  match v with
  | PStr s => bool_decide (s ∈ valid_ops)
  | _ => false
  end.

(** [is_int(k)] *)
Definition is_int (k : ikey) : bool :=
  match k with KInt _ => true | KStr _ => false end.

Definition is_str_key (k : ikey) : bool :=
  match k with KInt _ => false | KStr _ => true end.

(** The order [sorted] uses on keys of one type. *)
Definition ikey_le (x y : ikey) : Prop :=
  match x, y with
  | KInt a, KInt b => a ≤ b
  | KStr s, KStr t => String.leb s t = true
  | KInt _, KStr _ => True
  | KStr _, KInt _ => False
  end.

Global Instance ikey_le_dec : RelDecision ikey_le.
Proof. intros [a|s] [b|t]; simpl; apply _. Defined.

Definition item_le (x y : ikey * ivalue) : Prop := ikey_le x.1 y.1.

Global Instance item_le_dec : RelDecision item_le.
Proof. intros x y. unfold item_le. apply _. Defined.

(** [sorted(m.items())]: keys of a dict are pairwise different, so the
    items are ordered by their keys alone; integers and strings do not
    compare with each other. *)
Definition sorted_items (m : interp_map) : result (list (ikey * ivalue)) :=
  let items := map_to_list m in
  if forallb (λ kv, is_int kv.1) items || forallb (λ kv, is_str_key kv.1) items
  then inr (merge_sort item_le items)
  else inl TypeError.

(** The body of [for action in v] of [_validate_interpolation_map]. *)
Definition check_action (a : action) : result unit :=
  match a with
  | [] => inl IndexError
  | verb :: _ => if in_valid_ops verb then inr () else inl DeveloperError
  end.

Fixpoint check_actions (acts : list action) : result unit :=
  match acts with
  | [] => inr ()
  | a :: acts' => check_action a ;; check_actions acts'
  end.

(** The body of [for k, v in inter_map.items()]. *)
Definition check_item (kv : ikey * ivalue) : result unit :=
  if negb (is_int kv.1) then inl DeveloperError
  else match kv.2 with
       | NotASequence => inl DeveloperError
       | Actions acts => check_actions acts
       end.

Fixpoint check_items (items : list (ikey * ivalue)) : result unit :=
  match items with
  | [] => inr ()
  | kv :: items' => check_item kv ;; check_items items'
  end.

(** [_validate_interpolation_map]: returns the sorted map that it stores
    back into the class. *)
Definition validate_interpolation_map (m : interp_map) : result (list (ikey * ivalue)) :=
  inter_map ← sorted_items m;
  check_items inter_map ;;
  mret inter_map.

Section interpolation.

(** [class_rename_registry.old_handled_by(klass)]: the historical names
    that are now handled by [klass]. *)
Variable old_handled_by : klass → list string.

(** The table of the callables that [map] actions refer to. *)
Variable py_call : nat → pyval → result pyval.

(** [state['class_tree_versions'][n]] *)
Definition lookup_class_tree_version (state : dict) (n : string) : result pyval :=
  match state !! HStr "class_tree_versions" with
  | None => inl KeyError
  | Some (PDict d) =>
      match d !! HStr n with
      | Some v => inr v
      | None => inl KeyError
      end
  | Some _ => inl TypeError
  end.

(** The loop [for n in names] of [_get_version_for_class_from_state]. *)
Fixpoint first_version (state : dict) (names : list string) : result pyval :=
  match names with
  | [] => inr PInf
  | n :: names' =>
      match lookup_class_tree_version state n with
      | inr v => inr v
      | inl KeyError => first_version state names'
      | inl e => inl e
      end
  end.

Definition get_version_for_class_from_state (state : dict) (c : klass) : result pyval :=
  first_version state (importable_name c :: old_handled_by c).

(** [callable(func)], and the call [func(v)]. A function wrapped in a
    [staticmethod] or method object is represented by the function itself
    (the source unwraps [func.__func__]). *)
Definition callable (func : pyval) : bool :=
  match func with PFunc _ => true | _ => false end.

Definition call (func v : pyval) : result pyval :=
  match func with
  | PFunc f => py_call f v
  | _ => inl TypeError
  end.

(** The body of [for a in actions] of [__interpolate]. *)
Definition apply_action (a : action) : M dict unit :=
  match a with
  | [operation; name; value] =>
      if py_eq_str operation "set" then setitem name value
      else if py_eq_str operation "mv" then
        try_except (arg ← pop name; setitem value arg)
                   (λ e, match e with
                         | KeyError => raise DeveloperError
                         | _ => raise e
                         end)
      else if py_eq_str operation "map" then
        if negb (callable value) then raise AssertionError
        else
          old ← getitem name;
          new ← lift (call value old);
          setitem name new
      else mret ()
  | [act; value] =>
      if py_eq_str act "rm" then pop_default value PNone ;; mret ()
      else mret ()
  | _ => mret ()
  end.

(** [klass._serialize_version > key >= klass_version] *)
Definition key_in_range (v1 : Z) (key : ikey) (klass_version : number) : result bool :=
  match key with
  | KInt k => inr ((k <? v1) && number_ge (Fin k) klass_version)
  | KStr _ => inl TypeError
  end.

(** The body of [for key in klass._serialize_interpolation_map.keys()]. *)
Definition interpolate_key (v1 : Z) (klass_version : number)
    (kv : ikey * ivalue) : M dict unit :=
  in_range ← lift (key_in_range v1 kv.1 klass_version);
  if negb in_range then mret ()
  else match kv.2 with
       | Actions actions => for_each actions apply_action
       | NotASequence => raise TypeError
       end.

(** [__interpolate(self, state, klass)] *)
Definition interpolate (c : klass) : M dict unit :=
  match serialize_interpolation_map c with
  | None => mret ()
  | Some m =>
      state ← get;
      klass_version ← lift (get_version_for_class_from_state state c);
      match serialize_version c with
      | None => raise AttributeError
      | Some v1 =>
          match as_number klass_version with
          | None => raise TypeError
          | Some v0 =>
              if number_gt v0 (Fin v1) then mret ()
              else
                inter_map ← lift (validate_interpolation_map m);
                for_each inter_map (interpolate_key v1 v0)
          end
      end
  end.

End interpolation.

(** The reading of the specification: the action lists are applied one
    after the other, each in its declared order. *)
Definition apply_action_lists (py_call : nat → pyval → result pyval)
    (lists : list (list action)) : M dict unit :=
  for_each (concat lists) (apply_action py_call).

(** ** Instances *)

(** An object taking part in the protocol. Attribute lookup on an instance
    is modelled by its attribute dictionary; methods and class attributes
    are those of [i_class]. *)
Record instance := Instance {
  i_class : klass;                  (* self.__class__ *)
  i_bases : list klass;             (* the rest of self.__class__.mro() *)
  i_dict : gmap string pyval;       (* the attributes of the instance *)
  i_flag : option bool;             (* self.__save_data_producer, if set *)
}.

Definition mro (self : instance) : list klass := i_class self :: i_bases self.

Definition with_dict (f : gmap string pyval → gmap string pyval)
    (self : instance) : instance :=
  {| i_class := i_class self; i_bases := i_bases self;
     i_dict := f (i_dict self); i_flag := i_flag self |}.

Definition with_flag (b : bool) (self : instance) : instance :=
  {| i_class := i_class self; i_bases := i_bases self;
     i_dict := i_dict self; i_flag := Some b |}.



(** [_get_classes_to_inspect] *)
Definition get_classes_to_inspect (self : instance) : list klass :=
  let classes_with_custom_fields :=
    List.filter (λ c, match serialize_fields c with
                      | Some (_ :: _) => true
                      | _ => false
                      end) (mro self) in
  let estimator_classes :=
    List.filter (λ c, match get_param_names c, serialize_version c with
                      | Some _, Some _ => true
                      | _, _ => false
                      end) (mro self) in
  classes_with_custom_fields ++ estimator_classes.

(** The getter of the property [_save_data_producer]. *)
Definition get_save_data_producer : M instance bool :=
  λ self, match i_flag self with
          | Some b => (inr b, self)
          | None => (inr false, with_flag false self)
          end.

(** [d.update(other)] *)
Definition update (other d : dict) : dict := other ∪ d.

(** [_get_state_of_serializeable_fields(klass)] *)
Definition get_state_of_serializeable_fields (self : instance) (c : klass) : result dict :=
  match serialize_fields c with
  | None => inl AttributeError
  | Some fields =>
      inr (foldl (λ res field,
                    match i_dict self !! field with
                    | Some v => <[HStr field := v]> res
                    | None => res
                    end) ∅ fields)
  end.

(** [{k: getattr(self, k, None) for k in klass._get_param_names()}] *)
Definition get_estimator_params (self : instance) (c : klass) : result dict :=
  match get_param_names c with
  | None => inl AttributeError
  | Some names =>
      inr (foldl (λ up k, <[HStr k := default PNone (i_dict self !! k)]> up) ∅ names)
  end.

(** The manifest: the loop [for c in self.__class__.mro()] of
    [__getstate__]. *)
Definition class_tree_versions (classes : list klass) : dict :=
  foldl (λ d c, <[HStr (importable_name c) := PInt (default (-1) (serialize_version c))]> d)
        ∅ classes.

(** What the loggers of the module receive. *)
Inductive log_record :=
| LogError (msg : string) (state : dict)
| LogException (msg : string) (e : exn).

Section getstate.

(** [pyemma.version] *)
Variable version : string.

(** The body of [for klass in classes_to_inspect] of [__getstate__]. *)
Definition getstate_class (self : instance) (res : dict) (c : klass) : result dict :=
  inc ← get_state_of_serializeable_fields self c;
  inc ← (if is_BaseEstimator c
         then up ← get_estimator_params self c; mret (update up inc)
         else mret inc) : result dict;
  mret (update inc res).

Fixpoint getstate_classes (self : instance) (res : dict) (cs : list klass) : result dict :=
  match cs with
  | [] => inr res
  | c :: cs' => res' ← getstate_class self res c; getstate_classes self res' cs'
  end.

(** The [try] block of [__getstate__]. *)
Definition getstate_body : M instance dict :=
  self ← get;
  if negb (bool_decide (is_Some (serialize_version (i_class self))))
  then raise DeveloperError
  else
    let res : dict := {[ HStr "class_tree_versions" := PDict (class_tree_versions (mro self)) ]} in
    flag ← get_save_data_producer;
    res ← (if (flag : bool)
           then match i_dict self !! "data_producer" with
                | None => raise AssertionError
                | Some producer => mret (<[HStr "data_producer" := producer]> res)
                end
           else mret res) : M instance dict;
    let res := match i_dict self !! "_is_reader" with
               | Some r => <[HStr "_is_reader" := r]> res
               | None => res
               end in
    res ← lift (getstate_classes self res (get_classes_to_inspect self));
    res ← (if has_get_params (i_class self)
           then match i_dict self !! "_estimated" with
                | None => raise AttributeError
                | Some e =>
                    let res := <[HStr "_estimated" := e]> res in
                    mret (match i_dict self !! "_model" with
                          | Some m => <[HStr "model" := m]> res
                          | None => res
                          end)
                end
           else mret res) : M instance dict;
    res ← (match get_model_params (i_class self) with
           | Some params => state ← lift (params (i_dict self)); mret (update state res)
           | None => mret res
           end) : M instance dict;
    mret (<[HStr "_pyemma_version" := PStr version]> res).

(** [__getstate__]: an exception of the body is logged and the method
    returns [None]. *)
Definition getstate : M (instance * list log_record) (option dict) :=
  λ '(self, log),
    match getstate_body self with
    | (inr res, self') => (inr (Some res), (self', log))
    | (inl e, self') =>
        (inr None, (self', log ++ [LogException "exception during pickling" e]))
    end.

End getstate.

(** ** Decoding *)

(** The store of [__setstate__]: the instance, the state dict it consumes
    and the log. *)
Record frame := Frame {
  f_self : instance;
  f_state : dict;
  f_log : list log_record;
}.

Definition on_state {A} (m : M dict A) : M frame A :=
  zoom f_state (λ st fr, {| f_self := f_self fr; f_state := st; f_log := f_log fr |}) m.

(** [setattr(self, name, v)] *)
Definition setattr (name : string) (v : pyval) : M frame unit :=
  modify (λ fr, {| f_self := with_dict (insert name v) (f_self fr);
                   f_state := f_state fr; f_log := f_log fr |}).

Definition log_append (r : log_record) : M frame unit :=
  modify (λ fr, {| f_self := f_self fr; f_state := f_state fr;
                   f_log := f_log fr ++ [r] |}).

(** [if name in state: setattr(self, name, state.pop(name))] *)
Definition restore_attr (name : string) : M frame unit :=
  fr ← get;
  match f_state fr !! HStr name with
  | Some _ => v ← on_state (pop (PStr name)); setattr name v
  | None => mret ()
  end.

Section setstate.

Variable old_handled_by : klass → list string.
Variable py_call : nat → pyval → result pyval.

(** [_set_state_from_serializeable_fields_and_state(state, klass)] *)
Definition set_state_from_serializeable_fields_and_state (c : klass) : M frame unit :=
  on_state (interpolate old_handled_by py_call c) ;;
  match get_param_names c with
  | Some params => for_each params restore_attr
  | None => mret ()
  end ;;
  match serialize_fields c with
  | None => raise AttributeError
  | Some fields => for_each fields restore_attr
  end.

(** [{key: state.pop(key) for key in names if key in state}] *)
Fixpoint pop_model_params (names : list string) (new_state : dict) : M dict dict :=
  match names with
  | [] => mret new_state
  | key :: names' =>
      st ← get;
      match st !! HStr key with
      | Some _ =>
          v ← pop (PStr key);
          pop_model_params names' (<[HStr key := v]> new_state)
      | None => pop_model_params names' new_state
      end
  end.

(** The statements of the [try] block of [__setstate__] between the two
    assertions. *)
Definition setstate_restore : M frame unit :=
  fr ← get;
  let self := f_self fr in
  let classes_to_inspect := get_classes_to_inspect self in
  (if has_set_params (i_class self)
      && bool_decide (is_Some (get_param_names (i_class self)))
   then
     e ← on_state (pop (PStr "_estimated"));
     setattr "_estimated" e ;;
     model ← on_state (pop_default (PStr "model") PNone);
     setattr "_model" model
   else mret ()) ;;
  for_each classes_to_inspect set_state_from_serializeable_fields_and_state ;;
  match set_model_params (i_class self), get_model_param_names (i_class self) with
  | Some setter, Some names =>
      new_state ← on_state (pop_model_params names ∅);
      fr ← get;
      attrs ← lift (setter new_state (i_dict (f_self fr)));
      put {| f_self := with_dict (λ _, attrs) (f_self fr);
             f_state := f_state fr; f_log := f_log fr |}
  | _, _ => mret ()
  end ;;
  fr ← get;
  match i_dict (f_self fr) !! "data_producer", f_state fr !! HStr "data_producer" with
  | Some _, Some producer => setattr "data_producer" producer
  | _, _ => mret ()
  end ;;
  restore_attr "_is_reader" ;;
  v ← on_state (pop_default (PStr "_pyemma_version") (PStr "!!!! UNKNOWN !!!!"));
  setattr "_pyemma_version" v ;;
  on_state (pop (PStr "class_tree_versions")) ;;
  mret ().

(** The [try] block of [__setstate__]: [assert state], the restoring
    statements, [assert len(state) == 0]. *)
Definition setstate_body : M frame unit :=
  fr ← get;
  if bool_decide (f_state fr = ∅) then raise AssertionError
  else
    setstate_restore ;;
    fr ← get;
    if bool_decide (f_state fr = ∅) then mret () else raise AssertionError.

(** [__setstate__] with its two handlers. *)
Definition setstate : M frame unit :=
  try_except setstate_body
    (λ e, match e with
          | AssertionError =>
              fr ← get;
              log_append (LogError "left-overs after setstate: %s" (f_state fr))
          | _ => log_append (LogException "exception during pickling" e)
          end).

End setstate.

(** ** The producer chain, [save] and [load] *)

(** The objects of the program, by address. A reference to an address
    outside the heap denotes a foreign object, which has no
    [_serialize_version]. *)
Abbreviation heap := (gmap nat instance).

(** Run a method of the object at address [o]. *)
Definition with_object {A} (o : nat) (m : M instance A) : M heap A :=
  λ h, match h !! o with
       | None => (inl AttributeError, h)
       | Some x => match m x with (r, x') => (r, <[o := x']> h) end
       end.

(** [p is self] *)
Definition is_object (p : pyval) (self : nat) : bool :=
  match p with PObj o => bool_decide (o = self) | _ => false end.

(** [hasattr(self, 'data_producer') and self.data_producer and
    self.data_producer is not self]: the producer the flag is forwarded
    to. An object reference is taken to be true. *)
Definition forward_target (h : heap) (self : nat) : option pyval :=
  x ← h !! self;
  producer ← i_dict x !! "data_producer";
  if truthy producer && negb (is_object producer self) then Some producer else None.

(** [hasattr(p.__class__, '_serialize_version')], with the address of the
    object when it holds. *)
Definition serializable_producer (h : heap) (producer : pyval) : option nat :=
  match producer with
  | PObj p => x ← h !! p; _ ← serialize_version (i_class x); Some p
  | _ => None
  end.

(** The setter of the property [_save_data_producer]. The recursion along
    the chain is bounded by the interpreter's recursion limit [fuel]. *)
Fixpoint set_save_data_producer (fuel : nat) (self : nat) (value : bool) : M heap unit :=
  match fuel with
  | O => raise RecursionError
  | S fuel' =>
      with_object self (modify (with_flag value)) ;;
      h ← get;
      match (if value then forward_target h self else None) with
      | Some producer =>
          match serializable_producer h producer with
          | None => raise RuntimeError
          | Some p => set_save_data_producer fuel' p value
          end
      | None => mret ()
      end
  end.

(** [save(obj, file_name, model_name, save_streaming_chain)]. [write_model]
    is the body of the [with h5py.File(file_name)] block: it writes the
    attributes of the group and runs the pickler, which calls
    [__getstate__] along the object graph. The registration of the pickle
    handlers, which comes first and does not touch [obj], is left out. *)
Definition save (fuel : nat) (write_model : M heap unit)
    (obj : nat) (save_streaming_chain : bool) : M heap unit :=
  old_flag ← with_object obj get_save_data_producer;
  set_save_data_producer fuel obj save_streaming_chain ;;
  flag ← with_object obj get_save_data_producer;
  (if bool_decide ((flag : bool) = save_streaming_chain) then mret ()
   else raise AssertionError) ;;
  try_finally
    (* [except Exception as e]: logged if [obj] is [Loggable], then re-raised *)
    (try_except write_model (λ e, raise e))
    (* restore old state *)
    (set_save_data_producer fuel obj old_flag).

(** The flag of the object at address [o], as the property reads it. *)
Definition flag_of (h : heap) (o : nat) : option bool :=
  x ← h !! o; Some (default false (i_flag x)).

(** [y] is on the producer chain of [self]: reached by following
    [data_producer] the way the setter does. *)
Inductive on_chain (h : heap) : nat → nat → Prop :=
| on_chain_self self : is_Some (h !! self) → on_chain h self self
| on_chain_next self p y :
    forward_target h self = Some (PObj p) →
    on_chain h p y →
    on_chain h self y.

(** The chain of [self] reaches, after [n] serializable producers, a
    producer whose class has no [_serialize_version]. *)
Inductive chain_breaks (h : heap) : nat → nat → Prop :=
| chain_breaks_here self producer :
    forward_target h self = Some producer →
    serializable_producer h producer = None →
    chain_breaks h self 0
| chain_breaks_later self producer p n :
    forward_target h self = Some producer →
    serializable_producer h producer = Some p →
    chain_breaks h p n →
    chain_breaks h self (S n).

(** A group of an HDF5 file, with its attributes. *)
Record h5group := H5Group { attrs : gmap string pyval }.

Abbreviation h5file := (gmap string h5group).

Section load.

(** [class_rename_registry.upgrade_old_names_in_json] *)
Variable upgrade_old_names_in_json : pyval → result pyval.

(** [jsonpickle.unpickler.decode(inp, context=context)], the context
    carrying the group. *)
Variable jsonpickle_decode : pyval → h5group → result instance.

(** [load(file_name, model_name)], on the files [fs] of the file system. *)
Definition load (fs : gmap string h5file) (file_name model_name : string)
    : result instance :=
  match fs !! file_name with
  | None => inl (OtherError "OSError")
  | Some f =>
      match f !! model_name with
      | None => inl ValueError
      | Some group =>
          inp ← from_option inr (inl KeyError) (attrs group !! "model");
          inp ← upgrade_old_names_in_json inp;
          jsonpickle_decode inp group
      end
  end.


End load.

(** ** Notions used to state the properties *)

(** An item of a validated interpolation map: an integer key with its
    list of actions. *)
Definition typed_item (x : Z * list action) : ikey * ivalue :=
  (KInt x.1, Actions x.2).

(** The length of the tuple that each verb takes, as the docstring of
    [SerializableMixIn] lists them: [('rm', name)], [('mv', old, new)],
    [('set', name, value)], [('map', name, func)]. *)
Definition arity (verb : string) : nat :=
  if String.eqb verb "rm" then 2%nat else 3%nat.

(** [v0 <= k < v1] on the key of an item. *)
Definition in_range (v0 v1 : Z) (x : Z * list action) : bool :=
  (x.1 <? v1) && (v0 <=? x.1).

(** Items in ascending order of their keys. *)
Definition key_lt (x y : Z * list action) : Prop := x.1 < y.1.

(** The names under which the classes of [self] persist fields and
    estimator parameters in [__getstate__]. *)
Definition class_names (c : klass) : list string :=
  default [] (serialize_fields c)
  ++ (if is_BaseEstimator c then default [] (get_param_names c) else []).

Definition declared_names (self : instance) : list string :=
  concat (class_names <$> get_classes_to_inspect self).

(** [self.get_model_params(deep=False)] has an entry for [key]. *)
Definition model_param (self : instance) (key : string) : Prop :=
  ∃ params state,
    get_model_params (i_class self) = Some params
    ∧ params (i_dict self) = inr state
    ∧ is_Some (state !! HStr key).

(** What a write to the flag leaves alone: the class, the ancestry and
    the attributes of every object. *)
Definition shape (x : instance) : klass * list klass * gmap string pyval :=
  (i_class x, i_bases x, i_dict x).

Definition same_shape (h h' : heap) : Prop :=
  ∀ o, shape <$> (h !! o) = shape <$> (h' !! o).

(** The entry of [key] in the state that [__getstate__] returned, if it
    returned one. *)
Definition state_lookup (r : result (option dict) * (instance * list log_record))
    (key : string) : option pyval :=
  match r with
  | (inr (Some res), _) => res !! HStr key
  | _ => None
  end.

(** Append a record to a log carried in a frame. *)
Definition logged (fr : frame) (r : log_record) : frame :=
  {| f_self := f_self fr; f_state := f_state fr; f_log := f_log fr ++ [r] |}.

(** ** Example classes, instances and states *)

Module Examples.

(** A class without estimator or model capabilities. *)
Definition plain_class (name : string) (v : option Z) (fields : option (list string))
    (m : option interp_map) : klass :=
  {| importable_name := name; serialize_version := v; serialize_fields := fields;
     serialize_interpolation_map := m; get_param_names := None;
     is_BaseEstimator := false; has_get_params := false; has_set_params := false;
     get_model_params := None; get_model_param_names := None;
     set_model_params := None |}.

Definition object_class : klass := plain_class "object" None None None.

Definition mixin_class : klass :=
  plain_class "s.SerializableMixIn" None (Some []) None.

(** No class has been renamed; no callable is registered. *)
Definition no_old_names (c : klass) : list string := [].
Definition no_call (f : nat) (v : pyval) : result pyval := inl TypeError.

(** [class C] at version 2, with the history of its fields: version 0
    introduced [x] and dropped [y], version 1 renamed [a] to [b]; the entry
    at 5 is for a version yet to come. *)
Definition C_map : interp_map :=
  {[ KInt 1 := Actions [[PStr "mv"; PStr "a"; PStr "b"]];
     KInt 0 := Actions [[PStr "set"; PStr "x"; PInt 3]; [PStr "rm"; PStr "y"]];
     KInt 5 := Actions [[PStr "rm"; PStr "a"]] ]}.

Definition C : klass := plain_class "m.C" (Some 2) (Some ["b"; "x"]) (Some C_map).

(** A state saved by version 0 of [C]. *)
Definition C_state_v0 : dict :=
  {[ HStr "class_tree_versions" := PDict {[ HStr "m.C" := PInt 0 ]};
     HStr "a" := PInt 5;
     HStr "y" := PNone;
     HStr "_pyemma_version" := PStr "2.5" ]}.

Definition C_selected : list (Z * list action) :=
  [ (0, [[PStr "set"; PStr "x"; PInt 3]; [PStr "rm"; PStr "y"]]);
    (1, [[PStr "mv"; PStr "a"; PStr "b"]]) ].

(** A state saved by a class of another name. *)
Definition other_state : dict :=
  {[ HStr "class_tree_versions" := PDict {[ HStr "m.D" := PInt 0 ]};
     HStr "a" := PInt 5 ]}.

(** A bare instance of [C], as the unpickler allocates it. *)
Definition C_bare : instance :=
  {| i_class := C; i_bases := [mixin_class; object_class]; i_dict := ∅;
     i_flag := None |}.

(** A state with a key that no class of [C] consumes. *)
Definition C_state_extra : dict := <[HStr "zzz" := PInt 1]> C_state_v0.

(** A state without its manifest. *)
Definition C_state_no_manifest : dict := {[ HStr "b" := PInt 5 ]}.

(** A transformer [T] at address 0 whose producer, at address 1, is an
    object of a class without [_serialize_version]. *)
Definition T : klass := plain_class "m.T" (Some 0) (Some ["dim"]) None.
Definition Foreign : klass := plain_class "m.Foreign" None None None.

Definition transformer (producer : nat) (flag : option bool) : instance :=
  {| i_class := T; i_bases := [mixin_class; object_class];
     i_dict := {[ "dim" := PInt 2; "data_producer" := PObj producer ]};
     i_flag := flag |}.

Definition foreign_object : instance :=
  {| i_class := Foreign; i_bases := [object_class]; i_dict := ∅; i_flag := None |}.

Definition broken_chain : heap :=
  {[ 0%nat := transformer 1 (Some false); 1%nat := foreign_object ]}.

(** A reader [R] at address 2, its own producer, and two transformers in
    front of it. *)
Definition R : klass := plain_class "m.R" (Some 0) (Some ["files"]) None.

Definition reader : instance :=
  {| i_class := R; i_bases := [mixin_class; object_class];
     i_dict := {[ "files" := PList [PStr "a.xtc"]; "data_producer" := PObj 2 ]};
     i_flag := None |}.

Definition pipeline : heap :=
  {[ 0%nat := transformer 1 None; 1%nat := transformer 2 None; 2%nat := reader ]}.

(** A class that lists [data_producer] among its own fields. *)
Definition K : klass := plain_class "m.K" (Some 0) (Some ["data_producer"]) None.

Definition K_instance : instance :=
  {| i_class := K; i_bases := [mixin_class; object_class];
     i_dict := {[ "data_producer" := PObj 1 ]};
     i_flag := Some false |}.

(** The body of [with h5py.File(...)] that succeeds without touching the
    objects. *)
Definition write_ok : M heap unit := mret ().

(** A file with one model, and decoders that hand back a fixed object. *)
Definition one_model_file : gmap string h5file :=
  {[ "f.h5" := {[ "latest" := {| attrs := {[ "model" := PStr "{}" ]} |} ]} ]}.

Definition upgrade_id (inp : pyval) : result pyval := inr inp.
Definition decode_to (obj : instance) (inp : pyval) (g : h5group) : result instance :=
  inr obj.



End Examples.

(** ** Notions used to state further properties *)

(** What [_validate_interpolation_map] accepts: an action with a valid
    verb in front, an integer key with a list of such actions. *)
Definition action_ok (a : action) : bool :=
  match a with
  | verb :: _ => in_valid_ops verb
  | [] => false
  end.

Definition item_ok (kv : ikey * ivalue) : bool :=
  is_int kv.1
  && match kv.2 with
     | Actions acts => forallb action_ok acts
     | NotASequence => false
     end.

(** The operands of an action that name keys of the state. *)
Definition operands (a : action) : list pyval :=
  match a with
  | [operation; name; value] =>
      if py_eq_str operation "set" then [name]
      else if py_eq_str operation "mv" then [name; value]
      else if py_eq_str operation "map" then [name]
      else []
  | [act; value] => if py_eq_str act "rm" then [value] else []
  | _ => []
  end.

Definition touched (a : action) : list hkey := omap hash_key (operands a).

(** The estimator parameters that a class persists in [__getstate__]. *)
Definition param_names_of (c : klass) : list string :=
  if is_BaseEstimator c then default [] (get_param_names c) else [].

(** The first statements of [__getstate__]: the state with the manifest,
    and with the producer when the flag is set. *)
Definition getstate_head (x : instance) : dict :=
  let base : dict :=
    {[ HStr "class_tree_versions" := PDict (class_tree_versions (mro x)) ]} in
  if default false (i_flag x)
  then match i_dict x !! "data_producer" with
       | Some producer => <[HStr "data_producer" := producer]> base
       | None => base
       end
  else base.

(** [__getstate__] persists [key] for class [c]: as one of its estimator
    parameters, or as one of its fields that the instance has. *)
Definition persisted_by (self : instance) (c : klass) (key : string) : Prop :=
  key ∈ param_names_of c
  ∨ (key ∈ default [] (serialize_fields c) ∧ is_Some (i_dict self !! key)).

(** The keys that [__getstate__] writes itself. *)
Definition getstate_keys : list string :=
  ["class_tree_versions"; "data_producer"; "_is_reader"; "_estimated"; "model";
   "_pyemma_version"].

(** A triple for the computations over a store: from a store that
    satisfies [P], the computation ends in a store that satisfies [Q] when
    it returns and [E] when it raises. *)
Definition triple {S A} (P : S → Prop) (m : M S A) (Q : A → S → Prop)
    (E : exn → S → Prop) : Prop :=
  ∀ s, P s → match m s with
             | (inr a, s') => Q a s'
             | (inl e, s') => E e s'
             end.

(** No action of the interpolation map of [c] names the key [k]. *)
Definition untouched (c : klass) (k : hkey) : Prop :=
  ∀ m key acts a,
    serialize_interpolation_map c = Some m →
    m !! key = Some (Actions acts) → a ∈ acts → k ∉ touched a.

(** The names that [_set_state_from_serializeable_fields_and_state] takes
    out of the state for class [c]. *)
Definition restored_names (c : klass) : list string :=
  default [] (get_param_names c) ++ default [] (serialize_fields c).

(** The keys that [__setstate__] may take out of the state of [self]:
    those of the estimator, of the classes it inspects, of the model, and
    the three it pops at the end. *)
Definition consumed_keys (self : instance) : list string :=
  ["_estimated"; "model"]
  ++ concat (restored_names <$> get_classes_to_inspect self)
  ++ default [] (get_model_param_names (i_class self))
  ++ ["_is_reader"; "_pyemma_version"; "class_tree_versions"].

Definition with_state (st : dict) (fr : frame) : frame :=
  {| f_self := f_self fr; f_state := st; f_log := f_log fr |}.

Definition with_attrs (attrs : gmap string pyval) (fr : frame) : frame :=
  {| f_self := with_dict (λ _, attrs) (f_self fr);
     f_state := f_state fr; f_log := f_log fr |}.

(** The entry of [k] in the state and the log are those of [fr0]. *)
Definition kept (k : hkey) (fr0 fr : frame) : Prop :=
  f_state fr !! k = f_state fr0 !! k ∧ f_log fr = f_log fr0.

(** The value [v] has been moved from the state to the attribute [key]. *)
Definition restored (key : string) (v : pyval) (fr : frame) : Prop :=
  f_state fr !! HStr key = None ∧ i_dict (f_self fr) !! key = Some v.

(** The value [v] is in the state under [key], or has been moved to the
    attribute. *)
Definition pending (key : string) (v : pyval) (fr : frame) : Prop :=
  f_state fr !! HStr key = Some v ∨ restored key v fr.

(** The chain of [self] ends after [n] serializable producers: at an
    object without a producer to forward to. *)
Inductive chain_ends (h : heap) : nat → nat → Prop :=
| chain_ends_here self :
    is_Some (h !! self) →
    forward_target h self = None →
    chain_ends h self 0
| chain_ends_later self producer p n :
    forward_target h self = Some producer →
    serializable_producer h producer = Some p →
    chain_ends h p n →
    chain_ends h self (S n).

(** Every object of [P] forwards the flag to a serializable producer that
    is in [P] again: the chain from an object of [P] does not end. *)
Definition never_ends (h : heap) (P : nat → Prop) : Prop :=
  ∀ o, P o →
    ∃ producer p,
      forward_target h o = Some producer
      ∧ serializable_producer h producer = Some p
      ∧ P p.

(** ** The container *)

(** The files of the file system, by name. *)
Abbreviation files := (gmap string h5file).

(** The entry of one group in the result of [list_models]. *)
Definition model_info (g : h5group) : result (gmap string pyval) :=
  repr ← from_option inr (inl KeyError) (attrs g !! "class_str");
  created ← from_option inr (inl KeyError) (attrs g !! "created_readable");
  chain ← from_option inr (inl KeyError) (attrs g !! "saved_streaming_chain");
  mret ({[ "repr" := repr; "created" := created;
           "saved_streaming_chain" := chain ]} : gmap string pyval).

(** The dict comprehension of [list_models] over the groups of the file. *)
Definition list_models_items (items : list (string * h5group))
    : result (gmap string (gmap string pyval)) :=
  foldl (λ acc kg, d ← acc; info ← model_info kg.2; mret (<[kg.1 := info]> d))
        (inr ∅) items.

(** [list_models(file_name)]. The order in which the groups are visited
    does not show in the result: every failure is a [KeyError]. *)
Definition list_models (fs : files) (file_name : string)
    : result (gmap string (gmap string pyval)) :=
  match fs !! file_name with
  | None => inl (OtherError "OSError")
  | Some f => list_models_items (map_to_list f)
  end.

(** [g.attrs[name] = v] on the group [model_name] of the file
    [file_name]. [h5py.File(file_name)], in the append mode that was its
    default when the module was written, and [require_group] create the
    file and the group when they do not exist. *)
Definition set_group_attr (file_name model_name name : string) (v : pyval)
    : M files unit :=
  modify (λ fs,
    let f := default ∅ (fs !! file_name) in
    let g := default (H5Group ∅) (f !! model_name) in
    <[file_name := <[model_name := H5Group (<[name := v]> (attrs g))]> f]> fs).

(** The [with h5py.File(file_name) as f] block of [save], on the files.
    [created] and [created_readable] are [time.time()] and
    [time.asctime()], [class_str] and [class_repr] are [str(obj)] and
    [repr(obj)], and [encode] is the outcome of [jsonpickle.pickler.encode]
    on the object. The arrays that the encoder stores in the group are data
    sets, not attributes, and are left out. *)
Definition write_group (file_name model_name : string)
    (created created_readable class_str class_repr : pyval)
    (save_streaming_chain : bool) (encode : result pyval) : M files unit :=
  set_group_attr file_name model_name "created" created ;;
  set_group_attr file_name model_name "created_readable" created_readable ;;
  set_group_attr file_name model_name "class_str" class_str ;;
  set_group_attr file_name model_name "class_repr" class_repr ;;
  set_group_attr file_name model_name "saved_streaming_chain"
    (PBool save_streaming_chain) ;;
  flattened ← lift encode;
  set_group_attr file_name model_name "model" flattened.

(** The attribute [name] of the group [model_name] of the file
    [file_name]. *)
Definition group_attr (fs : files) (file_name model_name name : string)
    : option pyval :=
  f ← fs !! file_name; g ← f !! model_name; attrs g !! name.

(** The attributes of a group after the five assignments that precede the
    encoding, from the attributes [old] it had. *)
Definition written_attrs (created created_readable class_str class_repr : pyval)
    (save_streaming_chain : bool) (old : gmap string pyval) : gmap string pyval :=
  <["saved_streaming_chain" := PBool save_streaming_chain]>
    (<["class_repr" := class_repr]>
       (<["class_str" := class_str]>
          (<["created_readable" := created_readable]>
             (<["created" := created]> old)))).

(** [c'] is the last class of [classes] that has the importable name of
    [c]: the one whose version the loop over the MRO leaves in the manifest
    under that name. *)
Definition last_named (classes : list klass) (c c' : klass) : Prop :=
  ∃ l1 l2,
    classes = l1 ++ c' :: l2
    ∧ importable_name c' = importable_name c
    ∧ ∀ d, d ∈ l2 → importable_name d ≠ importable_name c.

(** The entry of [name] in the manifest of the state that [__getstate__]
    returned, if it returned one that holds a manifest. *)
Definition manifest_lookup (r : result (option dict) * (instance * list log_record))
    (name : string) : option pyval :=
  match state_lookup r "class_tree_versions" with
  | Some (PDict manifest) => manifest !! HStr name
  | _ => None
  end.

(** ** Further examples *)

Module MoreExamples.
Import Examples.

(** The registry knows an old name of [C]. *)
Definition renamed (c : klass) : list string := ["m.OldC"].

(** A state saved when [C] had its old name, and one saved by a version
    of [C] yet to come. *)
Definition old_name_state : dict :=
  {[ HStr "class_tree_versions" := PDict {[ HStr "m.OldC" := PInt 0 ]};
     HStr "a" := PInt 5 ]}.

Definition newer_state : dict :=
  {[ HStr "class_tree_versions" := PDict {[ HStr "m.C" := PInt 7 ]};
     HStr "b" := PInt 5 ]}.

(** A state whose manifest is not a dict. *)
Definition broken_manifest_state : dict :=
  {[ HStr "class_tree_versions" := PInt 3; HStr "b" := PInt 5 ]}.

(** A class whose map uses a verb that does not exist. *)
Definition Bad_map : interp_map :=
  {[ KInt 0 := Actions [[PStr "delete"; PStr "a"]] ]}.

Definition Bad : klass := plain_class "m.Bad" (Some 1) (Some ["a"]) (Some Bad_map).

Definition Bad_state : dict :=
  {[ HStr "class_tree_versions" := PDict {[ HStr "m.Bad" := PInt 0 ]};
     HStr "a" := PInt 5 ]}.

(** An estimator [Est] at version 1, which at version 0 stored its field
    [b] under the name [a]. *)
Definition Est_map : interp_map :=
  {[ KInt 0 := Actions [[PStr "mv"; PStr "a"; PStr "b"]] ]}.

Definition Est : klass :=
  {| importable_name := "m.Est"; serialize_version := Some 1;
     serialize_fields := Some ["b"];
     serialize_interpolation_map := Some Est_map;
     get_param_names := Some ["lag"];
     is_BaseEstimator := true; has_get_params := true; has_set_params := true;
     get_model_params := None; get_model_param_names := None;
     set_model_params := None |}.

Definition Est_bare : instance :=
  {| i_class := Est; i_bases := [mixin_class; object_class]; i_dict := ∅;
     i_flag := None |}.

Definition Est_state_v0 : dict :=
  {[ HStr "class_tree_versions" := PDict {[ HStr "m.Est" := PInt 0 ]};
     HStr "a" := PInt 5;
     HStr "lag" := PInt 10;
     HStr "_estimated" := PBool true;
     HStr "_pyemma_version" := PStr "2.5" ]}.

(** An estimator with a parameter that is not an attribute. *)
Definition Est_instance : instance :=
  {| i_class := Est; i_bases := [mixin_class; object_class];
     i_dict := {[ "b" := PInt 5; "_estimated" := PBool false ]};
     i_flag := None |}.

(** A bare instance of [T], and a state of [T] that holds a producer. *)
Definition T_bare : instance :=
  {| i_class := T; i_bases := [mixin_class; object_class]; i_dict := ∅;
     i_flag := None |}.

Definition T_state_with_producer : dict :=
  {[ HStr "class_tree_versions" := PDict {[ HStr "m.T" := PInt 0 ]};
     HStr "dim" := PInt 2;
     HStr "data_producer" := PObj 1;
     HStr "_pyemma_version" := PStr "2.5" ]}.

(** An instance whose class has no [_serialize_version], and one whose
    flag is set although it has no producer. *)
Definition unversioned_instance : instance :=
  {| i_class := Foreign; i_bases := [object_class]; i_dict := ∅; i_flag := None |}.

Definition flagged_instance : instance :=
  {| i_class := T; i_bases := [mixin_class; object_class];
     i_dict := {[ "dim" := PInt 2 ]}; i_flag := Some true |}.

(** A class [A] at version 1 that extends the earlier class of the same
    name, at version 0 ([class A(A)] in the module of [A]), and an instance
    of it. *)
Definition A_old : klass := plain_class "m.A" (Some 0) (Some ["a"]) None.
Definition A_new : klass := plain_class "m.A" (Some 1) (Some ["a"]) None.

Definition A_instance : instance :=
  {| i_class := A_new; i_bases := [A_old; mixin_class; object_class];
     i_dict := {[ "a" := PInt 1 ]}; i_flag := None |}.

(** A class that lists [class_tree_versions] among its fields, and an
    instance with that attribute. *)
Definition F : klass :=
  plain_class "m.F" (Some 0) (Some ["class_tree_versions"]) None.

Definition F_instance : instance :=
  {| i_class := F; i_bases := [mixin_class; object_class];
     i_dict := {[ "class_tree_versions" := PInt 7 ]}; i_flag := None |}.

(** A model whose parameters have an entry [data_producer], with the
    flag set and a producer. *)
Definition Mdl : klass :=
  {| importable_name := "m.Mdl"; serialize_version := Some 0;
     serialize_fields := Some ["dim"];
     serialize_interpolation_map := None;
     get_param_names := None;
     is_BaseEstimator := false; has_get_params := false; has_set_params := false;
     get_model_params := Some (λ _, inr {[ HStr "data_producer" := PObj 9 ]});
     get_model_param_names := Some ["data_producer"];
     set_model_params := None |}.

Definition Mdl_instance : instance :=
  {| i_class := Mdl; i_bases := [mixin_class; object_class];
     i_dict := {[ "dim" := PInt 2; "data_producer" := PObj 1 ]};
     i_flag := Some true |}.

(** The state that [__getstate__] returns for an instance. *)
Definition saved (version : string) (x : instance) : dict :=
  match getstate version (x, []) with
  | (inr (Some res), _) => res
  | _ => ∅
  end.

(** Two transformers that are each other's producer. *)
Definition cycle : heap :=
  {[ 0%nat := transformer 1 None; 1%nat := transformer 0 None ]}.

(** A file with one complete model. *)
Definition complete_file : files :=
  {[ "f.h5" := {[ "latest" := {| attrs := {[ "model" := PStr "{}";
                                             "class_str" := PStr "T()";
                                             "created_readable" := PStr "Mon";
                                             "saved_streaming_chain" := PBool false ]} |} ]} ]}.

(** What [list_models] returns for a file. *)
Definition listed (fs : files) (file_name : string) : gmap string (gmap string pyval) :=
  match list_models fs file_name with
  | inr d => d
  | inl _ => ∅
  end.

End MoreExamples.

(** * Properties *)

(** ** The monad and the loops *)

Lemma for_each_app {S A} (l1 l2 : list A) (body : A → M S unit) (s : S) :
  for_each (l1 ++ l2) body s = (for_each l1 body ;; for_each l2 body) s.
Proof.
  revert s. induction l1 as [|x l1 IH]; intros s; simpl.
  - reflexivity.
  - unfold mbind, M_bind. destruct (body x s) as [[e|[]] s']; [done|].
    apply IH.
Qed.

Lemma for_each_skip {S A} (l : list A) (body : A → M S unit) (s : S) :
  (∀ x, x ∈ l → body x s = (inr (), s)) → for_each l body s = (inr (), s).
Proof.
  induction l as [|x l IH]; intros H; simpl; [done|].
  unfold mbind, M_bind. rewrite H by left.
  apply IH. intros y Hy. apply H. by right.
Qed.

(** ** Validation of the interpolation map *)

Global Instance typed_item_inj : Inj (=) (=) typed_item.
Proof. intros [k a] [k' a'] H. unfold typed_item in H. simpl in H. congruence. Qed.

Lemma check_items_typed (items : list (ikey * ivalue)) :
  check_items items = inr () →
  ∃ l : list (Z * list action), items = typed_item <$> l.
Proof.
  induction items as [|[k v] items IH]; simpl; intros H.
  - by exists [].
  - unfold check_item in H. simpl in H.
    destruct k as [z|s]; simpl in H; [|done].
    destruct v as [acts|]; simpl in H; [|done].
    unfold mbind, result_bind in H.
    destruct (check_actions acts) as [e|[]]; [done|].
    destruct (IH H) as [l ->]. by exists ((z, acts) :: l).
Qed.

Global Instance item_le_total : Total item_le.
Proof.
  intros [[a|s] ?] [[b|t] ?]; unfold item_le; simpl; try tauto.
  - lia.
  - apply String.leb_total.
Qed.

Lemma sorted_items_inv (m : interp_map) (l : list (ikey * ivalue)) :
  sorted_items m = inr l → l ≡ₚ map_to_list m ∧ Sorted item_le l.
Proof.
  unfold sorted_items. case_match; [|done]. intros [= <-]. split.
  - apply merge_sort_Permutation.
  - apply Sorted_merge_sort, _.
Qed.

Lemma sorted_typed_strict (l : list (Z * list action)) :
  Sorted item_le (typed_item <$> l) → NoDup l.*1 →
  StronglySorted key_lt l.
Proof.
  intros Hs Hnd.
  assert (Hle : StronglySorted (λ x y : Z * list action, x.1 ≤ y.1) l).
  { apply Sorted_StronglySorted; [intros x y z; simpl; lia|].
    clear Hnd. induction l as [|x l IH]; [constructor|].
    simpl in Hs. apply Sorted_inv in Hs as [Hs Hh].
    constructor; [by apply IH|].
    destruct l as [|y l]; constructor. simpl in Hh. by inversion Hh. }
  clear Hs. induction l as [|[k a] l IH]; [constructor|].
  simpl in Hnd. apply list.NoDup_cons in Hnd as [Hk Hnd].
  apply StronglySorted_inv in Hle as [Hle Hall].
  constructor; [by apply IH|].
  rewrite !list.Forall_forall in *. intros [k' a'] Hin. simpl.
  specialize (Hall _ Hin). simpl in Hall.
  unfold key_lt; simpl. assert (k ≠ k'); [|lia].
  intros ->. apply Hk. apply list_elem_of_fmap. exists (k', a'). done.
Qed.

Lemma validate_inv (m : interp_map) (inter_map : list (ikey * ivalue)) :
  validate_interpolation_map m = inr inter_map →
  ∃ l : list (Z * list action),
    inter_map = typed_item <$> l ∧
    StronglySorted key_lt l ∧
    ∀ k acts, (k, acts) ∈ l ↔ m !! KInt k = Some (Actions acts).
Proof.
  unfold validate_interpolation_map, mbind, result_bind.
  destruct (sorted_items m) as [e|items] eqn:Hs; [done|].
  destruct (check_items items) as [e|[]] eqn:Hc; [done|].
  intros [= <-]. apply sorted_items_inv in Hs as [Hp Hsorted].
  destruct (check_items_typed _ Hc) as [l ->]. exists l. split; [done|].
  split.
  - apply sorted_typed_strict; [done|].
    assert (Hnd : NoDup (typed_item <$> l).*1).
    { rewrite Hp. apply NoDup_fst_map_to_list. }
    rewrite <- list_fmap_compose in Hnd.
    apply (NoDup_fmap_1 KInt). by rewrite <- list_fmap_compose.
  - intros k acts.
    rewrite <- elem_of_map_to_list, <- Hp.
    change (KInt k, Actions acts) with (typed_item (k, acts)).
    by rewrite (list_elem_of_fmap_inj typed_item).
Qed.

(** ** Sorted lists *)

Lemma StronglySorted_filter_bool {A} (R : relation A) (f : A → bool) (l : list A) :
  StronglySorted R l → StronglySorted R (List.filter f l).
Proof.
  induction 1 as [|x l Hs IH Hall]; simpl; [constructor|].
  destruct (f x); [|done]. constructor; [done|].
  rewrite !list.Forall_forall in *. intros y Hy.
  apply Hall. apply list_elem_of_In in Hy. apply filter_In in Hy as [Hy _].
  by apply list_elem_of_In.
Qed.

Lemma StronglySorted_strict_NoDup {A} (R : relation A) (l : list A) :
  (∀ x, ¬ R x x) → StronglySorted R l → NoDup l.
Proof.
  intros Hirr. induction 1 as [|x l Hs IH Hall]; [constructor|].
  apply NoDup_cons_2; [|done].
  intros Hx. rewrite list.Forall_forall in Hall. by apply (Hirr x), Hall.
Qed.

Global Instance key_lt_antisymm : AntiSymm (=) key_lt.
Proof. unfold key_lt. intros x y ??. lia. Qed.

(** ** Interpolation *)

Section interpolation_facts.
Variable old_handled_by : klass → list string.
Variable py_call : nat → pyval → result pyval.

Lemma interpolate_keys_filter (v0 v1 : Z) (l : list (Z * list action)) (st : dict) :
  for_each (typed_item <$> l) (interpolate_key py_call v1 (Fin v0)) st
  = apply_action_lists py_call ((List.filter (in_range v0 v1) l).*2) st.
Proof.
  unfold apply_action_lists.
  revert st. induction l as [|[k acts] l IH]; intros st; [done|].
  cbn [fmap list_fmap for_each List.filter].
  unfold in_range at 1. cbn [fst snd].
  unfold mbind at 1. unfold M_bind.
  unfold interpolate_key at 1. cbn [typed_item fst snd key_in_range number_ge].
  unfold mbind at 1. unfold M_bind, lift.
  destruct ((k <? v1) && (v0 <=? k)); cbn [negb].
  - cbn [fmap list_fmap concat snd]. rewrite for_each_app.
    unfold mbind, M_bind.
    destruct (for_each acts (apply_action py_call) st) as [[e|[]] st']; [done|].
    apply IH.
  - apply IH.
Qed.

Lemma selected_unique (m : interp_map) (v0 v1 : Z) (l sel : list (Z * list action)) :
  StronglySorted key_lt l →
  (∀ k acts, (k, acts) ∈ l ↔ m !! KInt k = Some (Actions acts)) →
  StronglySorted key_lt sel →
  (∀ k acts, (k, acts) ∈ sel ↔ m !! KInt k = Some (Actions acts) ∧ v0 ≤ k < v1) →
  List.filter (in_range v0 v1) l = sel.
Proof.
  intros Hl Hm Hsel Hmem.
  apply (StronglySorted_unique key_lt).
  - by apply StronglySorted_filter_bool.
  - done.
  - apply NoDup_Permutation.
    + apply (StronglySorted_strict_NoDup key_lt);
        [unfold key_lt; intros x; lia|]. by apply StronglySorted_filter_bool.
    + apply (StronglySorted_strict_NoDup key_lt);
        [unfold key_lt; intros x; lia|done].
    + intros [k acts]. rewrite Hmem, <- Hm.
      rewrite list_elem_of_In, filter_In, <- list_elem_of_In.
      unfold in_range. simpl. rewrite andb_true_iff, Z.ltb_lt, Z.leb_le. tauto.
Qed.

(** C1. For a class with a valid interpolation map [m], current version
    [v1], and a state whose manifest gives the class the version [v0]:
    [__interpolate] does what applying, one after the other, the action
    lists [sel] does, where [sel] holds exactly the items of [m] whose keys
    [k] satisfy [v0 <= k < v1], in ascending order of their keys, and each
    list is applied in its declared order. No other action is applied. *)
Theorem interpolate_applies_versions_in_range (c : klass) (m : interp_map)
    (st : dict) (v0 v1 : Z) (sel : list (Z * list action)) :
  serialize_interpolation_map c = Some m →
  serialize_version c = Some v1 →
  get_version_for_class_from_state old_handled_by st c = inr (PInt v0) →
  (∃ inter_map, validate_interpolation_map m = inr inter_map) →
  StronglySorted key_lt sel →
  (∀ k acts, (k, acts) ∈ sel ↔ m !! KInt k = Some (Actions acts) ∧ v0 ≤ k < v1) →
  interpolate old_handled_by py_call c st = apply_action_lists py_call sel.*2 st.
Proof.
  intros Hmap Hv1 Hv0 [inter_map Hvalid] Hsel Hmem.
  unfold interpolate. rewrite Hmap.
  unfold mbind at 1. unfold M_bind, get.
  unfold mbind at 1. unfold M_bind, lift. rewrite Hv0, Hv1.
  cbn [as_number number_gt].
  destruct (v1 <? v0) eqn:Hlt.
  - apply Z.ltb_lt in Hlt.
    destruct sel as [|[k acts] sel]; [done|].
    destruct (Hmem k acts) as [H _]. destruct H as [_ ?]; [left|lia].
  - rewrite Hvalid. unfold mbind, M_bind.
    destruct (validate_inv _ _ Hvalid) as (l & -> & Hl & Hm).
    rewrite interpolate_keys_filter.
    by rewrite (selected_unique m v0 v1 l sel).
Qed.

Lemma first_version_absent (st manifest : dict) (names : list string) :
  st !! HStr "class_tree_versions" = Some (PDict manifest) →
  (∀ n, n ∈ names → manifest !! HStr n = None) →
  first_version st names = inr PInf.
Proof.
  intros Hst. induction names as [|n names IH]; intros Habs; [done|].
  simpl. unfold lookup_class_tree_version. rewrite Hst.
  rewrite (Habs n) by left. apply IH. intros n' Hn'. apply Habs. by right.
Qed.

(** C2. A class with an interpolation map, and a state whose manifest has
    no entry for the class under its importable name nor under any old name
    that the rename registry hands to it: the version found is
    [float('inf')], and [__interpolate] returns without touching the state
    (it returns normally when the class declares its version). *)
Theorem interpolate_class_absent_from_manifest (c : klass) (m : interp_map)
    (st manifest : dict) :
  serialize_interpolation_map c = Some m →
  st !! HStr "class_tree_versions" = Some (PDict manifest) →
  (∀ n, n ∈ importable_name c :: old_handled_by c → manifest !! HStr n = None) →
  get_version_for_class_from_state old_handled_by st c = inr PInf
  ∧ (interpolate old_handled_by py_call c st).2 = st
  ∧ (is_Some (serialize_version c) →
     interpolate old_handled_by py_call c st = (inr (), st)).
Proof.
  intros Hmap Hst Habs.
  assert (Hv : get_version_for_class_from_state old_handled_by st c = inr PInf).
  { unfold get_version_for_class_from_state. by eapply first_version_absent. }
  split; [done|].
  unfold interpolate. rewrite Hmap.
  unfold mbind at 1 3. unfold M_bind, get.
  unfold mbind at 1 2. unfold M_bind, lift. rewrite Hv.
  split.
  - by destruct (serialize_version c).
  - by intros [v1 ->].
Qed.

(** C8. In the loop over the actions of [__interpolate], an [mv] whose
    source key is not in the state raises [DeveloperError] (the state is as
    it was, the remaining actions are not run), and an [rm] whose key is not
    in the state does nothing (the loop goes on from the same state). *)
Theorem mv_missing_raises_rm_missing_is_skipped (st : dict) (name other : pyval)
    (k : hkey) (rest : list action) :
  hash_key name = Some k →
  st !! k = None →
  apply_action py_call [PStr "mv"; name; other] st = (inl DeveloperError, st)
  ∧ for_each ([PStr "mv"; name; other] :: rest) (apply_action py_call) st
    = (inl DeveloperError, st)
  ∧ apply_action py_call [PStr "rm"; name] st = (inr (), st)
  ∧ for_each ([PStr "rm"; name] :: rest) (apply_action py_call) st
    = for_each rest (apply_action py_call) st.
Proof.
  intros Hk Hst.
  assert (Hmv : apply_action py_call [PStr "mv"; name; other] st
                = (inl DeveloperError, st)).
  { simpl. unfold try_except, mbind, M_bind, pop. by rewrite Hk, Hst. }
  assert (Hrm : apply_action py_call [PStr "rm"; name] st = (inr (), st)).
  { simpl. unfold mbind, M_bind, pop_default. by rewrite Hk, Hst. }
  repeat split; try done.
  - cbn [for_each]. unfold mbind, M_bind. by rewrite Hmv.
  - cbn [for_each]. unfold mbind at 1. unfold M_bind. by rewrite Hrm.
Qed.

Lemma validate_singleton (k : Z) (acts : list action) :
  check_actions acts = inr () →
  validate_interpolation_map {[ KInt k := Actions acts ]}
  = inr [(KInt k, Actions acts)].
Proof.
  intros Hc. unfold validate_interpolation_map, sorted_items.
  rewrite map_to_list_singleton. cbn.
  unfold check_item. cbn. by rewrite Hc.
Qed.

(** C10. An action with a valid verb and a tuple length other than the
    one the verb takes is accepted by [_validate_interpolation_map] and is
    skipped by [__interpolate]: the state is left as it was. *)
Theorem wrong_length_action_is_accepted_and_skipped (verb : string)
    (args : list pyval) (k : Z) (st : dict) :
  verb ∈ valid_ops →
  length (PStr verb :: args) ≠ arity verb →
  check_action (PStr verb :: args) = inr ()
  ∧ validate_interpolation_map {[ KInt k := Actions [PStr verb :: args] ]}
    = inr [(KInt k, Actions [PStr verb :: args])]
  ∧ apply_action py_call (PStr verb :: args) st = (inr (), st).
Proof.
  intros Hverb Hlen.
  assert (Hc : check_action (PStr verb :: args) = inr ()).
  { unfold check_action, in_valid_ops. by rewrite bool_decide_eq_true_2. }
  split; [done|]. split.
  - apply validate_singleton. cbn [check_actions]. by rewrite Hc.
  - unfold valid_ops in Hverb.
    repeat (apply elem_of_cons in Hverb as [->|Hverb]);
      [..|by apply elem_of_nil in Hverb];
      destruct args as [|a1 [|a2 [|a3 args]]]; try done;
      cbn in Hlen; lia.
Qed.

End interpolation_facts.

(** ** The manifest *)

Lemma class_tree_versions_snoc (classes : list klass) (c : klass) :
  class_tree_versions (classes ++ [c])
  = <[HStr (importable_name c) := PInt (default (-1) (serialize_version c))]>
      (class_tree_versions classes).
Proof. unfold class_tree_versions. by rewrite foldl_app. Qed.

Lemma class_tree_versions_lookup (classes : list klass) (c : klass) :
  NoDup (importable_name <$> classes) →
  c ∈ classes →
  class_tree_versions classes !! HStr (importable_name c)
  = Some (PInt (default (-1) (serialize_version c))).
Proof.
  induction classes as [|c' classes IH] using rev_ind; intros Hnd Hin.
  - by apply elem_of_nil in Hin.
  - rewrite class_tree_versions_snoc.
    rewrite fmap_app in Hnd. apply list.NoDup_app in Hnd as (Hnd & Hfresh & _).
    apply elem_of_app in Hin as [Hin|Hin].
    + rewrite lookup_insert_ne; [by apply IH|].
      intros [= Heq]. apply (Hfresh (importable_name c)).
      * apply list_elem_of_fmap. by exists c.
      * rewrite <- Heq. simpl. left.
    + apply list_elem_of_singleton in Hin as ->. apply lookup_insert_eq.
Qed.

Lemma class_tree_versions_last (l1 l2 : list klass) (c : klass) :
  (∀ d, d ∈ l2 → importable_name d ≠ importable_name c) →
  class_tree_versions (l1 ++ c :: l2) !! HStr (importable_name c)
  = Some (PInt (default (-1) (serialize_version c))).
Proof.
  induction l2 as [|d l2 IH] using rev_ind; intros Hlast.
  - rewrite (class_tree_versions_snoc l1 c). apply lookup_insert_eq.
  - replace (l1 ++ c :: l2 ++ [d]) with ((l1 ++ c :: l2) ++ [d])
      by (by rewrite <- app_assoc).
    rewrite class_tree_versions_snoc, lookup_insert_ne.
    + apply IH. intros d' Hd'. apply Hlast. apply elem_of_app. by left.
    + intros [= Heq]. apply (Hlast d); [|done]. apply elem_of_app. right. left.
Qed.

Lemma last_named_exists (classes : list klass) (c : klass) :
  c ∈ classes → ∃ c', last_named classes c c'.
Proof.
  induction classes as [|d classes IH] using rev_ind; intros Hin.
  - by apply elem_of_nil in Hin.
  - destruct (decide (importable_name d = importable_name c)) as [Heq|Hne].
    + exists d, classes, []. repeat split; [done|].
      intros d' Hd'. by apply elem_of_nil in Hd'.
    + apply elem_of_app in Hin as [Hin|Hin].
      * destruct (IH Hin) as (c' & l1 & l2 & -> & Hname & Hlast).
        exists c', l1, (l2 ++ [d]). split; [by rewrite <- app_assoc|].
        split; [done|]. intros d' Hd'.
        apply elem_of_app in Hd' as [Hd'|Hd']; [by apply Hlast|].
        by apply list_elem_of_singleton in Hd' as ->.
      * by apply list_elem_of_singleton in Hin as ->.
Qed.

(** ** Loading *)

Section load_facts.
Variable upgrade_old_names_in_json : pyval → result pyval.
Variable jsonpickle_decode : pyval → h5group → result instance.


End load_facts.

(** ** Decoding *)

Section setstate_facts.
Variable old_handled_by : klass → list string.
Variable py_call : nat → pyval → result pyval.

Lemma setstate_returns (fr : frame) :
  (setstate old_handled_by py_call fr).1 = inr ().
Proof.
  unfold setstate, try_except.
  destruct (setstate_body old_handled_by py_call fr) as [[e|[]] fr']; [|done].
  by destruct e.
Qed.

Lemma setstate_leftovers (fr fr' : frame) :
  f_state fr ≠ ∅ →
  setstate_restore old_handled_by py_call fr = (inr (), fr') →
  f_state fr' ≠ ∅ →
  setstate old_handled_by py_call fr
  = (inr (), logged fr' (LogError "left-overs after setstate: %s" (f_state fr'))).
Proof.
  intros Hst Hrestore Hleft.
  unfold setstate, try_except, setstate_body.
  unfold mbind at 1. unfold M_bind, get.
  rewrite bool_decide_eq_false_2 by done.
  unfold mbind at 1. unfold M_bind. rewrite Hrestore.
  unfold mbind at 1. unfold M_bind.
  by rewrite bool_decide_eq_false_2 by done.
Qed.

Lemma setstate_swallows (fr fr' : frame) (e : exn) :
  setstate_body old_handled_by py_call fr = (inl e, fr') →
  e ≠ AssertionError →
  setstate old_handled_by py_call fr
  = (inr (), logged fr' (LogException "exception during pickling" e)).
Proof.
  intros Hbody He. unfold setstate, try_except. rewrite Hbody.
  by destruct e.
Qed.

(** C4. [__setstate__] never raises. When the restoring statements
    leave keys in the state, the failed assertion is caught: the left-over
    state is logged as an error and the method returns with the instance as
    populated so far. Any other exception of the [try] block is caught as
    well: it is logged and the method returns normally. *)
Theorem setstate_logs_and_returns (fr : frame) :
  (setstate old_handled_by py_call fr).1 = inr ()
  ∧ (∀ fr',
       f_state fr ≠ ∅ →
       setstate_restore old_handled_by py_call fr = (inr (), fr') →
       f_state fr' ≠ ∅ →
       setstate old_handled_by py_call fr
       = (inr (), logged fr' (LogError "left-overs after setstate: %s" (f_state fr'))))
  ∧ (∀ e fr',
       setstate_body old_handled_by py_call fr = (inl e, fr') →
       e ≠ AssertionError →
       setstate old_handled_by py_call fr
       = (inr (), logged fr' (LogException "exception during pickling" e))).
Proof.
  split; [apply setstate_returns|]. split.
  - apply setstate_leftovers.
  - intros e fr'. apply setstate_swallows.
Qed.

End setstate_facts.

(** ** Encoding *)

Lemma fields_state_lookup (self : instance) (fields : list string) (key : string) :
  foldl (λ (res : dict) field,
           match i_dict self !! field with
           | Some v => <[HStr field := v]> res
           | None => res
           end) ∅ fields !! HStr key
  = if bool_decide (key ∈ fields) then i_dict self !! key else None.
Proof.
  induction fields as [|f fields IH] using rev_ind.
  - done.
  - rewrite foldl_app. simpl.
    destruct (decide (key = f)) as [->|Hne].
    + rewrite (bool_decide_eq_true_2 (f ∈ fields ++ [f])) by (apply elem_of_app; right; left).
      destruct (i_dict self !! f) as [v|] eqn:Hv.
      * by rewrite lookup_insert_eq.
      * rewrite IH. by case_bool_decide.
    + assert (Hiff : key ∈ fields ++ [f] ↔ key ∈ fields).
      { rewrite elem_of_app, list_elem_of_singleton. tauto. }
      rewrite (bool_decide_ext _ _ Hiff), <- IH.
      destruct (i_dict self !! f); [|done].
      rewrite lookup_insert_ne; [done|congruence].
Qed.

Lemma params_lookup (self : instance) (names : list string) (key : string) :
  foldl (λ (up : dict) k, <[HStr k := default PNone (i_dict self !! k)]> up) ∅ names
    !! HStr key
  = if bool_decide (key ∈ names) then Some (default PNone (i_dict self !! key)) else None.
Proof.
  induction names as [|f names IH] using rev_ind.
  - done.
  - rewrite foldl_app. simpl.
    destruct (decide (key = f)) as [->|Hne].
    + rewrite (bool_decide_eq_true_2 (f ∈ names ++ [f])) by (apply elem_of_app; right; left).
      by rewrite lookup_insert_eq.
    + assert (Hiff : key ∈ names ++ [f] ↔ key ∈ names).
      { rewrite elem_of_app, list_elem_of_singleton. tauto. }
      rewrite (bool_decide_ext _ _ Hiff), <- IH.
      rewrite lookup_insert_ne; [done|congruence].
Qed.

(** A class either leaves the entry of [key] as it was, or persists
    under [key] the attribute of that name. *)
Lemma getstate_class_lookup (self : instance) (res res' : dict) (c : klass)
    (key : string) :
  getstate_class self res c = inr res' →
  res' !! HStr key = res !! HStr key
  ∨ (key ∈ class_names c
     ∧ res' !! HStr key = Some (default PNone (i_dict self !! key))).
Proof.
  unfold getstate_class, get_state_of_serializeable_fields, get_estimator_params,
    class_names, update.
  destruct (serialize_fields c) as [fields|]; [|done]. simpl.
  destruct (is_BaseEstimator c).
  - destruct (get_param_names c) as [names|]; [|done]. simpl.
    intros [= <-]. rewrite !lookup_union, params_lookup, fields_state_lookup.
    repeat case_bool_decide.
    + right. split; [apply elem_of_app; by right|].
      by destruct (i_dict self !! key), (res !! HStr key).
    + right. split; [apply elem_of_app; by right|].
      by destruct (res !! HStr key).
    + destruct (i_dict self !! key) as [v|] eqn:Hv.
      * right. split; [apply elem_of_app; by left|]. by destruct (res !! HStr key).
      * left. by destruct (res !! HStr key).
    + left. by destruct (res !! HStr key).
  - simpl. intros [= <-]. rewrite lookup_union, fields_state_lookup.
    case_bool_decide.
    + destruct (i_dict self !! key) as [v|] eqn:Hv.
      * right. split; [by rewrite app_nil_r|]. by destruct (res !! HStr key).
      * left. by destruct (res !! HStr key).
    + left. by destruct (res !! HStr key).
Qed.

Lemma getstate_classes_lookup (self : instance) (cs : list klass) (res res' : dict)
    (key : string) :
  getstate_classes self res cs = inr res' →
  res' !! HStr key = res !! HStr key
  ∨ (key ∈ concat (class_names <$> cs)
     ∧ res' !! HStr key = Some (default PNone (i_dict self !! key))).
Proof.
  revert res. induction cs as [|c cs IH]; intros res; simpl.
  - intros [= <-]. by left.
  - unfold mbind, result_bind.
    destruct (getstate_class self res c) as [e|res1] eqn:Hc; [done|].
    intros Hcs. destruct (IH _ Hcs) as [Heq|[Hin Hv]].
    + rewrite Heq. destruct (getstate_class_lookup _ _ _ _ key Hc) as [?|[Hin Hv]].
      * by left.
      * right. split; [|done]. apply elem_of_app. by left.
    + right. split; [|done]. apply elem_of_app. by right.
Qed.

Lemma get_save_data_producer_value (x : instance) :
  (get_save_data_producer x).1 = inr (default false (i_flag x)).
Proof. unfold get_save_data_producer. by destruct (i_flag x). Qed.

Section getstate_facts.
Variable version : string.

Lemma getstate_body_lookup (x x' : instance) (res : dict) (key : string) :
  getstate_body version x = (inr res, x') →
  key ∉ ["_is_reader"; "_estimated"; "model"; "_pyemma_version"] →
  ∃ res0 : dict,
    res0 !! HStr "class_tree_versions" = Some (PDict (class_tree_versions (mro x)))
    ∧ res0 !! HStr "data_producer"
      = (if default false (i_flag x) then i_dict x !! "data_producer" else None)
    ∧ (res !! HStr key = res0 !! HStr key
       ∨ (key ∈ declared_names x
          ∧ res !! HStr key = Some (default PNone (i_dict x !! key)))
       ∨ model_param x key).
Proof.
  intros Hbody Hkey.
  assert (Hk : key ≠ "_is_reader" ∧ key ≠ "_estimated" ∧ key ≠ "model"
               ∧ key ≠ "_pyemma_version").
  { repeat split; intros ->; apply Hkey; repeat constructor. }
  destruct Hk as (Hk1 & Hk2 & Hk3 & Hk4). clear Hkey.
  unfold getstate_body in Hbody.
  unfold mbind at 1 in Hbody. unfold M_bind, get in Hbody.
  destruct (bool_decide (is_Some (serialize_version (i_class x)))); [|done].
  cbn [negb] in Hbody.
  unfold mbind at 1 in Hbody. unfold M_bind in Hbody.
  pose proof (get_save_data_producer_value x) as Hflag.
  destruct (get_save_data_producer x) as [[e|flag] x1]; [done|].
  simpl in Hflag. injection Hflag as ->.
  set (base := ({[HStr "class_tree_versions" := PDict (class_tree_versions (mro x))]} : dict)) in *.
  (* the state after the producer has been stored *)
  set (head := if default false (i_flag x)
               then match i_dict x !! "data_producer" with
                    | Some producer => <[HStr "data_producer" := producer]> base
                    | None => base
                    end
               else base).
  exists head. split; [|split].
  - subst head base. destruct (default false (i_flag x)); [|by simplify_map_eq].
    destruct (i_dict x !! "data_producer"); by simplify_map_eq.
  - subst head base. destruct (default false (i_flag x)); [|by simplify_map_eq].
    destruct (i_dict x !! "data_producer"); by simplify_map_eq.
  - unfold mbind at 1 in Hbody. unfold M_bind in Hbody.
    assert (Hhead : ∃ r, (if default false (i_flag x)
                  then match i_dict x !! "data_producer" with
                       | Some producer => mret (<[HStr "data_producer" := producer]> base)
                       | None => raise AssertionError
                       end
                  else mret base) x1 = (r, x1)
                  ∧ (∀ res1, r = inr res1 → res1 = head)).
    { subst head. destruct (default false (i_flag x)).
      - destruct (i_dict x !! "data_producer").
        + eexists. split; [reflexivity|]. by intros ? [= <-].
        + eexists. split; [reflexivity|]. done.
      - eexists. split; [reflexivity|]. by intros ? [= <-]. }
    destruct Hhead as (r & Hr & Hhead). rewrite Hr in Hbody.
    destruct r as [e|res1]; [done|]. rewrite (Hhead _ eq_refl) in Hbody.
    clear Hr Hhead res1.
    unfold mbind at 1 in Hbody. unfold M_bind, lift in Hbody.
    destruct (getstate_classes x _ (get_classes_to_inspect x)) as [e|res2] eqn:Hcs;
      [done|].
    apply (getstate_classes_lookup _ _ _ _ key) in Hcs.
    assert (Hres2 : res2 !! HStr key = head !! HStr key
                    ∨ (key ∈ declared_names x
                       ∧ res2 !! HStr key = Some (default PNone (i_dict x !! key)))).
    { destruct Hcs as [Heq|?]; [left|by right]. rewrite Heq.
      destruct (i_dict x !! "_is_reader"); [|done].
      rewrite lookup_insert_ne; [done|congruence]. }
    clear Hcs.
    unfold mbind at 1 in Hbody. unfold M_bind in Hbody.
    assert (Hest : ∃ r, (if has_get_params (i_class x)
                  then match i_dict x !! "_estimated" with
                       | Some e =>
                           mret match i_dict x !! "_model" with
                                | Some m => <[HStr "model" := m]> (<[HStr "_estimated" := e]> res2)
                                | None => <[HStr "_estimated" := e]> res2
                                end
                       | None => raise AttributeError
                       end
                  else mret res2) x1 = (r, x1)
                  ∧ (∀ res3 : dict, r = inr res3 → res3 !! HStr key = res2 !! HStr key)).
    { destruct (has_get_params (i_class x)).
      - destruct (i_dict x !! "_estimated").
        + eexists. split; [reflexivity|]. intros ? [= <-].
          destruct (i_dict x !! "_model");
            rewrite ?lookup_insert_ne by congruence; done.
        + eexists. split; [reflexivity|]. done.
      - eexists. split; [reflexivity|]. by intros ? [= <-]. }
    destruct Hest as (r & Hr & Hest). rewrite Hr in Hbody.
    destruct r as [e|res3]; [done|]. specialize (Hest _ eq_refl). clear Hr.
    unfold mbind at 1 in Hbody. unfold M_bind in Hbody.
    destruct (get_model_params (i_class x)) as [params|] eqn:Hparams.
    + unfold mbind at 1 in Hbody. unfold M_bind, lift in Hbody.
      destruct (params (i_dict x)) as [e|state] eqn:Hstate; [done|].
      injection Hbody as <- <-.
      rewrite lookup_insert_ne by congruence.
      unfold update. rewrite lookup_union.
      destruct (state !! HStr key) as [v|] eqn:Hv.
      * right. right. exists params, state. by rewrite Hv.
      * rewrite (left_id None _), Hest. tauto.
    + injection Hbody as <- <-.
      rewrite lookup_insert_ne by congruence. rewrite Hest. tauto.
Qed.
End getstate_facts.

(** ** The producer chain *)

Global Instance same_shape_refl : Reflexive same_shape.
Proof. by intros h o. Qed.

Global Instance same_shape_trans : Transitive same_shape.
Proof. intros h1 h2 h3 H12 H23 o. by rewrite H12. Qed.

Global Instance same_shape_sym : Symmetric same_shape.
Proof. intros h1 h2 H o. by rewrite H. Qed.

Lemma same_shape_insert (h : heap) (o : nat) (x x' : instance) :
  h !! o = Some x → shape x = shape x' → same_shape h (<[o := x']> h).
Proof.
  intros Ho Hs o'. destruct (decide (o = o')) as [<-|Hne].
  - rewrite lookup_insert_eq, Ho. simpl. by rewrite Hs.
  - by rewrite lookup_insert_ne.
Qed.

Lemma same_shape_lookup (h h' : heap) (o : nat) (x : instance) :
  same_shape h h' → h !! o = Some x →
  ∃ x', h' !! o = Some x' ∧ shape x = shape x'.
Proof.
  intros Hs Ho. specialize (Hs o). rewrite Ho in Hs.
  destruct (h' !! o) as [x'|]; [|done]. exists x'. split; [done|].
  simpl in Hs. congruence.
Qed.

Lemma forward_target_shape (h h' : heap) (self : nat) :
  same_shape h h' → forward_target h self = forward_target h' self.
Proof.
  intros Hs. unfold forward_target. specialize (Hs self).
  destruct (h !! self) as [x|], (h' !! self) as [x'|]; try done.
  simpl in *. injection Hs as _ _ Hd. by rewrite Hd.
Qed.

Lemma serializable_producer_shape (h h' : heap) (producer : pyval) :
  same_shape h h' → serializable_producer h producer = serializable_producer h' producer.
Proof.
  intros Hs. unfold serializable_producer. destruct producer; try done.
  specialize (Hs o).
  destruct (h !! o) as [x|], (h' !! o) as [x'|]; try done.
  simpl in *. injection Hs as Hc _ _. by rewrite Hc.
Qed.

Lemma with_object_set_flag (h : heap) (self : nat) (v : bool) :
  with_object self (modify (with_flag v)) h
  = match h !! self with
    | Some x => (inr (), <[self := with_flag v x]> h)
    | None => (inl AttributeError, h)
    end.
Proof. unfold with_object. by destruct (h !! self). Qed.

Lemma with_object_get_flag (h : heap) (obj : nat) :
  ∃ h', with_object obj get_save_data_producer h
        = (from_option inr (inl AttributeError) (flag_of h obj), h')
        ∧ same_shape h h'
        ∧ ∀ o, flag_of h' o = flag_of h o.
Proof.
  unfold with_object, flag_of. destruct (h !! obj) as [x|] eqn:Hx.
  - unfold get_save_data_producer. destruct (i_flag x) as [b|] eqn:Hb.
    + exists (<[obj := x]> h). simpl. rewrite Hb. split; [done|].
      rewrite insert_id by done. done.
    + exists (<[obj := with_flag false x]> h). simpl. rewrite Hb. split; [done|].
      split; [by apply (same_shape_insert _ _ x)|].
      intros o. destruct (decide (obj = o)) as [<-|Hne].
      * rewrite lookup_insert_eq, Hx. simpl. by rewrite Hb.
      * by rewrite lookup_insert_ne.
  - exists h. done.
Qed.

Lemma set_save_data_producer_shape (fuel : nat) (self : nat) (v : bool) (h : heap) :
  same_shape h (set_save_data_producer fuel self v h).2.
Proof.
  revert self h. induction fuel as [|fuel IH]; intros self h; [done|].
  cbn [set_save_data_producer]. unfold mbind at 1. unfold M_bind.
  rewrite with_object_set_flag.
  destruct (h !! self) as [x|] eqn:Hx; [|done].
  assert (Hs : same_shape h (<[self := with_flag v x]> h))
    by by apply (same_shape_insert _ _ x).
  unfold mbind at 1. unfold M_bind, get.
  destruct (if v then forward_target _ self else None) as [producer|]; [|done].
  destruct (serializable_producer _ producer) as [p|]; [|done].
  etrans; [exact Hs|apply IH].
Qed.

Lemma set_save_data_producer_keeps (fuel : nat) (p : nat) (v : bool) (h : heap)
    (o : nat) :
  flag_of h o = Some v →
  flag_of (set_save_data_producer fuel p v h).2 o = Some v.
Proof.
  revert p h. induction fuel as [|fuel IH]; intros p h Ho; [done|].
  cbn [set_save_data_producer]. unfold mbind at 1. unfold M_bind.
  rewrite with_object_set_flag.
  destruct (h !! p) as [x|] eqn:Hx; [|done].
  assert (Ho' : flag_of (<[p := with_flag v x]> h) o = Some v).
  { unfold flag_of in *. destruct (decide (p = o)) as [<-|Hne].
    - by rewrite lookup_insert_eq.
    - by rewrite lookup_insert_ne. }
  unfold mbind at 1. unfold M_bind, get.
  destruct (if v then forward_target _ p else None) as [producer|]; [|done].
  destruct (serializable_producer _ producer) as [p'|]; [|done].
  by apply IH.
Qed.

Lemma set_save_data_producer_self (fuel : nat) (self : nat) (v : bool) (h : heap) :
  is_Some (h !! self) →
  flag_of (set_save_data_producer (S fuel) self v h).2 self = Some v.
Proof.
  intros [x Hx].
  cbn [set_save_data_producer]. unfold mbind at 1. unfold M_bind.
  rewrite with_object_set_flag, Hx.
  assert (Ho' : flag_of (<[self := with_flag v x]> h) self = Some v).
  { unfold flag_of. by rewrite lookup_insert_eq. }
  unfold mbind at 1. unfold M_bind, get.
  destruct (if v then forward_target _ self else None) as [producer|]; [|done].
  destruct (serializable_producer _ producer) as [p'|]; [|done].
  by apply set_save_data_producer_keeps.
Qed.

Lemma forward_target_is_Some (h : heap) (self : nat) (producer : pyval) :
  forward_target h self = Some producer → is_Some (h !! self).
Proof. unfold forward_target. by destruct (h !! self). Qed.

Lemma chain_breaks_shape (h h' : heap) (self n : nat) :
  same_shape h h' → chain_breaks h self n → chain_breaks h' self n.
Proof.
  intros Hs Hc. induction Hc as [self producer Hf Hp|self producer p n Hf Hp Hc IH].
  - eapply chain_breaks_here.
    + by rewrite <- (forward_target_shape h h').
    + by rewrite <- (serializable_producer_shape h h').
  - eapply chain_breaks_later; [| |exact IH].
    + by rewrite <- (forward_target_shape h h').
    + by rewrite <- (serializable_producer_shape h h').
Qed.

Lemma set_save_data_producer_chain_breaks (h : heap) (self n fuel : nat) :
  chain_breaks h self n → (n < fuel)%nat →
  (set_save_data_producer fuel self true h).1 = inl RuntimeError.
Proof.
  intros Hc. revert fuel.
  assert (Hgen : ∀ h' fuel, same_shape h h' → (n < fuel)%nat →
            (set_save_data_producer fuel self true h').1 = inl RuntimeError);
    [|intros fuel; by apply Hgen].
  induction Hc as [self producer Hf Hp|self producer p n Hf Hp Hc IH];
    intros h' fuel Hs Hfuel; (destruct fuel as [|fuel]; [lia|]).
  - cbn [set_save_data_producer]. unfold mbind at 1. unfold M_bind.
    rewrite with_object_set_flag.
    rewrite (forward_target_shape _ _ self Hs) in Hf.
    destruct (forward_target_is_Some _ _ _ Hf) as [x Hx]. rewrite Hx.
    assert (Hs' : same_shape h' (<[self := with_flag true x]> h'))
      by by apply (same_shape_insert _ _ x).
    unfold mbind at 1. unfold M_bind, get.
    rewrite <- (forward_target_shape _ _ self Hs'), Hf.
    rewrite <- (serializable_producer_shape _ _ producer Hs').
    rewrite <- (serializable_producer_shape _ _ producer Hs). by rewrite Hp.
  - cbn [set_save_data_producer]. unfold mbind at 1. unfold M_bind.
    rewrite with_object_set_flag.
    rewrite (forward_target_shape _ _ self Hs) in Hf.
    destruct (forward_target_is_Some _ _ _ Hf) as [x Hx]. rewrite Hx.
    assert (Hs' : same_shape h' (<[self := with_flag true x]> h'))
      by by apply (same_shape_insert _ _ x).
    unfold mbind at 1. unfold M_bind, get.
    rewrite <- (forward_target_shape _ _ self Hs'), Hf.
    rewrite <- (serializable_producer_shape _ _ producer Hs').
    rewrite <- (serializable_producer_shape _ _ producer Hs). rewrite Hp.
    apply IH; [by etrans|lia].
Qed.

Lemma set_save_data_producer_on_chain (h h' : heap) (self y fuel : nat) :
  on_chain h self y →
  set_save_data_producer fuel self true h = (inr (), h') →
  flag_of h' y = Some true.
Proof.
  intros Hc. revert fuel h'.
  assert (Hgen : ∀ h0 fuel h', same_shape h h0 →
            set_save_data_producer fuel self true h0 = (inr (), h') →
            flag_of h' y = Some true);
    [|intros fuel h'; by apply Hgen].
  induction Hc as [self [x Hx]|self p y Hf Hc IH]; intros h0 fuel h' Hs Hset;
    (destruct fuel as [|fuel]; [done|]).
  - destruct (same_shape_lookup _ _ _ _ Hs Hx) as (x0 & Hx0 & _).
    pose proof (set_save_data_producer_self fuel self true h0) as Hself.
    rewrite Hset in Hself. apply Hself. by exists x0.
  - cbn [set_save_data_producer] in Hset.
    unfold mbind at 1 in Hset. unfold M_bind in Hset.
    rewrite with_object_set_flag in Hset.
    rewrite (forward_target_shape _ _ self Hs) in Hf.
    destruct (forward_target_is_Some _ _ _ Hf) as [x Hx]. rewrite Hx in Hset.
    assert (Hs' : same_shape h0 (<[self := with_flag true x]> h0))
      by by apply (same_shape_insert _ _ x).
    unfold mbind at 1 in Hset. unfold M_bind, get in Hset.
    rewrite <- (forward_target_shape _ _ self Hs'), Hf in Hset.
    destruct (serializable_producer _ (PObj p)) as [p'|] eqn:Hp; [|done].
    assert (p' = p) as ->.
    { unfold serializable_producer in Hp.
      destruct (_ !! p) as [xp|]; [|done]. simpl in Hp.
      destruct (serialize_version (i_class xp)); [|done]. by injection Hp. }
    eapply IH; [|exact Hset]. by etrans.
Qed.

(** ** [save] *)

Lemma chain_breaks_is_Some (h : heap) (self n : nat) :
  chain_breaks h self n → is_Some (h !! self).
Proof. destruct 1; by eapply forward_target_is_Some. Qed.

Lemma flag_of_is_Some (h : heap) (o : nat) :
  is_Some (h !! o) → ∃ b, flag_of h o = Some b.
Proof. intros [x Hx]. unfold flag_of. rewrite Hx. by eexists. Qed.

Lemma same_shape_is_Some (h h' : heap) (o : nat) :
  same_shape h h' → is_Some (h !! o) → is_Some (h' !! o).
Proof.
  intros Hs [x Hx]. destruct (same_shape_lookup _ _ _ _ Hs Hx) as (x' & ? & _).
  by exists x'.
Qed.

(** When the chain of [obj] breaks, the setter called before the [try]
    block of [save] raises: [save] raises [RuntimeError] and the flag of
    [obj] stays set. *)
Lemma save_chain_breaks (fuel : nat) (write_model : M heap unit) (h : heap)
    (obj n : nat) :
  chain_breaks h obj n → (n < fuel)%nat →
  ∃ h2, save fuel write_model obj true h = (inl RuntimeError, h2)
        ∧ flag_of h2 obj = Some true.
Proof.
  intros Hc Hfuel.
  destruct (with_object_get_flag h obj) as (h1 & Hget & Hs & _).
  destruct (flag_of_is_Some h obj) as [b Hb]; [by eapply chain_breaks_is_Some|].
  rewrite Hb in Hget. simpl in Hget.
  pose proof (set_save_data_producer_chain_breaks h1 obj n fuel
                (chain_breaks_shape _ _ _ _ Hs Hc) Hfuel) as Hraise.
  assert (Hflag : flag_of (set_save_data_producer fuel obj true h1).2 obj = Some true).
  { destruct fuel as [|fuel]; [lia|]. apply set_save_data_producer_self.
    eapply same_shape_is_Some; [exact Hs|]. by eapply chain_breaks_is_Some. }
  unfold save. unfold mbind at 1. unfold M_bind. rewrite Hget.
  unfold mbind at 1. unfold M_bind.
  destruct (set_save_data_producer fuel obj true h1) as [r h2].
  simpl in Hraise, Hflag. subst r. by exists h2.
Qed.

(** When the setter called before the [try] block returns, the [finally]
    clause puts the flag of [obj] back, whatever [write_model] does. *)
Lemma save_restores_flag (fuel : nat) (write_model : M heap unit) (h h2 : heap)
    (obj : nat) (save_streaming_chain b : bool) :
  flag_of h obj = Some b →
  set_save_data_producer fuel obj save_streaming_chain
    (with_object obj get_save_data_producer h).2 = (inr (), h2) →
  (∀ h', is_Some (h' !! obj) → is_Some ((write_model h').2 !! obj)) →
  flag_of (save fuel write_model obj save_streaming_chain h).2 obj = Some b.
Proof.
  intros Hb Hset Hw.
  destruct (with_object_get_flag h obj) as (h1 & Hget & Hs & _).
  rewrite Hb in Hget. simpl in Hget. rewrite Hget in Hset. simpl in Hset.
  assert (Hobj : is_Some (h !! obj)).
  { unfold flag_of in Hb. by destruct (h !! obj). }
  destruct fuel as [|fuel]; [done|].
  assert (Hflag2 : flag_of h2 obj = Some save_streaming_chain).
  { pose proof (set_save_data_producer_self fuel obj save_streaming_chain h1) as H.
    rewrite Hset in H. apply H. by eapply same_shape_is_Some. }
  assert (Hobj2 : is_Some (h2 !! obj)).
  { unfold flag_of in Hflag2. by destruct (h2 !! obj). }
  destruct (with_object_get_flag h2 obj) as (h3 & Hget3 & Hs3 & _).
  rewrite Hflag2 in Hget3. simpl in Hget3.
  unfold save. unfold mbind at 1. unfold M_bind. rewrite Hget.
  unfold mbind at 1. unfold M_bind. rewrite Hset.
  unfold mbind at 1. unfold M_bind. rewrite Hget3.
  unfold mbind at 1. unfold M_bind.
  rewrite bool_decide_eq_true_2 by done. unfold mret, M_ret.
  unfold try_finally, try_except.
  assert (Hobj4 : is_Some ((write_model h3).2 !! obj)).
  { apply Hw. by eapply same_shape_is_Some. }
  destruct (write_model h3) as [[e|[]] h4]; simpl in Hobj4.
  - unfold raise.
    pose proof (set_save_data_producer_self fuel obj b h4 Hobj4) as H.
    destruct (set_save_data_producer (S fuel) obj b h4) as [[?|?] ?]; exact H.
  - pose proof (set_save_data_producer_self fuel obj b h4 Hobj4) as H.
    destruct (set_save_data_producer (S fuel) obj b h4) as [[?|?] ?]; exact H.
Qed.

(** C5. Saving with the producer chain, when the chain of the object
    reaches a producer whose class has no [_serialize_version]: [save]
    fails, and the exception is [RuntimeError]. *)
Theorem save_chain_with_unversioned_producer (fuel : nat) (write_model : M heap unit)
    (h : heap) (obj n : nat) :
  chain_breaks h obj n → (n < fuel)%nat →
  (save fuel write_model obj true h).1 = inl RuntimeError.
Proof.
  intros Hc Hfuel.
  destruct (save_chain_breaks fuel write_model h obj n Hc Hfuel) as (h2 & -> & _).
  done.
Qed.

(** C6. The input on which [save] does not put the flag back: the chain
    of the object reaches a producer whose class has no
    [_serialize_version] and the flag was not set. [save] raises from the
    setter, before its [try] block is entered, and the flag stays set. *)
Theorem save_leaves_flag_set_when_setter_raises (fuel : nat)
    (write_model : M heap unit) (h : heap) (obj n : nat) :
  chain_breaks h obj n → (n < fuel)%nat →
  flag_of h obj = Some false →
  (save fuel write_model obj true h).1 = inl RuntimeError
  ∧ flag_of (save fuel write_model obj true h).2 obj = Some true
  ∧ flag_of (save fuel write_model obj true h).2 obj ≠ flag_of h obj.
Proof.
  intros Hc Hfuel Hold.
  destruct (save_chain_breaks fuel write_model h obj n Hc Hfuel) as (h2 & -> & Hf).
  simpl. repeat split; [done..|]. by rewrite Hf, Hold.
Qed.

(** ** The producer in the encoded state *)

Section producer_facts.
Variable version : string.

Lemma getstate_inv (x : instance) (log : list log_record) (res : dict)
    (s : instance * list log_record) :
  getstate version (x, log) = (inr (Some res), s) →
  ∃ x', getstate_body version x = (inr res, x').
Proof.
  unfold getstate.
  destruct (getstate_body version x) as [[e|res'] x']; [done|].
  intros [= <- _]. by exists x'.
Qed.

Lemma getstate_body_parts (x x' : instance) (res : dict) :
  getstate_body version x = (inr res, x') →
  ∃ res1 res2 state : dict,
    getstate_classes x
      match i_dict x !! "_is_reader" with
      | Some r => <[HStr "_is_reader" := r]> (getstate_head x)
      | None => getstate_head x
      end (get_classes_to_inspect x) = inr res1
    ∧ (∀ k, k ≠ HStr "_estimated" → k ≠ HStr "model" → res2 !! k = res1 !! k)
    ∧ (∀ k, is_Some (res1 !! k) → is_Some (res2 !! k))
    ∧ (∀ key, is_Some (state !! HStr key) → model_param x key)
    ∧ match get_model_params (i_class x) with
      | Some params => params (i_dict x) = inr state
      | None => state = ∅
      end
    ∧ res = <[HStr "_pyemma_version" := PStr version]> (state ∪ res2).
Proof.
  intros Hbody.
  unfold getstate_body in Hbody.
  unfold mbind at 1 in Hbody. unfold M_bind, get in Hbody.
  destruct (bool_decide (is_Some (serialize_version (i_class x)))); [|done].
  cbn [negb] in Hbody.
  unfold mbind at 1 in Hbody. unfold M_bind in Hbody.
  pose proof (get_save_data_producer_value x) as Hflag.
  destruct (get_save_data_producer x) as [[e|flag] x1]; [done|].
  simpl in Hflag. injection Hflag as ->.
  set (base := ({[HStr "class_tree_versions" := PDict (class_tree_versions (mro x))]} : dict)) in *.
  unfold mbind at 1 in Hbody. unfold M_bind in Hbody.
  assert (Hhead : ∃ r, (if default false (i_flag x)
                then match i_dict x !! "data_producer" with
                     | Some producer => mret (<[HStr "data_producer" := producer]> base)
                     | None => raise AssertionError
                     end
                else mret base) x1 = (r, x1)
                ∧ (∀ res1, r = inr res1 → res1 = getstate_head x)).
  { unfold getstate_head. fold base. destruct (default false (i_flag x)).
    - destruct (i_dict x !! "data_producer").
      + eexists. split; [reflexivity|]. by intros ? [= <-].
      + eexists. split; [reflexivity|]. done.
    - eexists. split; [reflexivity|]. by intros ? [= <-]. }
  destruct Hhead as (r & Hr & Hhead). rewrite Hr in Hbody.
  destruct r as [e|res0]; [done|]. rewrite (Hhead _ eq_refl) in Hbody.
  clear Hr Hhead res0.
  unfold mbind at 1 in Hbody. unfold M_bind, lift in Hbody.
  destruct (getstate_classes x _ (get_classes_to_inspect x)) as [e|res1] eqn:Hcs;
    [done|].
  exists res1.
  unfold mbind at 1 in Hbody. unfold M_bind in Hbody.
  assert (Hest : ∃ r, (if has_get_params (i_class x)
                then match i_dict x !! "_estimated" with
                     | Some e =>
                         mret match i_dict x !! "_model" with
                              | Some m => <[HStr "model" := m]> (<[HStr "_estimated" := e]> res1)
                              | None => <[HStr "_estimated" := e]> res1
                              end
                     | None => raise AttributeError
                     end
                else mret res1) x1 = (r, x1)
                ∧ (∀ res2 : dict, r = inr res2 →
                     (∀ k, k ≠ HStr "_estimated" → k ≠ HStr "model" →
                        res2 !! k = res1 !! k)
                     ∧ (∀ k, is_Some (res1 !! k) → is_Some (res2 !! k)))).
  { destruct (has_get_params (i_class x)).
    - destruct (i_dict x !! "_estimated").
      + eexists. split; [reflexivity|]. intros ? [= <-]. split.
        * intros k Hk1 Hk2.
          destruct (i_dict x !! "_model");
            rewrite ?lookup_insert_ne by congruence; done.
        * intros k Hk.
          destruct (i_dict x !! "_model");
            rewrite ?lookup_insert_is_Some'; tauto.
      + eexists. split; [reflexivity|]. done.
    - eexists. split; [reflexivity|]. by intros ? [= <-]. }
  destruct Hest as (r & Hr & Hest). rewrite Hr in Hbody.
  destruct r as [e|res2]; [done|]. destruct (Hest _ eq_refl) as [Hsame Hmono].
  clear Hr Hest. exists res2.
  unfold mbind at 1 in Hbody. unfold M_bind in Hbody.
  destruct (get_model_params (i_class x)) as [params|] eqn:Hparams.
  - unfold mbind at 1 in Hbody. unfold M_bind, lift in Hbody.
    destruct (params (i_dict x)) as [e|state] eqn:Hstate; [done|].
    injection Hbody as <- <-. exists state. repeat split; try done.
    intros key Hkey. by exists params, state.
  - injection Hbody as <- <-. exists ∅. repeat split; try done.
    + intros key [? Hkey]. by rewrite lookup_empty in Hkey.
    + by rewrite (left_id ∅ _).
Qed.

(** C7. With the flag set, the state that [__getstate__] returns holds
    the producer of the instance under [data_producer], and setting the
    flag sets it on every object of the producer chain. With the flag not
    set, the state has no entry [data_producer], unless a class of the
    instance lists that name among its fields or estimator parameters. In
    both cases an entry [data_producer] of the model parameters, which are
    written later, is what the state holds instead. *)
Theorem producer_in_state_follows_flag (x : instance) (log : list log_record)
    (res : dict) (s : instance * list log_record) :
  getstate version (x, log) = (inr (Some res), s) →
  (¬ model_param x "data_producer" →
   i_flag x = Some true →
   ∀ producer, i_dict x !! "data_producer" = Some producer →
     res !! HStr "data_producer" = Some producer)
  ∧ (∀ fuel h h' self y,
       set_save_data_producer fuel self true h = (inr (), h') →
       on_chain h self y →
       flag_of h' y = Some true)
  ∧ (¬ model_param x "data_producer" →
     default false (i_flag x) = false →
     "data_producer" ∉ declared_names x →
     res !! HStr "data_producer" = None)
  ∧ (∀ params state v,
       get_model_params (i_class x) = Some params →
       params (i_dict x) = inr state →
       state !! HStr "data_producer" = Some v →
       res !! HStr "data_producer" = Some v).
Proof.
  intros Hget. apply getstate_inv in Hget as [x' Hbody].
  split; [|split; [|split]].
  - intros Hmodel Hflag producer Hp.
    destruct (getstate_body_lookup version x x' res "data_producer" Hbody)
      as (res0 & _ & Hhead & Hres).
    { intros Hin. repeat (apply elem_of_cons in Hin as [?|Hin]; [done|]).
      by apply elem_of_nil in Hin. }
    rewrite Hflag in Hhead. simpl in Hhead.
    destruct Hres as [Heq|[[_ Hv]|?]]; [|by rewrite Hv, Hp|done].
    by rewrite Heq, Hhead.
  - intros fuel h h' self y Hset Hc. by eapply set_save_data_producer_on_chain.
  - intros Hmodel Hflag Hdecl.
    destruct (getstate_body_lookup version x x' res "data_producer" Hbody)
      as (res0 & _ & Hhead & Hres).
    { intros Hin. repeat (apply elem_of_cons in Hin as [?|Hin]; [done|]).
      by apply elem_of_nil in Hin. }
    rewrite Hflag in Hhead.
    destruct Hres as [Heq|[[? _]|?]]; [|done..].
    by rewrite Heq, Hhead.
  - intros params state v Hparams Hstate Hv.
    destruct (getstate_body_parts x x' res Hbody)
      as (res1 & res2 & state' & _ & _ & _ & _ & Horigin & ->).
    rewrite Hparams, Hstate in Horigin. injection Horigin as <-.
    rewrite lookup_insert_ne by done. rewrite lookup_union, Hv.
    by destruct (res2 !! HStr "data_producer").
Qed.

(** The manifest is what the returned state holds under
    [class_tree_versions], unless a class of the instance persists a field
    or parameter of that very name. *)
Lemma getstate_stores_manifest (x : instance) (log : list log_record)
    (res : dict) (s : instance * list log_record) :
  getstate version (x, log) = (inr (Some res), s) →
  "class_tree_versions" ∉ declared_names x →
  ¬ model_param x "class_tree_versions" →
  res !! HStr "class_tree_versions" = Some (PDict (class_tree_versions (mro x))).
Proof.
  intros Hget Hdecl Hmodel. apply getstate_inv in Hget as [x' Hbody].
  destruct (getstate_body_lookup version x x' res "class_tree_versions" Hbody)
    as (res0 & Hmanifest & _ & Hres).
  { intros Hin. repeat (apply elem_of_cons in Hin as [?|Hin]; [done|]).
    by apply elem_of_nil in Hin. }
  destruct Hres as [Heq|[[? _]|?]]; [|done..].
  by rewrite Heq.
Qed.

(** C3. The state that [__getstate__] returns holds a manifest under
    [class_tree_versions], unless a class of the instance persists a field
    or a parameter of that very name or the model parameters have such an
    entry. The manifest maps the importable name of every class of the
    ancestry to the [_serialize_version], or to [-1] where there is none, of
    the last class of the ancestry that has this name. When the names of
    the ancestry are pairwise different this is the version of the class
    itself; and the name of the class of the instance is mapped to the
    version of that class when no ancestor has its name. *)
Theorem manifest_maps_ancestry_to_versions (x : instance) (log : list log_record)
    (res : dict) (s : instance * list log_record) :
  getstate version (x, log) = (inr (Some res), s) →
  "class_tree_versions" ∉ declared_names x →
  ¬ model_param x "class_tree_versions" →
  ∃ manifest : dict,
    res !! HStr "class_tree_versions" = Some (PDict manifest)
    ∧ (∀ c, c ∈ mro x →
         ∃ c', last_named (mro x) c c'
               ∧ manifest !! HStr (importable_name c)
                 = Some (PInt (default (-1) (serialize_version c'))))
    ∧ (NoDup (importable_name <$> mro x) →
       ∀ c, c ∈ mro x →
         manifest !! HStr (importable_name c)
         = Some (PInt (default (-1) (serialize_version c))))
    ∧ (∀ v,
         (∀ d, d ∈ i_bases x → importable_name d ≠ importable_name (i_class x)) →
         serialize_version (i_class x) = Some v →
         manifest !! HStr (importable_name (i_class x)) = Some (PInt v)).
Proof.
  intros Hget Hdecl Hmodel. exists (class_tree_versions (mro x)).
  split; [by apply (getstate_stores_manifest x log res s)|].
  split; [|split].
  - intros c Hc. destruct (last_named_exists (mro x) c Hc) as [c' Hlast].
    exists c'. split; [done|].
    destruct Hlast as (l1 & l2 & -> & Hname & Hlast).
    rewrite <- Hname. apply class_tree_versions_last.
    intros d Hd. rewrite Hname. by apply Hlast.
  - intros Hnd c Hc. by apply class_tree_versions_lookup.
  - intros v Hbases Hv.
    pose proof (class_tree_versions_last [] (i_bases x) (i_class x) Hbases) as Hown.
    simpl in Hown. unfold mro. by rewrite Hown, Hv.
Qed.

End producer_facts.

(** ** The properties on the examples *)

Module Witnesses.
Import Examples.

Lemma interpolate_applies_versions_in_range_witness :
  interpolate no_old_names no_call C C_state_v0
  = apply_action_lists no_call C_selected.*2 C_state_v0.
Proof.
  apply (interpolate_applies_versions_in_range no_old_names no_call
           C C_map C_state_v0 0 2 C_selected).
  - reflexivity.
  - reflexivity.
  - vm_compute. reflexivity.
  - eexists. vm_compute. reflexivity.
  - repeat constructor.
  - intros k acts. unfold C_selected. rewrite !elem_of_cons, elem_of_nil. split.
    + intros [[= -> ->]|[[= -> ->]|[]]]; (split; [vm_compute; reflexivity|lia]).
    + intros [Hm Hk]. assert (k = 0 ∨ k = 1) as [->| ->] by lia.
      * vm_compute in Hm. injection Hm as <-. by left.
      * vm_compute in Hm. injection Hm as <-. right. by left.
Defined.

(** What the migration of the example comes to. *)
Example interpolate_C_state_v0 :
  let r := interpolate no_old_names no_call C C_state_v0 in
  r.1 = inr ()
  ∧ r.2 !! HStr "x" = Some (PInt 3) ∧ r.2 !! HStr "y" = None
  ∧ r.2 !! HStr "a" = None ∧ r.2 !! HStr "b" = Some (PInt 5).
Proof. vm_compute. done. Qed.

Lemma interpolate_class_absent_from_manifest_witness :
  get_version_for_class_from_state no_old_names other_state C = inr PInf
  ∧ (interpolate no_old_names no_call C other_state).2 = other_state
  ∧ (is_Some (serialize_version C) →
     interpolate no_old_names no_call C other_state = (inr (), other_state)).
Proof.
  apply (interpolate_class_absent_from_manifest no_old_names no_call
           C C_map other_state {[ HStr "m.D" := PInt 0 ]}).
  - reflexivity.
  - vm_compute. reflexivity.
  - intros n Hn. simpl in Hn. apply list_elem_of_singleton in Hn as ->.
    vm_compute. reflexivity.
Defined.

Lemma setstate_logs_and_returns_witness :
  setstate no_old_names no_call
    {| f_self := C_bare; f_state := C_state_extra; f_log := [] |}
  = (inr (),
     {| f_self := with_dict (λ _, {[ "b" := PInt 5; "x" := PInt 3;
                                     "_pyemma_version" := PStr "2.5" ]}) C_bare;
        f_state := {[ HStr "zzz" := PInt 1 ]};
        f_log := [LogError "left-overs after setstate: %s" {[ HStr "zzz" := PInt 1 ]}] |}).
Proof.
  destruct (setstate_logs_and_returns no_old_names no_call
              {| f_self := C_bare; f_state := C_state_extra; f_log := [] |})
    as (_ & Hleft & _).
  rewrite (Hleft {| f_self := with_dict (λ _, {[ "b" := PInt 5; "x" := PInt 3;
                                     "_pyemma_version" := PStr "2.5" ]}) C_bare;
                    f_state := {[ HStr "zzz" := PInt 1 ]}; f_log := [] |}).
  - reflexivity.
  - simpl. intros H. by apply (f_equal (λ m : dict, m !! HStr "zzz")) in H.
  - vm_compute. reflexivity.
  - simpl. intros H. by apply (f_equal (λ m : dict, m !! HStr "zzz")) in H.
Defined.

(** A state without its manifest: the [try] block raises [KeyError], and
    [__setstate__] returns normally. *)
Lemma setstate_swallows_KeyError :
  (setstate_body no_old_names no_call
     {| f_self := C_bare; f_state := C_state_no_manifest; f_log := [] |}).1
  = inl KeyError
  ∧ (setstate no_old_names no_call
       {| f_self := C_bare; f_state := C_state_no_manifest; f_log := [] |}).1
    = inr ()
  ∧ (setstate no_old_names no_call
       {| f_self := C_bare; f_state := C_state_no_manifest; f_log := [] |}).1
    ≠ inl KeyError.
Proof. vm_compute. repeat split. discriminate. Qed.

Lemma broken_chain_breaks : chain_breaks broken_chain 0 0.
Proof. eapply chain_breaks_here; vm_compute; reflexivity. Qed.

Lemma save_chain_with_unversioned_producer_witness :
  (save 10 write_ok 0%nat true broken_chain).1 = inl RuntimeError.
Proof.
  apply (save_chain_with_unversioned_producer 10 write_ok broken_chain 0 0).
  - apply broken_chain_breaks.
  - lia.
Defined.

(** The exception of [save] on the broken chain is not [DeveloperError]. *)
Lemma save_broken_chain_not_DeveloperError :
  chain_breaks broken_chain 0 0
  ∧ (save 10 write_ok 0%nat true broken_chain).1 ≠ inl DeveloperError.
Proof. split; [apply broken_chain_breaks|]. vm_compute. discriminate. Qed.

Lemma save_leaves_flag_set_when_setter_raises_witness :
  (save 10 write_ok 0%nat true broken_chain).1 = inl RuntimeError
  ∧ flag_of (save 10 write_ok 0%nat true broken_chain).2 0 = Some true
  ∧ flag_of (save 10 write_ok 0%nat true broken_chain).2 0 ≠ flag_of broken_chain 0.
Proof.
  apply (save_leaves_flag_set_when_setter_raises 10 write_ok broken_chain 0 0).
  - apply broken_chain_breaks.
  - lia.
  - vm_compute. reflexivity.
Defined.

(** On a chain that does not break, [save] puts the flags of the first
    object back (those of its producers stay set). *)
Example save_pipeline :
  let h := (save 10 write_ok 0%nat true pipeline).2 in
  (save 10 write_ok 0%nat true pipeline).1 = inr ()
  ∧ flag_of h 0 = Some false ∧ flag_of h 1 = Some true ∧ flag_of h 2 = Some true.
Proof. vm_compute. done. Qed.

Lemma no_model_param (x : instance) (key : string) :
  get_model_params (i_class x) = None → ¬ model_param x key.
Proof. intros Hnone (params & state & Hsome & _). congruence. Qed.

Lemma state_lookup_inv (r : result (option dict) * (instance * list log_record))
    (key : string) (v : pyval) :
  state_lookup r key = Some v →
  ∃ res s, r = (inr (Some res), s) ∧ res !! HStr key = Some v.
Proof. destruct r as [[e|[res|]] s]; try done. intros H. by exists res, s. Qed.

Lemma producer_in_state_follows_flag_witness :
  ∃ res s,
    getstate "2.5" (transformer 1 (Some true), []) = (inr (Some res), s)
    ∧ res !! HStr "data_producer" = Some (PObj 1).
Proof.
  assert (Hkey : state_lookup (getstate "2.5" (transformer 1 (Some true), []))
                   "_pyemma_version" = Some (PStr "2.5")).
  { vm_compute. reflexivity. }
  apply state_lookup_inv in Hkey as (res & s & Hget & _).
  exists res, s. split; [done|].
  destruct (producer_in_state_follows_flag "2.5" (transformer 1 (Some true)) []
              res s Hget) as (Hset & _).
  apply Hset.
  - by apply no_model_param.
  - reflexivity.
  - vm_compute. reflexivity.
Defined.

Lemma manifest_lookup_inv (r : result (option dict) * (instance * list log_record))
    (name : string) (v : pyval) :
  manifest_lookup r name = Some v →
  ∃ res s manifest,
    r = (inr (Some res), s)
    ∧ res !! HStr "class_tree_versions" = Some (PDict manifest)
    ∧ manifest !! HStr name = Some v.
Proof.
  unfold manifest_lookup, state_lookup. destruct r as [[e|[res|]] s]; try done.
  destruct (res !! HStr "class_tree_versions") as [[| | | | | |manifest| |]|] eqn:Hm;
    try done.
  intros Hv. by exists res, s, manifest.
Qed.

Lemma manifest_maps_ancestry_to_versions_witness :
  ∃ res s manifest,
    getstate "2.5" (transformer 1 (Some true), []) = (inr (Some res), s)
    ∧ res !! HStr "class_tree_versions" = Some (PDict manifest)
    ∧ manifest !! HStr "m.T" = Some (PInt 0)
    ∧ manifest !! HStr "object" = Some (PInt (-1)).
Proof.
  assert (Hkey : state_lookup (getstate "2.5" (transformer 1 (Some true), []))
                   "_pyemma_version" = Some (PStr "2.5")).
  { vm_compute. reflexivity. }
  apply state_lookup_inv in Hkey as (res & s & Hget & _).
  assert (Hnd : NoDup (importable_name <$> mro (transformer 1 (Some true)))).
  { refine (bool_decide_unpack _ _). vm_compute. exact I. }
  destruct (manifest_maps_ancestry_to_versions "2.5" (transformer 1 (Some true)) []
              res s Hget) as (manifest & Hm & _ & Hall & Hown).
  - intros Hin. apply list_elem_of_singleton in Hin. discriminate Hin.
  - by apply no_model_param.
  - exists res, s, manifest. split; [done|]. split; [done|]. split.
    + apply (Hown 0); [|reflexivity].
      intros d Hd. simpl in Hd.
      repeat (apply list.elem_of_cons in Hd as [->|Hd]; [discriminate|]).
      by apply elem_of_nil in Hd.
    + apply (Hall Hnd object_class).
      unfold mro. simpl. do 2 apply list_elem_of_further. apply list_elem_of_here.
Defined.

(** The manifest of an instance of [class A(A)] gives the name of its
    class the version of the ancestor of that name, not its own; and the
    state of an instance whose class persists a field [class_tree_versions]
    holds that attribute and no manifest. *)
Lemma manifest_of_redefined_class :
  (∃ res s manifest,
     getstate "2.5" (MoreExamples.A_instance, []) = (inr (Some res), s)
     ∧ res !! HStr "class_tree_versions" = Some (PDict manifest)
     ∧ serialize_version (i_class MoreExamples.A_instance) = Some 1
     ∧ manifest !! HStr (importable_name (i_class MoreExamples.A_instance))
       = Some (PInt 0)
     ∧ manifest !! HStr (importable_name (i_class MoreExamples.A_instance))
       ≠ Some (PInt 1))
  ∧ (∃ res s,
       getstate "2.5" (MoreExamples.F_instance, []) = (inr (Some res), s)
       ∧ res !! HStr "class_tree_versions" = Some (PInt 7)
       ∧ ∀ manifest, res !! HStr "class_tree_versions" ≠ Some (PDict manifest)).
Proof.
  split.
  - assert (Hkey : manifest_lookup (getstate "2.5" (MoreExamples.A_instance, []))
                     "m.A" = Some (PInt 0)) by (vm_compute; reflexivity).
    apply manifest_lookup_inv in Hkey as (res & s & manifest & Hget & Hm & Hv).
    exists res, s, manifest.
    change (importable_name (i_class MoreExamples.A_instance)) with "m.A".
    rewrite Hv. repeat split; done.
  - assert (Hkey : state_lookup (getstate "2.5" (MoreExamples.F_instance, []))
                     "class_tree_versions" = Some (PInt 7)) by (vm_compute; reflexivity).
    apply state_lookup_inv in Hkey as (res & s & Hget & Hv).
    exists res, s. rewrite Hv. repeat split; done.
Qed.

(** With the flag set and a producer, the state of a model whose
    parameters have an entry [data_producer] holds that entry. *)
Example model_parameter_replaces_producer :
  state_lookup (getstate "2.5" (MoreExamples.Mdl_instance, [])) "data_producer"
  = Some (PObj 9).
Proof. vm_compute. reflexivity. Qed.

(** A class that lists [data_producer] among its fields: the state holds
    the producer although the flag is not set. *)
Lemma declared_producer_in_state_without_flag :
  ∃ res s,
    getstate "2.5" (K_instance, []) = (inr (Some res), s)
    ∧ default false (i_flag K_instance) = false
    ∧ res !! HStr "data_producer" = Some (PObj 1)
    ∧ res !! HStr "data_producer" ≠ None.
Proof.
  assert (Hkey : state_lookup (getstate "2.5" (K_instance, [])) "data_producer"
                 = Some (PObj 1)).
  { vm_compute. reflexivity. }
  apply state_lookup_inv in Hkey as (res & s & Hget & Hp).
  exists res, s. rewrite Hp. done.
Qed.

Lemma mv_missing_raises_rm_missing_is_skipped_witness :
  apply_action no_call [PStr "mv"; PStr "old"; PStr "new"] C_state_v0
  = (inl DeveloperError, C_state_v0)
  ∧ for_each ([PStr "mv"; PStr "old"; PStr "new"] :: [[PStr "rm"; PStr "a"]])
      (apply_action no_call) C_state_v0
    = (inl DeveloperError, C_state_v0)
  ∧ apply_action no_call [PStr "rm"; PStr "old"] C_state_v0 = (inr (), C_state_v0)
  ∧ for_each ([PStr "rm"; PStr "old"] :: [[PStr "rm"; PStr "a"]])
      (apply_action no_call) C_state_v0
    = for_each [[PStr "rm"; PStr "a"]] (apply_action no_call) C_state_v0.
Proof.
  apply (mv_missing_raises_rm_missing_is_skipped no_call C_state_v0
           (PStr "old") (PStr "new") (HStr "old")).
  - reflexivity.
  - vm_compute. reflexivity.
Defined.


Lemma wrong_length_action_is_accepted_and_skipped_witness :
  check_action [PStr "set"; PStr "x"] = inr ()
  ∧ validate_interpolation_map {[ KInt 0 := Actions [[PStr "set"; PStr "x"]] ]}
    = inr [(KInt 0, Actions [[PStr "set"; PStr "x"]])]
  ∧ apply_action no_call [PStr "set"; PStr "x"] C_state_v0 = (inr (), C_state_v0).
Proof.
  apply (wrong_length_action_is_accepted_and_skipped no_call "set" [PStr "x"] 0
           C_state_v0).
  - unfold valid_ops. set_solver.
  - vm_compute. lia.
Defined.

End Witnesses.

(** * Further properties *)

(** ** Validation *)

Lemma check_actions_ok (acts : list action) :
  check_actions acts = inr () ↔ forallb action_ok acts = true.
Proof.
  induction acts as [|a acts IH]; simpl; [done|].
  unfold mbind, result_bind. rewrite andb_true_iff, <- IH.
  destruct a as [|verb rest]; simpl; [split; [done|by intros [? _]]|].
  destruct (in_valid_ops verb); [tauto|split; [done|by intros [? _]]].
Qed.

Lemma check_item_ok (kv : ikey * ivalue) :
  check_item kv = inr () ↔ item_ok kv = true.
Proof.
  unfold check_item, item_ok. destruct kv as [[k|s] [acts|]]; simpl; try done.
  apply check_actions_ok.
Qed.

Lemma check_items_ok (items : list (ikey * ivalue)) :
  check_items items = inr () ↔ ∀ kv, kv ∈ items → item_ok kv = true.
Proof.
  induction items as [|kv items IH]; simpl.
  - split; [|done]. intros _ kv Hkv. by apply elem_of_nil in Hkv.
  - unfold mbind, result_bind. split.
    + destruct (check_item kv) as [e|[]] eqn:Hkv; [done|].
      intros Hitems kv' Hin. apply elem_of_cons in Hin as [->|Hin].
      * by apply check_item_ok.
      * by apply IH.
    + intros Hall. assert (Hkv : check_item kv = inr ()).
      { apply check_item_ok, Hall. left. }
      rewrite Hkv. apply IH. intros kv' Hin. apply Hall. by right.
Qed.

(** X1. [_validate_interpolation_map] accepts a map exactly when every
    key is an integer, every value is a list or tuple, and every action in
    it is a non-empty tuple whose first component is one of the four
    verbs. *)
Theorem validate_accepts_iff (m : interp_map) :
  (∃ inter_map, validate_interpolation_map m = inr inter_map)
  ↔ ∀ k v, m !! k = Some v → item_ok (k, v) = true.
Proof.
  unfold validate_interpolation_map, sorted_items, mbind, result_bind. split.
  - intros [inter_map H].
    destruct (forallb _ _ || forallb _ _); [|done].
    destruct (check_items _) as [e|[]] eqn:Hc; [done|].
    intros k v Hkv. rewrite check_items_ok in Hc. apply Hc.
    rewrite merge_sort_Permutation. by apply elem_of_map_to_list.
  - intros Hall.
    assert (Hint : forallb (λ kv : ikey * ivalue, is_int kv.1) (map_to_list m) = true).
    { apply forallb_forall. intros [k v] Hin.
      apply list_elem_of_In, elem_of_map_to_list in Hin.
      specialize (Hall k v Hin). unfold item_ok in Hall.
      by apply andb_true_iff in Hall as [? _]. }
    rewrite Hint. simpl.
    assert (Hc : check_items (merge_sort item_le (map_to_list m)) = inr ()).
    { apply check_items_ok. intros [k v] Hin.
      rewrite merge_sort_Permutation in Hin. apply Hall.
      by apply elem_of_map_to_list. }
    rewrite Hc. by eexists.
Qed.

(** X2. What [_validate_interpolation_map] returns holds exactly the
    items of the map, each key with its list of actions, in strictly
    ascending order of the keys. *)
Theorem validate_returns_sorted_items (m : interp_map)
    (inter_map : list (ikey * ivalue)) :
  validate_interpolation_map m = inr inter_map →
  ∃ l : list (Z * list action),
    inter_map = typed_item <$> l
    ∧ StronglySorted key_lt l
    ∧ (∀ k acts, (k, acts) ∈ l ↔ m !! KInt k = Some (Actions acts))
    ∧ (∀ kv, kv ∈ inter_map ↔ m !! kv.1 = Some kv.2).
Proof.
  intros Hv. destruct (validate_inv m inter_map Hv) as (l & -> & Hs & Hm).
  exists l. repeat split; try done; try apply Hm.
  - intros Hin. apply list_elem_of_fmap in Hin as ([k acts] & -> & Hin).
    simpl. by apply Hm.
  - intros Hkv. destruct kv as [k v]. simpl in Hkv.
    assert (Hin : (k, v) ∈ typed_item <$> l).
    { unfold validate_interpolation_map, sorted_items, mbind, result_bind in Hv.
      destruct (forallb _ _ || forallb _ _); [|done].
      destruct (check_items _) as [e|[]]; [done|].
      injection Hv as <-. rewrite merge_sort_Permutation.
      by apply elem_of_map_to_list. }
    done.
Qed.

(** X3. The sorted map that [_validate_interpolation_map] stores back
    into the class is the same mapping, and validating it again returns
    the same items. *)
Theorem validate_is_stable (m : interp_map) (inter_map : list (ikey * ivalue)) :
  validate_interpolation_map m = inr inter_map →
  list_to_map inter_map = m
  ∧ validate_interpolation_map (list_to_map inter_map) = inr inter_map.
Proof.
  intros Hv.
  assert (Hm : (list_to_map inter_map : interp_map) = m).
  { unfold validate_interpolation_map, sorted_items, mbind, result_bind in Hv.
    destruct (forallb _ _ || forallb _ _); [|done].
    destruct (check_items _) as [e|[]]; [done|].
    injection Hv as <-.
    rewrite <- (list_to_map_to_list m) at 2.
    apply list_to_map_proper.
    - rewrite merge_sort_Permutation. apply NoDup_fst_map_to_list.
    - apply merge_sort_Permutation. }
  by rewrite Hm.
Qed.

(** ** The version of a class in a state *)

Section version_facts.
Variable old_handled_by : klass → list string.
Variable py_call : nat → pyval → result pyval.

Lemma first_version_skip (st manifest : dict) (skipped rest : list string) :
  st !! HStr "class_tree_versions" = Some (PDict manifest) →
  (∀ n, n ∈ skipped → manifest !! HStr n = None) →
  first_version st (skipped ++ rest) = first_version st rest.
Proof.
  intros Hst. induction skipped as [|n skipped IH]; intros Habs; [done|].
  simpl. unfold lookup_class_tree_version. rewrite Hst.
  rewrite (Habs n) by left. apply IH. intros n' Hn'. apply Habs. by right.
Qed.

(** X4. The version of a class is the manifest entry of the first of its
    names that the manifest knows, the current name before the old ones:
    an entry under the current name wins, and a state saved under an old
    name, which has no entry under the current one, gives the entry of
    that old name. *)
Theorem version_is_first_known_name (c : klass) (st manifest : dict)
    (earlier later : list string) (n : string) (v : pyval) :
  st !! HStr "class_tree_versions" = Some (PDict manifest) →
  importable_name c :: old_handled_by c = earlier ++ n :: later →
  (∀ n', n' ∈ earlier → manifest !! HStr n' = None) →
  manifest !! HStr n = Some v →
  get_version_for_class_from_state old_handled_by st c = inr v.
Proof.
  intros Hst Hnames Hearlier Hn. unfold get_version_for_class_from_state.
  rewrite Hnames, (first_version_skip st manifest) by done.
  simpl. unfold lookup_class_tree_version. by rewrite Hst, Hn.
Qed.

Lemma first_version_no_manifest (st : dict) (names : list string) :
  st !! HStr "class_tree_versions" = None →
  first_version st names = inr PInf.
Proof.
  intros Hst. induction names as [|n names IH]; [done|].
  simpl. unfold lookup_class_tree_version. by rewrite Hst.
Qed.

(** X5. A state without the key [class_tree_versions]: the [KeyError] is
    caught for every name, the version is [float('inf')], and
    [__interpolate] leaves the state as it is. *)
Theorem state_without_manifest_is_not_interpolated (c : klass) (st : dict) (v1 : Z) :
  st !! HStr "class_tree_versions" = None →
  serialize_version c = Some v1 →
  get_version_for_class_from_state old_handled_by st c = inr PInf
  ∧ interpolate old_handled_by py_call c st = (inr (), st).
Proof.
  intros Hst Hv1.
  assert (Hv : get_version_for_class_from_state old_handled_by st c = inr PInf).
  { by apply first_version_no_manifest. }
  split; [done|]. unfold interpolate.
  destruct (serialize_interpolation_map c) as [m|]; [|done].
  unfold mbind at 1. unfold M_bind, get.
  unfold mbind at 1. unfold M_bind, lift. by rewrite Hv, Hv1.
Qed.

(** X6. A manifest that is not a dict: the subscript raises [TypeError],
    which the lookup does not catch; [__interpolate] raises it and leaves
    the state as it is. *)
Theorem manifest_not_a_dict_raises (c : klass) (m : interp_map) (st : dict)
    (manifest : pyval) :
  serialize_interpolation_map c = Some m →
  st !! HStr "class_tree_versions" = Some manifest →
  (∀ d, manifest ≠ PDict d) →
  get_version_for_class_from_state old_handled_by st c = inl TypeError
  ∧ interpolate old_handled_by py_call c st = (inl TypeError, st).
Proof.
  intros Hmap Hst Hnd.
  assert (Hv : get_version_for_class_from_state old_handled_by st c = inl TypeError).
  { unfold get_version_for_class_from_state. simpl.
    unfold lookup_class_tree_version. rewrite Hst.
    destruct manifest; try done. by destruct (Hnd d). }
  split; [done|]. unfold interpolate. rewrite Hmap.
  unfold mbind at 1. unfold M_bind, get.
  unfold mbind at 1. unfold M_bind, lift. by rewrite Hv.
Qed.

(** X7. A state saved by a newer version of the class than the current
    one is passed through: [__interpolate] returns before it validates the
    map, so this holds for a malformed map too. *)
Theorem newer_state_is_passed_through (c : klass) (m : interp_map) (st : dict)
    (v0 v1 : Z) :
  serialize_interpolation_map c = Some m →
  serialize_version c = Some v1 →
  get_version_for_class_from_state old_handled_by st c = inr (PInt v0) →
  v1 < v0 →
  interpolate old_handled_by py_call c st = (inr (), st).
Proof.
  intros Hmap Hv1 Hv0 Hlt. unfold interpolate. rewrite Hmap.
  unfold mbind at 1. unfold M_bind, get.
  unfold mbind at 1. unfold M_bind, lift. rewrite Hv0, Hv1.
  cbn [as_number number_gt]. by rewrite (proj2 (Z.ltb_lt v1 v0) Hlt).
Qed.

(** X8. A state that is not newer than the class, and a map that
    [_validate_interpolation_map] rejects: [__interpolate] raises the error
    of the validation before any action runs; the state is as it was. *)
Theorem malformed_map_raises_before_any_action (c : klass) (m : interp_map)
    (st : dict) (v0 v1 : Z) (e : exn) :
  serialize_interpolation_map c = Some m →
  serialize_version c = Some v1 →
  get_version_for_class_from_state old_handled_by st c = inr (PInt v0) →
  v0 ≤ v1 →
  validate_interpolation_map m = inl e →
  interpolate old_handled_by py_call c st = (inl e, st).
Proof.
  intros Hmap Hv1 Hv0 Hle Hval. unfold interpolate. rewrite Hmap.
  unfold mbind at 1. unfold M_bind, get.
  unfold mbind at 1. unfold M_bind, lift. rewrite Hv0, Hv1.
  cbn [as_number number_gt].
  rewrite (proj2 (Z.ltb_ge v1 v0)) by lia.
  unfold mbind, M_bind. by rewrite Hval.
Qed.

End version_facts.

(** ** What the actions do to the state *)

Lemma for_each_keeps {S A B} (f : S → B) (l : list A) (body : A → M S unit) (s : S) :
  (∀ x s', x ∈ l → f (body x s').2 = f s') →
  f (for_each l body s).2 = f s.
Proof.
  revert s. induction l as [|x l IH]; intros s Hkeep; [done|].
  cbn [for_each]. unfold mbind, M_bind.
  pose proof (Hkeep x s (list_elem_of_here _ _)) as Hx.
  destruct (body x s) as [[e|[]] s1]; simpl in Hx; [done|].
  rewrite <- Hx. apply IH. intros y s' Hy. apply Hkeep. by right.
Qed.

Section action_facts.
Variable old_handled_by : klass → list string.
Variable py_call : nat → pyval → result pyval.

Lemma setitem_keeps (name value : pyval) (st : dict) (k : hkey) :
  hash_key name ≠ Some k → (setitem name value st).2 !! k = st !! k.
Proof.
  unfold setitem. destruct (hash_key name) as [k'|]; [|done].
  intros Hne. simpl. apply lookup_insert_ne. congruence.
Qed.

Lemma pop_keeps (name : pyval) (st : dict) (k : hkey) :
  hash_key name ≠ Some k → (pop name st).2 !! k = st !! k.
Proof.
  unfold pop. destruct (hash_key name) as [k'|]; [|done].
  intros Hne. destruct (st !! k'); [|done]. simpl.
  apply lookup_delete_ne. congruence.
Qed.

Lemma pop_default_keeps (name default : pyval) (st : dict) (k : hkey) :
  hash_key name ≠ Some k → (pop_default name default st).2 !! k = st !! k.
Proof.
  unfold pop_default. destruct (hash_key name) as [k'|]; [|done].
  intros Hne. destruct (st !! k'); [|done]. simpl.
  apply lookup_delete_ne. congruence.
Qed.

Lemma getitem_state (name : pyval) (st : dict) : (getitem name st).2 = st.
Proof.
  unfold getitem. destruct (hash_key name); [|done]. by destruct (st !! h).
Qed.

Lemma not_touched_cons (k : hkey) (v : pyval) (vs : list pyval) :
  k ∉ omap hash_key (v :: vs) → hash_key v ≠ Some k ∧ k ∉ omap hash_key vs.
Proof.
  intros Hk. split.
  - intros Hv. apply Hk. apply list_elem_of_omap. exists v. split; [left|done].
  - intros Hin. apply Hk. apply list_elem_of_omap in Hin as (v' & Hin & Hv').
    apply list_elem_of_omap. exists v'. split; [by right|done].
Qed.

Lemma apply_action_keeps (a : action) (st : dict) (k : hkey) :
  k ∉ touched a → (apply_action py_call a st).2 !! k = st !! k.
Proof.
  unfold touched, operands, apply_action.
  destruct a as [|operation [|name [|value [|? ?]]]]; try done.
  - destruct (py_eq_str operation "rm"); [|done].
    intros Hk. apply not_touched_cons in Hk as [Hname _].
    unfold mbind, M_bind.
    pose proof (pop_default_keeps name PNone st k Hname) as Hp.
    by destruct (pop_default name PNone st) as [[e|v] st'].
  - destruct (py_eq_str operation "set").
    { intros Hk. apply not_touched_cons in Hk as [Hname _].
      by apply setitem_keeps. }
    destruct (py_eq_str operation "mv").
    { intros Hk. apply not_touched_cons in Hk as [Hname Hk].
      apply not_touched_cons in Hk as [Hvalue _].
      unfold try_except, mbind, M_bind.
      pose proof (pop_keeps name st k Hname) as Hp.
      destruct (pop name st) as [[e|v] st1]; simpl in Hp.
      - by destruct e.
      - pose proof (setitem_keeps value v st1 k Hvalue) as Hs.
        destruct (setitem value v st1) as [[e|[]] st2]; simpl in Hs.
        + rewrite <- Hp, <- Hs. by destruct e.
        + by rewrite <- Hp, <- Hs. }
    destruct (py_eq_str operation "map"); [|done].
    intros Hk. apply not_touched_cons in Hk as [Hname _].
    destruct (callable value); [|done]. cbn [negb].
    unfold mbind, M_bind, lift.
    pose proof (getitem_state name st) as Hg.
    destruct (getitem name st) as [[e|old] st1]; simpl in Hg; subst st1; [done|].
    destruct (call py_call value old) as [e|new]; [done|].
    by apply setitem_keeps.
Qed.

Lemma interpolate_keeps (c : klass) (st : dict) (k : hkey) :
  untouched c k →
  (interpolate old_handled_by py_call c st).2 !! k = st !! k.
Proof.
  intros Hk. unfold interpolate.
  destruct (serialize_interpolation_map c) as [m|] eqn:Hmap; [|done].
  unfold mbind at 1. unfold M_bind, get.
  unfold mbind at 1. unfold M_bind, lift.
  destruct (get_version_for_class_from_state old_handled_by st c) as [e|v]; [done|].
  destruct (serialize_version c) as [v1|]; [|done].
  destruct (as_number v) as [v0|]; [|done].
  destruct (number_gt v0 (Fin v1)); [done|].
  unfold mbind, M_bind.
  destruct (validate_interpolation_map m) as [e|inter_map] eqn:Hval; [done|].
  destruct (validate_inv m inter_map Hval) as (l & -> & _ & Hl).
  apply (for_each_keeps (λ s : dict, s !! k)).
  intros kv st' Hin. apply list_elem_of_fmap in Hin as ([key acts] & -> & Hin).
  apply Hl in Hin. unfold interpolate_key. cbn [typed_item fst snd key_in_range].
  unfold mbind, M_bind, lift.
  destruct (_ && _); [|done]. cbn [negb].
  apply (for_each_keeps (λ s : dict, s !! k)).
  intros a st'' Ha. apply apply_action_keeps. by eapply Hk.
Qed.

(** X9. [__interpolate] reads and writes only the keys that the actions
    of the interpolation map name: the entry of every other key of the
    state is what it was, whatever the outcome. *)
Theorem interpolate_keeps_unnamed_keys (c : klass) (st : dict) (k : hkey) :
  untouched c k →
  (interpolate old_handled_by py_call c st).2 !! k = st !! k.
Proof. apply interpolate_keeps. Qed.

(** X10. An [mv] whose source key is in the state moves the value to the
    target key: the target holds the value, the source key is gone (when
    the two keys differ), and no other key changes. *)
Theorem mv_moves_the_value (st : dict) (old new v : pyval) (ko kn : hkey) :
  hash_key old = Some ko →
  hash_key new = Some kn →
  st !! ko = Some v →
  ∃ st',
    apply_action py_call [PStr "mv"; old; new] st = (inr (), st')
    ∧ st' !! kn = Some v
    ∧ (ko ≠ kn → st' !! ko = None)
    ∧ (∀ k, k ≠ ko → k ≠ kn → st' !! k = st !! k).
Proof.
  intros Hko Hkn Hv. exists (<[kn := v]> (delete ko st)). split.
  - simpl. unfold try_except, mbind, M_bind, pop, setitem, modify.
    by rewrite Hko, Hv, Hkn.
  - split; [apply lookup_insert_eq|]. split.
    + intros Hne. rewrite lookup_insert_ne by done. apply lookup_delete_eq.
    + intros k Hk1 Hk2. rewrite lookup_insert_ne by done.
      by rewrite lookup_delete_ne.
Qed.

(** X11. A [map] action replaces the value of its key by the result of
    the function and changes no other key. When the key is not in the
    state it raises [KeyError] (not [DeveloperError], unlike [mv]); when the
    function raises, so does the action; when the third component is not
    callable, the assertion fails before the key is looked up. In all three
    cases the state is as it was. *)
Theorem map_applies_the_function (st : dict) (name : pyval) (k : hkey) (f : nat) :
  hash_key name = Some k →
  (∀ old new, st !! k = Some old → py_call f old = inr new →
     apply_action py_call [PStr "map"; name; PFunc f] st = (inr (), <[k := new]> st))
  ∧ (st !! k = None →
     apply_action py_call [PStr "map"; name; PFunc f] st = (inl KeyError, st))
  ∧ (∀ old e, st !! k = Some old → py_call f old = inl e →
     apply_action py_call [PStr "map"; name; PFunc f] st = (inl e, st))
  ∧ (∀ value, callable value = false →
     apply_action py_call [PStr "map"; name; value] st = (inl AssertionError, st)).
Proof.
  intros Hk. repeat split.
  - intros old new Hold Hnew. simpl.
    unfold mbind, M_bind, getitem, lift, setitem, modify.
    by rewrite Hk, Hold, Hnew.
  - intros Hnone. simpl. unfold mbind, M_bind, getitem. by rewrite Hk, Hnone.
  - intros old e Hold He. simpl.
    unfold mbind, M_bind, getitem, lift. by rewrite Hk, Hold, He.
  - intros value Hc. simpl. by rewrite Hc.
Qed.

End action_facts.

(** ** What [__getstate__] returns *)

Section getstate_more.
Variable version : string.

Lemma getstate_body_inv (x x' : instance) (res : dict) :
  getstate_body version x = (inr res, x') →
  ∃ res1 res2 state : dict,
    getstate_classes x
      match i_dict x !! "_is_reader" with
      | Some r => <[HStr "_is_reader" := r]> (getstate_head x)
      | None => getstate_head x
      end (get_classes_to_inspect x) = inr res1
    ∧ (∀ k, k ≠ HStr "_estimated" → k ≠ HStr "model" → res2 !! k = res1 !! k)
    ∧ (∀ k, is_Some (res1 !! k) → is_Some (res2 !! k))
    ∧ (∀ key, is_Some (state !! HStr key) → model_param x key)
    ∧ res = <[HStr "_pyemma_version" := PStr version]> (state ∪ res2).
Proof.
  intros Hbody.
  destruct (getstate_body_parts version x x' res Hbody)
    as (res1 & res2 & state & H1 & H2 & H3 & H4 & _ & H5).
  by exists res1, res2, state.
Qed.

Lemma getstate_class_origin (self : instance) (res res' : dict) (c : klass)
    (key : string) :
  getstate_class self res c = inr res' →
  (persisted_by self c key
   ∧ res' !! HStr key = Some (default PNone (i_dict self !! key)))
  ∨ (¬ persisted_by self c key ∧ res' !! HStr key = res !! HStr key).
Proof.
  unfold getstate_class, get_state_of_serializeable_fields, get_estimator_params,
    persisted_by, param_names_of, update.
  destruct (serialize_fields c) as [fields|]; [|done]. simpl.
  destruct (is_BaseEstimator c).
  - destruct (get_param_names c) as [names|]; [|done]. simpl.
    intros [= <-]. rewrite !lookup_union, params_lookup, fields_state_lookup.
    destruct (decide (key ∈ names)) as [Hn|Hn].
    { left. split; [by left|]. rewrite bool_decide_eq_true_2 by done.
      by destruct (if bool_decide (key ∈ fields) then _ else _), (res !! HStr key). }
    rewrite (bool_decide_eq_false_2 (key ∈ names)) by done.
    destruct (decide (key ∈ fields)) as [Hf|Hf].
    + rewrite bool_decide_eq_true_2 by done.
      destruct (i_dict self !! key) as [v|] eqn:Hv.
      * left. split; [right; by split|]. by destruct (res !! HStr key).
      * right. split; [|by destruct (res !! HStr key)].
        intros [?|[_ [? ?]]]; done.
    + rewrite bool_decide_eq_false_2 by done.
      right. split; [|by destruct (res !! HStr key)]. intros [?|[? _]]; done.
  - simpl. intros [= <-]. rewrite lookup_union, fields_state_lookup.
    destruct (decide (key ∈ fields)) as [Hf|Hf].
    + rewrite bool_decide_eq_true_2 by done.
      destruct (i_dict self !! key) as [v|] eqn:Hv.
      * left. split; [right; by split|]. by destruct (res !! HStr key).
      * right. split; [|by destruct (res !! HStr key)].
        intros [Hin|[_ [? ?]]]; [by apply elem_of_nil in Hin|done].
    + rewrite bool_decide_eq_false_2 by done.
      right. split; [|by destruct (res !! HStr key)].
      intros [Hin|[? _]]; [by apply elem_of_nil in Hin|done].
Qed.

Lemma getstate_classes_origin (self : instance) (cs : list klass) (res res' : dict)
    (key : string) :
  getstate_classes self res cs = inr res' →
  ((∃ c, c ∈ cs ∧ persisted_by self c key)
   ∧ res' !! HStr key = Some (default PNone (i_dict self !! key)))
  ∨ ((∀ c, c ∈ cs → ¬ persisted_by self c key)
     ∧ res' !! HStr key = res !! HStr key).
Proof.
  revert res. induction cs as [|c cs IH]; intros res; simpl.
  - intros [= <-]. right. split; [|done]. intros c Hc. by apply elem_of_nil in Hc.
  - unfold mbind, result_bind.
    destruct (getstate_class self res c) as [e|res1] eqn:Hc; [done|].
    intros Hcs. destruct (IH _ Hcs) as [[(c' & Hin & Hp) Hv]|[Hno Hv]].
    + left. split; [|done]. exists c'. split; [by right|done].
    + destruct (getstate_class_origin _ _ _ _ key Hc) as [[Hp Hv1]|[Hnp Hv1]].
      * left. split; [|by rewrite Hv, Hv1]. exists c. split; [left|done].
      * right. split; [|by rewrite Hv, Hv1].
        intros c' Hc'. apply list.elem_of_cons in Hc' as [->|Hc']; [done|by apply Hno].
Qed.

Lemma getstate_head_lookup (x : instance) (key : string) :
  key ≠ "class_tree_versions" → key ≠ "data_producer" → key ≠ "_is_reader" →
  match i_dict x !! "_is_reader" with
  | Some r => <[HStr "_is_reader" := r]> (getstate_head x)
  | None => getstate_head x
  end !! HStr key = None.
Proof.
  intros H1 H2 H3. unfold getstate_head.
  destruct (i_dict x !! "_is_reader"), (default false (i_flag x));
    try destruct (i_dict x !! "data_producer");
    rewrite ?lookup_insert_ne by congruence;
    apply lookup_singleton_ne; congruence.
Qed.

(** X12. Every state that [__getstate__] returns carries the software
    version under [_pyemma_version]: that entry is written last, so not
    even a field or a model parameter of that name replaces it. *)
Theorem getstate_stamps_version (x : instance) (log : list log_record)
    (res : dict) (s : instance * list log_record) :
  getstate version (x, log) = (inr (Some res), s) →
  res !! HStr "_pyemma_version" = Some (PStr version).
Proof.
  intros Hget. apply getstate_inv in Hget as [x' Hbody].
  destruct (getstate_body_inv x x' res Hbody) as (res1 & res2 & state & _ & _ & _ & _ & ->).
  apply lookup_insert_eq.
Qed.

(** X13. The state that [__getstate__] returns holds the manifest of the
    instance under [class_tree_versions], unless a class of the instance
    persists a field or a parameter of that very name. *)
Theorem getstate_holds_manifest (x : instance) (log : list log_record)
    (res : dict) (s : instance * list log_record) :
  getstate version (x, log) = (inr (Some res), s) →
  "class_tree_versions" ∉ declared_names x →
  ¬ model_param x "class_tree_versions" →
  res !! HStr "class_tree_versions" = Some (PDict (class_tree_versions (mro x))).
Proof. apply getstate_stores_manifest. Qed.

(** X14. [__getstate__] does not raise: when the class of the instance
    has no [_serialize_version], or when the flag is set and the instance
    has no attribute [data_producer], it logs the exception
    ([DeveloperError], [AssertionError]) and returns [None]. *)
Theorem getstate_returns_None_on_failure (x : instance) (log : list log_record) :
  (serialize_version (i_class x) = None →
     (getstate version (x, log)).1 = inr None
     ∧ (getstate version (x, log)).2.2
       = log ++ [LogException "exception during pickling" DeveloperError])
  ∧ (is_Some (serialize_version (i_class x)) →
     i_flag x = Some true →
     i_dict x !! "data_producer" = None →
     (getstate version (x, log)).1 = inr None
     ∧ (getstate version (x, log)).2.2
       = log ++ [LogException "exception during pickling" AssertionError]).
Proof.
  split.
  - intros Hv.
    assert (Hbody : getstate_body version x = (inl DeveloperError, x)).
    { unfold getstate_body. unfold mbind at 1. unfold M_bind, get. rewrite Hv.
      rewrite bool_decide_eq_false_2 by (by intros [? ?]). reflexivity. }
    unfold getstate. rewrite Hbody. split; reflexivity.
  - intros Hv Hflag Hp.
    assert (Hbody : getstate_body version x = (inl AssertionError, x)).
    { unfold getstate_body. unfold mbind at 1. unfold M_bind, get.
      rewrite bool_decide_eq_true_2 by done. cbn [negb].
      unfold mbind at 1. unfold M_bind, get_save_data_producer. rewrite Hflag.
      unfold mbind at 1. unfold M_bind. rewrite Hp. reflexivity. }
    unfold getstate. rewrite Hbody. split; reflexivity.
Qed.

Lemma getstate_persists (x : instance) (log : list log_record)
    (res : dict) (s : instance * list log_record) (c : klass) (key : string) :
  getstate version (x, log) = (inr (Some res), s) →
  c ∈ get_classes_to_inspect x →
  persisted_by x c key →
  key ∉ ["_estimated"; "model"; "_pyemma_version"] →
  ¬ model_param x key →
  res !! HStr key = Some (default PNone (i_dict x !! key)).
Proof.
  intros Hget Hc Hp Hkey Hmodel. apply getstate_inv in Hget as [x' Hbody].
  destruct (getstate_body_inv x x' res Hbody)
    as (res1 & res2 & state & Hcs & Hsame & _ & Hstate & ->).
  assert (Hk : key ≠ "_estimated" ∧ key ≠ "model" ∧ key ≠ "_pyemma_version").
  { repeat split; intros ->; apply Hkey; repeat constructor. }
  destruct Hk as (Hk1 & Hk2 & Hk3).
  rewrite lookup_insert_ne by congruence. rewrite lookup_union.
  destruct (state !! HStr key) as [v|] eqn:Hv.
  { destruct Hmodel. apply Hstate. by exists v. }
  rewrite (left_id None _). rewrite Hsame by congruence.
  destruct (getstate_classes_origin _ _ _ _ key Hcs) as [[_ Hres]|[Hno _]]; [done|].
  by destruct (Hno c Hc).
Qed.

(** X15. What a class of the instance persists is in the state: an
    estimator parameter of a [BaseEstimator] class under its name, with
    [None] when the instance has no such attribute, and a field of
    [_serialize_fields] that the instance has, with its value. Only
    [_estimated], [model], [_pyemma_version] and the model parameters are
    written later and may replace the entry. *)
Theorem getstate_persists_fields_and_params (x : instance) (log : list log_record)
    (res : dict) (s : instance * list log_record) (c : klass) (key : string) :
  getstate version (x, log) = (inr (Some res), s) →
  c ∈ get_classes_to_inspect x →
  persisted_by x c key →
  key ∉ ["_estimated"; "model"; "_pyemma_version"] →
  ¬ model_param x key →
  res !! HStr key = Some (default PNone (i_dict x !! key)).
Proof. apply getstate_persists. Qed.

(** X16. The state holds nothing of unknown origin: a string key of the
    state is one of the keys [__getstate__] writes itself, or is persisted
    by a class of the instance, or is a model parameter. In particular a
    declared field that the instance lacks is left out, not stored as
    [None]. *)
Theorem getstate_keys_have_an_origin (x : instance) (log : list log_record)
    (res : dict) (s : instance * list log_record) (key : string) :
  getstate version (x, log) = (inr (Some res), s) →
  is_Some (res !! HStr key) →
  key ∈ getstate_keys
  ∨ (∃ c, c ∈ get_classes_to_inspect x ∧ persisted_by x c key)
  ∨ model_param x key.
Proof.
  intros Hget Hin. apply getstate_inv in Hget as [x' Hbody].
  destruct (getstate_body_inv x x' res Hbody)
    as (res1 & res2 & state & Hcs & Hsame & _ & Hstate & ->).
  destruct (decide (key ∈ getstate_keys)) as [?|Hkey]; [by left|]. right.
  assert (Hk : key ≠ "class_tree_versions" ∧ key ≠ "data_producer"
               ∧ key ≠ "_is_reader" ∧ key ≠ "_estimated" ∧ key ≠ "model"
               ∧ key ≠ "_pyemma_version").
  { repeat split; intros ->; apply Hkey; unfold getstate_keys; repeat constructor. }
  destruct Hk as (Hk1 & Hk2 & Hk3 & Hk4 & Hk5 & Hk6).
  rewrite lookup_insert_ne in Hin by congruence. rewrite lookup_union in Hin.
  destruct (state !! HStr key) as [v|] eqn:Hv.
  { right. apply Hstate. by exists v. }
  rewrite (left_id None _) in Hin. rewrite Hsame in Hin by congruence.
  destruct (getstate_classes_origin _ _ _ _ key Hcs) as [[Hex _]|[_ Hres]];
    [by left|].
  rewrite Hres, getstate_head_lookup in Hin by done. by destruct Hin.
Qed.

End getstate_more.

(** ** Triples *)

Lemma triple_ret {S A} (P : S → Prop) (a : A) (Q : A → S → Prop) E :
  (∀ s, P s → Q a s) → triple P (mret a) Q E.
Proof. intros H s Hs. by apply H. Qed.

Lemma triple_raise {S A} (P : S → Prop) (e : exn) (Q : A → S → Prop)
    (E : exn → S → Prop) :
  (∀ s, P s → E e s) → triple P (raise e) Q E.
Proof. intros H s Hs. by apply H. Qed.

Lemma triple_bind {S A B} (P : S → Prop) (m : M S A) (R : A → S → Prop)
    (f : A → M S B) (Q : B → S → Prop) (E : exn → S → Prop) :
  triple P m R E → (∀ a, triple (R a) (f a) Q E) → triple P (m ≫= f) Q E.
Proof.
  intros Hm Hf s Hs. specialize (Hm s Hs). unfold mbind, M_bind.
  destruct (m s) as [[e|a] s1]; [done|]. by apply Hf.
Qed.

Lemma triple_get {S A} (P : S → Prop) (f : S → M S A) (Q : A → S → Prop)
    (E : exn → S → Prop) :
  (∀ s0, triple (λ s, P s ∧ s = s0) (f s0) Q E) → triple P (get ≫= f) Q E.
Proof. intros Hf s Hs. unfold mbind, M_bind, get. by apply (Hf s). Qed.

Lemma triple_conseq {S A} (P P' : S → Prop) (m : M S A) (Q Q' : A → S → Prop)
    (E E' : exn → S → Prop) :
  triple P' m Q' E' →
  (∀ s, P s → P' s) → (∀ a s, Q' a s → Q a s) → (∀ e s, E' e s → E e s) →
  triple P m Q E.
Proof.
  intros Hm HP HQ HE s Hs. specialize (Hm s (HP s Hs)).
  destruct (m s) as [[e|a] s1]; [by apply HE|by apply HQ].
Qed.

Lemma triple_for_each {S A} (I : S → Prop) (l : list A) (body : A → M S unit)
    (E : exn → S → Prop) :
  (∀ x, x ∈ l → triple I (body x) (λ _, I) E) →
  triple I (for_each l body) (λ _, I) E.
Proof.
  induction l as [|x l IH]; intros Hbody; [by intros s Hs|].
  cbn [for_each]. eapply triple_bind.
  - apply Hbody. left.
  - intros []. apply IH. intros y Hy. apply Hbody. by right.
Qed.

(** A loop whose bodies keep [I] and keep [J], and one of whose bodies
    takes [I] to [J], takes [I] to [J]. *)
Lemma triple_for_each_reach {S A} (I J : S → Prop) (l : list A) (c : A)
    (body : A → M S unit) (E : exn → S → Prop) :
  c ∈ l →
  (∀ x, x ∈ l → triple I (body x) (λ _, I) E) →
  (∀ x, x ∈ l → triple J (body x) (λ _, J) E) →
  triple I (body c) (λ _, J) E →
  triple I (for_each l body) (λ _, J) E.
Proof.
  induction l as [|x l IH]; intros Hc HI HJ Hreach;
    [by apply elem_of_nil in Hc|].
  cbn [for_each]. apply list.elem_of_cons in Hc as [<-|Hc].
  - eapply triple_bind; [exact Hreach|]. intros [].
    apply triple_for_each. intros y Hy. apply HJ. by right.
  - eapply triple_bind; [apply HI; left|]. intros [].
    apply IH; [done| | |done]; intros y Hy; [apply HI|apply HJ]; by right.
Qed.

Lemma elem_of_concat {A} (x : A) (l : list A) (ls : list (list A)) :
  x ∈ l → l ∈ ls → x ∈ concat ls.
Proof.
  intros Hx Hl. induction ls as [|l' ls IH]; [by apply elem_of_nil in Hl|].
  simpl. apply elem_of_app. apply list.elem_of_cons in Hl as [<-|Hl]; [by left|].
  right. by apply IH.
Qed.

(** ** Invariants of [__setstate__] *)

Section frame_invariants.
Variable old_handled_by : klass → list string.
Variable py_call : nat → pyval → result pyval.

(** An invariant [Inv] that depends on the state only through the keys
    [watched], on the attributes only through those that are not
    [attr_free], and not on the log. *)
Variable Inv : frame → Prop.
Variable watched : hkey → Prop.
Variable attr_free : string → Prop.
Variable E : exn → frame → Prop.
Hypothesis Inv_state : ∀ fr st,
  (∀ k, watched k → st !! k = f_state fr !! k) → Inv fr → Inv (with_state st fr).
Hypothesis Inv_attr : ∀ fr name v,
  attr_free name →
  Inv fr →
  Inv {| f_self := with_dict (insert name v) (f_self fr);
         f_state := f_state fr; f_log := f_log fr |}.
Hypothesis Inv_E : ∀ e fr, Inv fr → E e fr.

Lemma on_state_inv {A} (m : M dict A) :
  (∀ st k, watched k → (m st).2 !! k = st !! k) →
  triple Inv (on_state m) (λ _, Inv) E.
Proof.
  intros Hm fr Hfr. unfold on_state, zoom.
  pose proof (Inv_state fr (m (f_state fr)).2 (Hm (f_state fr)) Hfr) as H.
  destruct (m (f_state fr)) as [[e|a] st']; [by apply Inv_E|done].
Qed.

Lemma setattr_inv (name : string) (v : pyval) :
  attr_free name → triple Inv (setattr name v) (λ _, Inv) E.
Proof. intros Hname fr Hfr. by apply Inv_attr. Qed.

Lemma restore_attr_inv (name : string) :
  attr_free name → ¬ watched (HStr name) →
  triple Inv (restore_attr name) (λ _, Inv) E.
Proof.
  intros Hname Hw. unfold restore_attr. apply triple_get. intros fr.
  destruct (f_state fr !! HStr name); [|by apply triple_ret; intros ? [? _]].
  eapply triple_bind.
  - eapply triple_conseq; [apply (on_state_inv (pop (PStr name)))| | |];
      [|by intros ? [? _]|done..].
    intros st k Hk. apply pop_keeps. simpl. congruence.
  - intros v. by apply setattr_inv.
Qed.

Lemma pop_model_params_keeps (names : list string) (new_state st : dict) (k : hkey) :
  k ∉ HStr <$> names →
  (pop_model_params names new_state st).2 !! k = st !! k.
Proof.
  revert new_state st. induction names as [|name names IH]; intros new_state st Hk;
    [done|].
  rewrite fmap_cons in Hk. apply not_elem_of_cons in Hk as [Hne Hk].
  cbn [pop_model_params]. unfold mbind at 1. unfold M_bind, get.
  destruct (st !! HStr name) as [v|] eqn:Hv; [|by apply IH].
  unfold mbind, M_bind, pop. simpl. rewrite Hv.
  rewrite IH by done. by apply lookup_delete_ne.
Qed.

Lemma class_step_inv (c : klass) :
  (∀ k, watched k → untouched c k) →
  (∀ name, name ∈ restored_names c → attr_free name ∧ ¬ watched (HStr name)) →
  triple Inv (set_state_from_serializeable_fields_and_state old_handled_by py_call c)
    (λ _, Inv) E.
Proof.
  intros Hun Hnames. unfold set_state_from_serializeable_fields_and_state.
  eapply triple_bind.
  { apply on_state_inv. intros st k Hk. apply interpolate_keeps. by apply Hun. }
  intros []. eapply triple_bind.
  { instantiate (1 := λ _, Inv).
    destruct (get_param_names c) as [params|] eqn:Hparams;
      [|by apply triple_ret].
    apply triple_for_each. intros name Hname.
    destruct (Hnames name) as [Ha Hw].
    { unfold restored_names. rewrite Hparams. apply elem_of_app. by left. }
    by apply restore_attr_inv. }
  intros []. destruct (serialize_fields c) as [fields|] eqn:Hfields;
    [|by apply triple_raise; intros; apply Inv_E].
  apply triple_for_each. intros name Hname.
  destruct (Hnames name) as [Ha Hw].
  { unfold restored_names. rewrite Hfields. apply elem_of_app. by right. }
  by apply restore_attr_inv.
Qed.

(** The statements of [__setstate__] before the loop over the classes. *)
Lemma estimator_block_inv (b : bool) :
  (b = true → attr_free "_estimated" ∧ attr_free "_model"
              ∧ ¬ watched (HStr "_estimated") ∧ ¬ watched (HStr "model")) →
  triple Inv
    (if b
     then
       e ← on_state (pop (PStr "_estimated"));
       setattr "_estimated" e ;;
       model ← on_state (pop_default (PStr "model") PNone);
       setattr "_model" model
     else mret ())
    (λ _, Inv) E.
Proof.
  intros Hb. destruct b; [|by apply triple_ret].
  destruct (Hb eq_refl) as (Ha1 & Ha2 & Hw1 & Hw2).
  eapply triple_bind.
  { apply on_state_inv. intros st k Hk. apply pop_keeps. simpl. congruence. }
  intros e. eapply triple_bind; [by apply setattr_inv|].
  intros []. eapply triple_bind.
  { apply on_state_inv. intros st k Hk. apply pop_default_keeps. simpl. congruence. }
  intros model. by apply setattr_inv.
Qed.

(** The statements of [__setstate__] after the model parameters. *)
Lemma tail_inv :
  attr_free "data_producer" → attr_free "_is_reader" → attr_free "_pyemma_version" →
  ¬ watched (HStr "_is_reader") → ¬ watched (HStr "_pyemma_version") →
  ¬ watched (HStr "class_tree_versions") →
  triple Inv
    (fr ← get;
     match i_dict (f_self fr) !! "data_producer", f_state fr !! HStr "data_producer" with
     | Some _, Some producer => setattr "data_producer" producer
     | _, _ => mret ()
     end ;;
     restore_attr "_is_reader" ;;
     v ← on_state (pop_default (PStr "_pyemma_version") (PStr "!!!! UNKNOWN !!!!"));
     setattr "_pyemma_version" v ;;
     on_state (pop (PStr "class_tree_versions")) ;;
     mret ())
    (λ _, Inv) E.
Proof.
  intros Ha1 Ha2 Ha3 Hw1 Hw2 Hw3. apply triple_get. intros fr.
  eapply triple_bind.
  { instantiate (1 := λ _, Inv).
    destruct (i_dict (f_self fr) !! "data_producer");
      [|by apply triple_ret; intros ? [? _]].
    destruct (f_state fr !! HStr "data_producer");
      [|by apply triple_ret; intros ? [? _]].
    eapply triple_conseq; [by apply setattr_inv|by intros ? [? _]|done..]. }
  intros []. eapply triple_bind; [by apply restore_attr_inv|].
  intros []. eapply triple_bind.
  { apply on_state_inv. intros st k Hk. apply pop_default_keeps. simpl. congruence. }
  intros v. eapply triple_bind; [by apply setattr_inv|].
  intros []. eapply triple_bind.
  { apply on_state_inv. intros st k Hk. apply pop_keeps. simpl. congruence. }
  intros ?. by apply triple_ret.
Qed.

(** The model parameters. *)
Lemma model_block_inv (setter : option (dict → gmap string pyval → result (gmap string pyval)))
    (names : option (list string)) :
  (∀ f l, setter = Some f → names = Some l →
     (∀ name, name ∈ l → ¬ watched (HStr name))
     ∧ (∀ fr attrs, Inv fr → Inv (with_attrs attrs fr))) →
  triple Inv
    match setter, names with
    | Some setter, Some names =>
        new_state ← on_state (pop_model_params names ∅);
        fr ← get;
        attrs ← lift (setter new_state (i_dict (f_self fr)));
        put {| f_self := with_dict (λ _, attrs) (f_self fr);
               f_state := f_state fr; f_log := f_log fr |}
    | _, _ => mret ()
    end
    (λ _, Inv) E.
Proof.
  intros Hm. destruct setter as [f|]; [|by apply triple_ret].
  destruct names as [l|]; [|by apply triple_ret].
  destruct (Hm f l eq_refl eq_refl) as [Hw Hattrs].
  eapply triple_bind.
  { apply on_state_inv. intros st k Hk. apply pop_model_params_keeps.
    intros Hin. apply list_elem_of_fmap in Hin as (name & -> & Hin).
    by apply (Hw name). }
  intros new_state. apply triple_get. intros fr s [Hs ->].
  unfold mbind, M_bind, lift.
  destruct (f new_state (i_dict (f_self fr))) as [e|attrs]; [by apply Inv_E|].
  by apply Hattrs.
Qed.

End frame_invariants.

Section setstate_more.
Variable old_handled_by : klass → list string.
Variable py_call : nat → pyval → result pyval.

(** [setstate_restore] composes its four parts. *)
Lemma setstate_restore_triple (P Q : frame → Prop) (E : exn → frame → Prop)
    (fr0 : frame) :
  let self := f_self fr0 in
  triple P
    (if has_set_params (i_class self)
        && bool_decide (is_Some (get_param_names (i_class self)))
     then
       e ← on_state (pop (PStr "_estimated"));
       setattr "_estimated" e ;;
       model ← on_state (pop_default (PStr "model") PNone);
       setattr "_model" model
     else mret ())
    (λ _, P) E →
  triple P
    (for_each (get_classes_to_inspect self)
       (set_state_from_serializeable_fields_and_state old_handled_by py_call))
    (λ _, Q) E →
  triple Q
    match set_model_params (i_class self), get_model_param_names (i_class self) with
    | Some setter, Some names =>
        new_state ← on_state (pop_model_params names ∅);
        fr ← get;
        attrs ← lift (setter new_state (i_dict (f_self fr)));
        put {| f_self := with_dict (λ _, attrs) (f_self fr);
               f_state := f_state fr; f_log := f_log fr |}
    | _, _ => mret ()
    end
    (λ _, Q) E →
  triple Q
    (fr ← get;
     match i_dict (f_self fr) !! "data_producer", f_state fr !! HStr "data_producer" with
     | Some _, Some producer => setattr "data_producer" producer
     | _, _ => mret ()
     end ;;
     restore_attr "_is_reader" ;;
     v ← on_state (pop_default (PStr "_pyemma_version") (PStr "!!!! UNKNOWN !!!!"));
     setattr "_pyemma_version" v ;;
     on_state (pop (PStr "class_tree_versions")) ;;
     mret ())
    (λ _, Q) E →
  P fr0 →
  match setstate_restore old_handled_by py_call fr0 with
  | (inr _, fr') => Q fr'
  | (inl e, fr') => E e fr'
  end.
Proof.
  intros self H1 H2 H3 H4 HP.
  unfold setstate_restore. unfold mbind at 1. unfold M_bind, get.
  refine ((_ : triple P _ (λ _, Q) E) fr0 HP).
  eapply triple_bind; [exact H1|]. intros [].
  eapply triple_bind; [exact H2|]. intros [].
  eapply triple_bind; [exact H3|]. intros [].
  exact H4.
Qed.

(** [__setstate__] writes to the log in its handlers only. *)
Lemma setstate_restore_log (fr : frame) :
  f_log (setstate_restore old_handled_by py_call fr).2 = f_log fr.
Proof.
  set (L := λ fr' : frame, f_log fr' = f_log fr).
  assert (HL : match setstate_restore old_handled_by py_call fr with
               | (inr _, fr') => L fr'
               | (inl e, fr') => (λ _, L) e fr'
               end).
  { apply setstate_restore_triple with (P := L); [| | | |done].
    - apply (estimator_block_inv L (λ _, False) (λ _, True)); try done.
      intros _. repeat split; tauto.
    - apply triple_for_each. intros c _.
      apply (class_step_inv _ _ L (λ _, False) (λ _, True)); try done.
      intros name _. split; tauto.
    - apply (model_block_inv L (λ _, False)); try done.
      intros f l _ _. split; [tauto|done].
    - apply (tail_inv L (λ _, False) (λ _, True)); try done; tauto. }
  by destruct (setstate_restore old_handled_by py_call fr) as [[e|[]] fr'].
Qed.

Lemma setstate_restore_kept (fr : frame) (k : hkey) :
  (∀ name, name ∈ consumed_keys (f_self fr) → k ≠ HStr name) →
  (∀ c, c ∈ get_classes_to_inspect (f_self fr) → untouched c k) →
  kept k fr (setstate_restore old_handled_by py_call fr).2.
Proof.
  intros Hcons Hun.
  set (K := kept k fr).
  assert (Hstate : ∀ fr' st, (∀ k', k' = k → st !! k' = f_state fr' !! k') →
                             K fr' → K (with_state st fr')).
  { intros fr' st Hst [H1 H2]. split; [|done]. simpl. rewrite <- H1. by apply Hst. }
  assert (Hname : ∀ name, name ∈ consumed_keys (f_self fr) → HStr name ≠ k).
  { intros name Hin Heq. by apply (Hcons name). }
  assert (HK : match setstate_restore old_handled_by py_call fr with
               | (inr _, fr') => K fr'
               | (inl e, fr') => (λ _, K) e fr'
               end).
  { apply setstate_restore_triple with (P := K); [| | | |done].
    - apply (estimator_block_inv K (λ k', k' = k) (λ _, True)); try done.
      intros _. repeat split; try done; apply Hname; unfold consumed_keys;
        repeat constructor.
    - apply triple_for_each. intros c Hc.
      apply (class_step_inv _ _ K (λ k', k' = k) (λ _, True)); try done.
      + intros k' ->. by apply Hun.
      + intros name Hin. split; [done|]. apply Hname. unfold consumed_keys.
        do 2 right. apply elem_of_app. left.
        apply (elem_of_concat _ (restored_names c)); [done|].
        apply list_elem_of_fmap. by exists c.
    - apply (model_block_inv K (λ k', k' = k)); try done.
      intros f l _ Hl. split; [|done]. intros name Hin. apply Hname.
      unfold consumed_keys. do 2 right. apply elem_of_app. right.
      apply elem_of_app. left. by rewrite Hl.
    - apply (tail_inv K (λ k', k' = k) (λ _, True)); try done; apply Hname;
        unfold consumed_keys; do 2 right;
        apply elem_of_app; right; apply elem_of_app; right; repeat constructor. }
  by destruct (setstate_restore old_handled_by py_call fr) as [[e|[]] fr'].
Qed.

Lemma setstate_cases (fr : frame) :
  f_state fr ≠ ∅ →
  match setstate_restore old_handled_by py_call fr with
  | (inr _, fr') =>
      setstate old_handled_by py_call fr
      = if bool_decide (f_state fr' = ∅) then (inr (), fr')
        else (inr (), logged fr' (LogError "left-overs after setstate: %s" (f_state fr')))
  | (inl e, fr') =>
      setstate old_handled_by py_call fr
      = (inr (), logged fr'
                   match e with
                   | AssertionError =>
                       LogError "left-overs after setstate: %s" (f_state fr')
                   | _ => LogException "exception during pickling" e
                   end)
  end.
Proof.
  intros Hne.
  destruct (setstate_restore old_handled_by py_call fr) as [[e|[]] fr'] eqn:Hr;
    unfold setstate, try_except, setstate_body;
    unfold mbind at 1; unfold M_bind at 1; unfold get at 1;
    rewrite bool_decide_eq_false_2 by done;
    unfold mbind at 1; unfold M_bind at 1; rewrite Hr.
  - by destruct e.
  - unfold mbind at 1. unfold M_bind, get.
    by destruct (bool_decide (f_state fr' = ∅)).
Qed.

(** X17. A key of the state that [__setstate__] does not take out is
    reported and never dropped silently: when the state holds a key that no
    action of an interpolation map names and that is neither a field, a
    parameter nor a model parameter of the class, [__setstate__] appends
    exactly one record to the log, the left-over state with that key or an
    exception, and returns. This is what happens to [data_producer], which
    is read from the state and not removed. *)
Theorem setstate_reports_unconsumed_key (fr : frame) (k : hkey) :
  is_Some (f_state fr !! k) →
  (∀ name, name ∈ consumed_keys (f_self fr) → k ≠ HStr name) →
  (∀ c, c ∈ get_classes_to_inspect (f_self fr) → untouched c k) →
  ∃ r fr',
    setstate old_handled_by py_call fr = (inr (), logged fr' r)
    ∧ f_log fr' = f_log fr
    ∧ f_state fr' !! k = f_state fr !! k
    ∧ (r = LogError "left-overs after setstate: %s" (f_state fr')
       ∨ ∃ e, r = LogException "exception during pickling" e).
Proof.
  intros Hin Hcons Hun.
  destruct (setstate_restore_kept fr k Hcons Hun) as [Hk Hlog].
  assert (Hne : f_state fr ≠ ∅).
  { intros Hempty. rewrite Hempty, lookup_empty in Hin. by destruct Hin. }
  unfold setstate, try_except, setstate_body.
  unfold mbind at 1. unfold M_bind, get.
  rewrite bool_decide_eq_false_2 by done.
  unfold mbind at 1. unfold M_bind.
  destruct (setstate_restore old_handled_by py_call fr) as [[e|[]] fr'];
    simpl in Hk, Hlog.
  - destruct (decide (e = AssertionError)) as [->|He].
    + exists (LogError "left-overs after setstate: %s" (f_state fr')), fr'.
      repeat split; try done. by left.
    + exists (LogException "exception during pickling" e), fr'.
      split; [by destruct e|]. repeat split; try done. right. by exists e.
  - unfold mbind at 1. unfold M_bind.
    assert (Hne' : f_state fr' ≠ ∅).
    { intros Hempty. rewrite Hempty, lookup_empty in Hk. rewrite <- Hk in Hin.
      by destruct Hin. }
    rewrite bool_decide_eq_false_2 by done.
    exists (LogError "left-overs after setstate: %s" (f_state fr')), fr'.
    repeat split; try done. by left.
Qed.

(** *** Restoring an attribute *)

Lemma restored_state (key : string) (v : pyval) (fr : frame) (st : dict) :
  (∀ k, k = HStr key → st !! k = f_state fr !! k) →
  restored key v fr → restored key v (with_state st fr).
Proof. intros Hst [H1 H2]. split; [|done]. simpl. rewrite <- H1. by apply Hst. Qed.

Lemma restored_attr (key : string) (v : pyval) (fr : frame) (name : string)
    (w : pyval) :
  name ≠ key →
  restored key v fr →
  restored key v {| f_self := with_dict (insert name w) (f_self fr);
                    f_state := f_state fr; f_log := f_log fr |}.
Proof. intros Hne [H1 H2]. split; [done|]. simpl. by rewrite lookup_insert_ne. Qed.

Lemma pending_state (key : string) (v : pyval) (fr : frame) (st : dict) :
  (∀ k, k = HStr key → st !! k = f_state fr !! k) →
  pending key v fr → pending key v (with_state st fr).
Proof.
  intros Hst [H|H]; [left|right; by apply restored_state].
  simpl. rewrite <- H. by apply Hst.
Qed.

Lemma pending_attr (key : string) (v : pyval) (fr : frame) (name : string)
    (w : pyval) :
  name ≠ key →
  pending key v fr →
  pending key v {| f_self := with_dict (insert name w) (f_self fr);
                   f_state := f_state fr; f_log := f_log fr |}.
Proof. intros Hne [H|H]; [by left|right; by apply restored_attr]. Qed.

Lemma restore_attr_reach (key : string) (v : pyval) :
  triple (pending key v) (restore_attr key) (λ _, restored key v) (λ _ _, True).
Proof.
  intros fr [Hst|[Hst Hattr]]; unfold restore_attr, mbind, M_bind, get;
    rewrite Hst; [|done].
  unfold on_state, zoom, pop. simpl. rewrite Hst. simpl. split.
  - apply lookup_delete_eq.
  - apply lookup_insert_eq.
Qed.

Lemma restore_attr_restored (key : string) (v : pyval) (name : string) :
  triple (restored key v) (restore_attr name) (λ _, restored key v) (λ _ _, True).
Proof.
  destruct (decide (name = key)) as [->|Hne].
  - intros fr [Hst Hattr]. unfold restore_attr, mbind, M_bind, get. by rewrite Hst.
  - apply (restore_attr_inv (restored key v) (λ k, k = HStr key) (λ n, n ≠ key));
      try done.
    + apply restored_state.
    + intros fr n w. apply restored_attr.
    + congruence.
Qed.

Lemma restore_attr_pending (key : string) (v : pyval) (name : string) :
  triple (pending key v) (restore_attr name) (λ _, pending key v) (λ _ _, True).
Proof.
  destruct (decide (name = key)) as [->|Hne].
  - eapply triple_conseq; [apply restore_attr_reach|done| |done].
    intros ? fr H. by right.
  - apply (restore_attr_inv (pending key v) (λ k, k = HStr key) (λ n, n ≠ key));
      try done.
    + apply pending_state.
    + intros fr n w. apply pending_attr.
    + congruence.
Qed.

Lemma restore_loop_reach (key : string) (v : pyval) (names : list string) :
  key ∈ names →
  triple (pending key v) (for_each names restore_attr) (λ _, restored key v)
    (λ _ _, True).
Proof.
  intros Hin. apply (triple_for_each_reach _ _ _ key); [done| | |].
  - intros name _. apply restore_attr_pending.
  - intros name _. apply restore_attr_restored.
  - apply restore_attr_reach.
Qed.

Lemma class_step_keeps (Inv : frame → Prop) (key : string) (c : klass) :
  (∀ fr st, (∀ k, k = HStr key → st !! k = f_state fr !! k) →
            Inv fr → Inv (with_state st fr)) →
  (∀ name, triple Inv (restore_attr name) (λ _, Inv) (λ _ _, True)) →
  untouched c (HStr key) →
  triple Inv (set_state_from_serializeable_fields_and_state old_handled_by py_call c)
    (λ _, Inv) (λ _ _, True).
Proof.
  intros Hstate Hrestore Hun. unfold set_state_from_serializeable_fields_and_state.
  eapply triple_bind.
  { instantiate (1 := λ _, Inv). intros fr Hfr. unfold on_state, zoom.
    pose proof (interpolate_keeps old_handled_by py_call c (f_state fr) _ Hun) as Hk.
    destruct (interpolate old_handled_by py_call c (f_state fr)) as [[e|[]] st'];
      [done|].
    apply Hstate; [|done]. by intros k ->. }
  intros []. eapply triple_bind.
  { instantiate (1 := λ _, Inv).
    destruct (get_param_names c); [|by apply triple_ret].
    apply triple_for_each. intros name _. apply Hrestore. }
  intros []. destruct (serialize_fields c); [|by apply triple_raise].
  apply triple_for_each. intros name _. apply Hrestore.
Qed.

Lemma class_step_reach (key : string) (v : pyval) (c : klass) :
  untouched c (HStr key) →
  key ∈ restored_names c →
  triple (pending key v)
    (set_state_from_serializeable_fields_and_state old_handled_by py_call c)
    (λ _, restored key v) (λ _ _, True).
Proof.
  intros Hun Hin. unfold set_state_from_serializeable_fields_and_state.
  eapply triple_bind.
  { instantiate (1 := λ _, pending key v). intros fr Hfr. unfold on_state, zoom.
    pose proof (interpolate_keeps old_handled_by py_call c (f_state fr) _ Hun) as Hk.
    destruct (interpolate old_handled_by py_call c (f_state fr)) as [[e|[]] st'];
      [done|].
    apply pending_state; [|done]. by intros k ->. }
  intros []. unfold restored_names in Hin. apply elem_of_app in Hin as [Hin|Hin].
  - destruct (get_param_names c) as [params|]; [|by apply elem_of_nil in Hin].
    eapply triple_bind; [by apply restore_loop_reach|].
    intros []. destruct (serialize_fields c); [|by apply triple_raise].
    apply triple_for_each. intros name _. apply restore_attr_restored.
  - destruct (serialize_fields c) as [fields|]; [|by apply elem_of_nil in Hin].
    eapply triple_bind.
    { instantiate (1 := λ _, pending key v).
      destruct (get_param_names c); [|by apply triple_ret].
      apply triple_for_each. intros name _. apply restore_attr_pending. }
    intros []. by apply restore_loop_reach.
Qed.

(** The names that [__setstate__] uses for itself. *)
Lemma setstate_restore_reach (fr : frame) (key : string) (v : pyval) (c : klass) :
  f_state fr !! HStr key = Some v →
  c ∈ get_classes_to_inspect (f_self fr) →
  key ∈ restored_names c →
  (∀ c', c' ∈ get_classes_to_inspect (f_self fr) → untouched c' (HStr key)) →
  key ∉ ["_estimated"; "model"; "_model"; "data_producer"; "_is_reader";
         "_pyemma_version"; "class_tree_versions"] →
  set_model_params (i_class (f_self fr)) = None
  ∨ get_model_param_names (i_class (f_self fr)) = None →
  match setstate_restore old_handled_by py_call fr with
  | (inr _, fr') => restored key v fr'
  | (inl _, _) => True
  end.
Proof.
  intros Hst Hc Hin Hun Hkey Hmodel.
  assert (Hk : key ≠ "_estimated" ∧ key ≠ "model" ∧ key ≠ "_model"
               ∧ key ≠ "data_producer" ∧ key ≠ "_is_reader"
               ∧ key ≠ "_pyemma_version" ∧ key ≠ "class_tree_versions").
  { repeat split; intros ->; apply Hkey; repeat constructor. }
  destruct Hk as (Hk1 & Hk2 & Hk3 & Hk4 & Hk5 & Hk6 & Hk7).
  apply setstate_restore_triple
    with (P := pending key v) (Q := restored key v) (E := λ _ _, True);
    [| | | |by left].
  - apply (estimator_block_inv (pending key v) (λ k, k = HStr key) (λ n, n ≠ key));
      try done.
    + apply pending_state.
    + intros fr' n w. apply pending_attr.
    + intros _. repeat split; congruence.
  - apply (triple_for_each_reach _ _ _ c); [done| | |].
    + intros c' Hc'. apply (class_step_keeps _ key).
      * apply pending_state.
      * apply restore_attr_pending.
      * by apply Hun.
    + intros c' Hc'. apply (class_step_keeps _ key).
      * apply restored_state.
      * apply restore_attr_restored.
      * by apply Hun.
    + apply class_step_reach; [by apply Hun|done].
  - apply (model_block_inv (restored key v) (λ k, k = HStr key)); try done.
    + apply restored_state.
    + intros f l Hf Hl. destruct Hmodel; congruence.
  - apply (tail_inv (restored key v) (λ k, k = HStr key) (λ n, n ≠ key));
      try done; try congruence.
    + apply restored_state.
    + intros fr' n w. apply restored_attr.
Qed.

Lemma setstate_restores (fr : frame) (key : string) (v : pyval)
    (c : klass) :
  f_state fr !! HStr key = Some v →
  c ∈ get_classes_to_inspect (f_self fr) →
  key ∈ restored_names c →
  (∀ c', c' ∈ get_classes_to_inspect (f_self fr) → untouched c' (HStr key)) →
  key ∉ ["_estimated"; "model"; "_model"; "data_producer"; "_is_reader";
         "_pyemma_version"; "class_tree_versions"] →
  set_model_params (i_class (f_self fr)) = None
  ∨ get_model_param_names (i_class (f_self fr)) = None →
  f_log (setstate old_handled_by py_call fr).2 = f_log fr →
  i_dict (f_self (setstate old_handled_by py_call fr).2) !! key = Some v.
Proof.
  intros Hst Hc Hin Hun Hkey Hmodel.
  pose proof (setstate_restore_reach fr key v c Hst Hc Hin Hun Hkey Hmodel) as Hreach.
  pose proof (setstate_restore_log fr) as Hlog.
  assert (Hne : f_state fr ≠ ∅).
  { intros Hempty. by rewrite Hempty, lookup_empty in Hst. }
  pose proof (setstate_cases fr Hne) as Hcases.
  destruct (setstate_restore old_handled_by py_call fr) as [[e|[]] fr'];
    simpl in Hlog; rewrite Hcases.
  - simpl. rewrite Hlog. intros Habs.
    apply (f_equal length) in Habs. rewrite length_app in Habs. simpl in Habs. lia.
  - destruct (bool_decide (f_state fr' = ∅)).
    + intros _. apply Hreach.
    + simpl. rewrite Hlog. intros Habs.
      apply (f_equal length) in Habs. rewrite length_app in Habs. simpl in Habs. lia.
Qed.

(** X18. When [__setstate__] logs nothing, it has restored the
    attributes: a key of the state that is a parameter or a field of a class
    of the instance, and that no action of an interpolation map names, is an
    attribute of the instance with the value the state had. *)
Theorem setstate_restores_attribute (fr : frame) (key : string) (v : pyval)
    (c : klass) :
  f_state fr !! HStr key = Some v →
  c ∈ get_classes_to_inspect (f_self fr) →
  key ∈ restored_names c →
  (∀ c', c' ∈ get_classes_to_inspect (f_self fr) → untouched c' (HStr key)) →
  key ∉ ["_estimated"; "model"; "_model"; "data_producer"; "_is_reader";
         "_pyemma_version"; "class_tree_versions"] →
  set_model_params (i_class (f_self fr)) = None
  ∨ get_model_param_names (i_class (f_self fr)) = None →
  f_log (setstate old_handled_by py_call fr).2 = f_log fr →
  i_dict (f_self (setstate old_handled_by py_call fr).2) !! key = Some v.
Proof. apply setstate_restores. Qed.


(** X30. An empty state fails the first assertion of [__setstate__]:
    nothing is restored, not even [_pyemma_version]; the method logs the
    empty state as left-overs and returns. *)
Theorem setstate_of_empty_state (fr : frame) :
  f_state fr = ∅ →
  setstate old_handled_by py_call fr
  = (inr (), logged fr (LogError "left-overs after setstate: %s" ∅)).
Proof.
  intros Hempty. unfold setstate, try_except, setstate_body.
  unfold mbind at 1. unfold M_bind, get.
  rewrite bool_decide_eq_true_2 by done. unfold raise.
  unfold mbind, M_bind, get, log_append, modify, logged. by rewrite Hempty.
Qed.

End setstate_more.

(** ** The setter along the chain *)

Lemma chain_ends_is_Some (h : heap) (self n : nat) :
  chain_ends h self n → is_Some (h !! self).
Proof. intros [self' H _|self' producer p n' H _ _]; [done|by eapply forward_target_is_Some]. Qed.

Lemma set_save_data_producer_chain_ends (h : heap) (self n fuel : nat) :
  chain_ends h self n → (n < fuel)%nat →
  (set_save_data_producer fuel self true h).1 = inr ().
Proof.
  intros Hc. revert fuel.
  assert (Hgen : ∀ h' fuel, same_shape h h' → (n < fuel)%nat →
            (set_save_data_producer fuel self true h').1 = inr ());
    [|intros fuel; by apply Hgen].
  induction Hc as [self [x Hx] Hf|self producer p n Hf Hp Hc IH];
    intros h' fuel Hs Hfuel; (destruct fuel as [|fuel]; [lia|]).
  - cbn [set_save_data_producer]. unfold mbind at 1. unfold M_bind.
    rewrite with_object_set_flag.
    destruct (same_shape_is_Some h h' self Hs (ex_intro _ x Hx)) as [x' Hx'].
    rewrite Hx'.
    assert (Hs' : same_shape h (<[self := with_flag true x']> h')).
    { etrans; [exact Hs|]. by apply (same_shape_insert _ _ x'). }
    unfold mbind at 1. unfold M_bind, get.
    by rewrite <- (forward_target_shape _ _ self Hs'), Hf.
  - cbn [set_save_data_producer]. unfold mbind at 1. unfold M_bind.
    rewrite with_object_set_flag.
    destruct (same_shape_is_Some h h' self Hs (forward_target_is_Some _ _ _ Hf))
      as [x' Hx'].
    rewrite Hx'.
    assert (Hs' : same_shape h (<[self := with_flag true x']> h')).
    { etrans; [exact Hs|]. by apply (same_shape_insert _ _ x'). }
    unfold mbind at 1. unfold M_bind, get.
    rewrite <- (forward_target_shape _ _ self Hs'), Hf.
    rewrite <- (serializable_producer_shape _ _ producer Hs'), Hp.
    apply IH; [done|lia].
Qed.

(** X20. On a chain that ends after [n] serializable producers, setting
    the flag to [True] with a recursion limit above [n] returns, and then
    the flag is set on every object of the chain; the classes, ancestries
    and attributes of all objects are what they were. *)
Theorem setter_sets_flag_along_chain (h : heap) (self n fuel : nat) :
  chain_ends h self n → (n < fuel)%nat →
  (set_save_data_producer fuel self true h).1 = inr ()
  ∧ (∀ y, on_chain h self y →
       flag_of (set_save_data_producer fuel self true h).2 y = Some true)
  ∧ same_shape h (set_save_data_producer fuel self true h).2.
Proof.
  intros Hc Hfuel.
  pose proof (set_save_data_producer_chain_ends h self n fuel Hc Hfuel) as Hr.
  split; [done|]. split; [|apply set_save_data_producer_shape].
  intros y Hy.
  destruct (set_save_data_producer fuel self true h) as [r h'] eqn:Hset.
  simpl in Hr. subst r. by apply (set_save_data_producer_on_chain h h' self y fuel).
Qed.

(** X21. On a chain that does not end, such as two objects that are each
    other's producer, setting the flag to [True] exhausts the recursion
    limit, whatever the limit: the setter stops only at an object that is
    its own producer. *)
Theorem setter_on_endless_chain_exhausts_recursion (h : heap) (P : nat → Prop)
    (self fuel : nat) :
  never_ends h P → P self →
  (set_save_data_producer fuel self true h).1 = inl RecursionError.
Proof.
  intros Hnever. revert self h Hnever.
  induction fuel as [|fuel IH]; intros self h Hnever Hself; [done|].
  destruct (Hnever self Hself) as (producer & p & Hf & Hp & HPp).
  cbn [set_save_data_producer]. unfold mbind at 1. unfold M_bind.
  rewrite with_object_set_flag.
  destruct (forward_target_is_Some _ _ _ Hf) as [x Hx]. rewrite Hx.
  assert (Hs : same_shape h (<[self := with_flag true x]> h))
    by by apply (same_shape_insert _ _ x).
  unfold mbind at 1. unfold M_bind, get.
  rewrite <- (forward_target_shape _ _ self Hs), Hf.
  rewrite <- (serializable_producer_shape _ _ producer Hs), Hp.
  apply IH; [|done].
  intros o Ho. destruct (Hnever o Ho) as (producer' & p' & Hf' & Hp' & HP').
  exists producer', p'.
  by rewrite <- (forward_target_shape _ _ o Hs),
             <- (serializable_producer_shape _ _ producer' Hs).
Qed.

(** Setting the flag to [False] writes the flag of the object and stops. *)
Lemma set_save_data_producer_false (fuel : nat) (self : nat) (h : heap)
    (x : instance) :
  h !! self = Some x →
  set_save_data_producer (S fuel) self false h
  = (inr (), <[self := with_flag false x]> h).
Proof.
  intros Hx. cbn [set_save_data_producer]. unfold mbind at 1. unfold M_bind.
  rewrite with_object_set_flag, Hx. done.
Qed.

Lemma with_object_get_flag_set (h : heap) (obj : nat) (x : instance) (b : bool) :
  h !! obj = Some x → i_flag x = Some b →
  with_object obj get_save_data_producer h = (inr b, h).
Proof.
  intros Hx Hb. unfold with_object, get_save_data_producer. rewrite Hx, Hb.
  by rewrite insert_id.
Qed.

Lemma flag_of_with_flag (h : heap) (o o' : nat) (x : instance) (b : bool) :
  flag_of (<[o := with_flag b x]> h) o'
  = if decide (o = o') then Some b else flag_of h o'.
Proof.
  unfold flag_of. destruct (decide (o = o')) as [<-|Hne].
  - by rewrite lookup_insert_eq.
  - by rewrite lookup_insert_ne.
Qed.

Lemma set_save_data_producer_keeps_flag (fuel : nat) (p : nat) (v : bool) (h : heap)
    (o : nat) (x : instance) :
  h !! o = Some x → i_flag x = Some v →
  ∃ x', (set_save_data_producer fuel p v h).2 !! o = Some x' ∧ i_flag x' = Some v.
Proof.
  revert p h x. induction fuel as [|fuel IH]; intros p h x Hx Hv; [by exists x|].
  cbn [set_save_data_producer]. unfold mbind at 1. unfold M_bind.
  rewrite with_object_set_flag.
  destruct (h !! p) as [xp|] eqn:Hp; [|by exists x].
  assert (Ho : ∃ x1, <[p := with_flag v xp]> h !! o = Some x1 ∧ i_flag x1 = Some v).
  { destruct (decide (p = o)) as [<-|Hne].
    - exists (with_flag v xp). by rewrite lookup_insert_eq.
    - exists x. by rewrite lookup_insert_ne. }
  destruct Ho as (x1 & Hx1 & Hv1).
  unfold mbind at 1. unfold M_bind, get.
  destruct (if v then forward_target _ p else None) as [producer|]; [|by exists x1].
  destruct (serializable_producer _ producer) as [p'|]; [|by exists x1].
  by apply (IH _ _ x1).
Qed.

Lemma set_save_data_producer_own_flag (fuel : nat) (self : nat) (v : bool)
    (h : heap) :
  is_Some (h !! self) →
  ∃ x', (set_save_data_producer (S fuel) self v h).2 !! self = Some x'
        ∧ i_flag x' = Some v.
Proof.
  intros [x Hx]. cbn [set_save_data_producer]. unfold mbind at 1. unfold M_bind.
  rewrite with_object_set_flag, Hx.
  assert (Ho : <[self := with_flag v x]> h !! self = Some (with_flag v x))
    by apply lookup_insert_eq.
  unfold mbind at 1. unfold M_bind, get.
  destruct (if v then forward_target _ self else None) as [producer|];
    [|by exists (with_flag v x)].
  destruct (serializable_producer _ producer) as [p'|];
    [|by exists (with_flag v x)].
  by apply (set_save_data_producer_keeps_flag _ _ _ _ _ (with_flag v x)).
Qed.

Lemma on_chain_shape (h h' : heap) (self y : nat) :
  same_shape h h' → on_chain h self y → on_chain h' self y.
Proof.
  intros Hs Hc. induction Hc as [self Hself|self p y Hf Hc IH].
  - apply on_chain_self. by eapply same_shape_is_Some.
  - apply (on_chain_next _ _ p); [|done].
    by rewrite <- (forward_target_shape _ _ self Hs).
Qed.

(** The outcome and the final heap of [save] when the flag was not set
    and the setter returns. *)
Lemma save_unfold (fuel : nat) (write_model : M heap unit) (h h2 : heap)
    (obj : nat) (save_streaming_chain : bool) :
  flag_of h obj = Some false →
  set_save_data_producer fuel obj save_streaming_chain
    (with_object obj get_save_data_producer h).2 = (inr (), h2) →
  (∀ h', is_Some (h' !! obj) → is_Some ((write_model h').2 !! obj)) →
  ∃ x4,
    (write_model h2).2 !! obj = Some x4
    ∧ save fuel write_model obj save_streaming_chain h
      = ((write_model h2).1, <[obj := with_flag false x4]> (write_model h2).2).
Proof.
  intros Hb Hset Hw.
  destruct (with_object_get_flag h obj) as (h1 & Hget & Hs & _).
  rewrite Hb in Hget. simpl in Hget. rewrite Hget in Hset. simpl in Hset.
  assert (Hobj : is_Some (h !! obj)).
  { unfold flag_of in Hb. by destruct (h !! obj). }
  destruct fuel as [|fuel]; [done|].
  destruct (set_save_data_producer_own_flag fuel obj save_streaming_chain h1)
    as (x2 & Hx2 & Hflag2); [by eapply same_shape_is_Some|].
  rewrite Hset in Hx2. simpl in Hx2.
  destruct (Hw h2 (ex_intro _ x2 Hx2)) as [x4 Hx4]. exists x4. split; [done|].
  unfold save. unfold mbind at 1. unfold M_bind. rewrite Hget.
  unfold mbind at 1. unfold M_bind. rewrite Hset.
  unfold mbind at 1. unfold M_bind.
  rewrite (with_object_get_flag_set h2 obj x2 save_streaming_chain Hx2 Hflag2).
  unfold mbind at 1. unfold M_bind.
  rewrite bool_decide_eq_true_2 by done. unfold mret, M_ret.
  unfold try_finally, try_except.
  destruct (write_model h2) as [[e|[]] h4]; simpl in Hx4; unfold raise;
    by rewrite (set_save_data_producer_false fuel obj h4 x4 Hx4).
Qed.

(** X22. [save] is transparent around the pickling. When the flag of the
    object was not set and the setter returns, [save] returns what the
    block that writes the model returns, or raises what it raises, run on
    the heap that the setter left; afterwards the flag of the object is
    [False] again and every other object is as the block left it. *)
Theorem save_returns_what_the_pickling_returns (fuel : nat)
    (write_model : M heap unit) (h h2 : heap) (obj : nat)
    (save_streaming_chain : bool) :
  flag_of h obj = Some false →
  set_save_data_producer fuel obj save_streaming_chain
    (with_object obj get_save_data_producer h).2 = (inr (), h2) →
  (∀ h', is_Some (h' !! obj) → is_Some ((write_model h').2 !! obj)) →
  (save fuel write_model obj save_streaming_chain h).1 = (write_model h2).1
  ∧ flag_of (save fuel write_model obj save_streaming_chain h).2 obj = Some false
  ∧ (∀ o, o ≠ obj →
       (save fuel write_model obj save_streaming_chain h).2 !! o
       = (write_model h2).2 !! o).
Proof.
  intros Hb Hset Hw.
  destruct (save_unfold fuel write_model h h2 obj save_streaming_chain Hb Hset Hw)
    as (x4 & Hx4 & ->).
  simpl. split; [done|]. split.
  - rewrite flag_of_with_flag. by rewrite decide_True.
  - intros o Ho. by rewrite lookup_insert_ne.
Qed.

(** X23. [save] puts back the flag of the object only. After a save
    with the chain, the flag stays set on every producer of the chain, also
    on those where it was not set before, when the block that writes the
    model leaves the flags alone. *)
Theorem save_leaves_flag_set_on_producers (fuel : nat) (write_model : M heap unit)
    (h h2 : heap) (obj y : nat) :
  flag_of h obj = Some false →
  set_save_data_producer fuel obj true
    (with_object obj get_save_data_producer h).2 = (inr (), h2) →
  (∀ h' o, flag_of (write_model h').2 o = flag_of h' o) →
  on_chain h obj y → y ≠ obj →
  flag_of (save fuel write_model obj true h).2 y = Some true.
Proof.
  intros Hb Hset Hw Hy Hne.
  assert (Hw' : ∀ h', is_Some (h' !! obj) → is_Some ((write_model h').2 !! obj)).
  { intros h' [x Hx]. specialize (Hw h' obj). unfold flag_of in Hw.
    rewrite Hx in Hw. simpl in Hw. by destruct (_ !! obj). }
  destruct (save_unfold fuel write_model h h2 obj true Hb Hset Hw')
    as (x4 & Hx4 & ->).
  simpl. rewrite flag_of_with_flag, decide_False by done. rewrite Hw.
  destruct (with_object_get_flag h obj) as (h1 & Hget & Hs & _).
  rewrite Hget in Hset. simpl in Hset.
  apply (set_save_data_producer_on_chain h1 h2 obj y fuel); [|done].
  by apply (on_chain_shape h).
Qed.

(** ** The container: [list_models], [save] and [load] *)

Lemma model_info_inv (g : h5group) (info : gmap string pyval) :
  model_info g = inr info →
  info !! "repr" = attrs g !! "class_str"
  ∧ info !! "created" = attrs g !! "created_readable"
  ∧ info !! "saved_streaming_chain" = attrs g !! "saved_streaming_chain".
Proof.
  unfold model_info.
  destruct (attrs g !! "class_str") as [r|]; [|done].
  destruct (attrs g !! "created_readable") as [c|]; [|done].
  destruct (attrs g !! "saved_streaming_chain") as [s|]; [|done].
  intros [= <-]. by simplify_map_eq.
Qed.

Lemma model_info_error (g : h5group) (e : exn) :
  model_info g = inl e → e = KeyError.
Proof.
  unfold model_info.
  destruct (attrs g !! "class_str") as [r|]; [|by intros [= <-]].
  destruct (attrs g !! "created_readable") as [c|]; [|by intros [= <-]].
  destruct (attrs g !! "saved_streaming_chain") as [s|]; [|by intros [= <-]].
  done.
Qed.

Lemma model_info_is_Some (g : h5group) :
  is_Some (attrs g !! "class_str") →
  is_Some (attrs g !! "created_readable") →
  is_Some (attrs g !! "saved_streaming_chain") →
  ∃ info, model_info g = inr info.
Proof.
  intros [r Hr] [c Hc] [s Hs]. unfold model_info. rewrite Hr, Hc, Hs. by eexists.
Qed.

Lemma list_models_items_snoc (items : list (string * h5group)) (kg : string * h5group) :
  list_models_items (items ++ [kg])
  = (d ← list_models_items items; info ← model_info kg.2; mret (<[kg.1 := info]> d)).
Proof. unfold list_models_items. by rewrite foldl_app. Qed.

Lemma list_models_items_error (items : list (string * h5group)) (e : exn) :
  list_models_items items = inl e → e = KeyError.
Proof.
  induction items as [|kg items IH] using rev_ind; [done|].
  rewrite list_models_items_snoc. unfold mbind, result_bind.
  destruct (list_models_items items) as [e'|d]; [intros [= <-]; by apply IH|].
  destruct (model_info kg.2) as [e'|info] eqn:Hinfo; [|done].
  intros [= <-]. by eapply model_info_error.
Qed.

Lemma list_models_items_fails (items : list (string * h5group)) (kg : string * h5group)
    (e : exn) :
  kg ∈ items → model_info kg.2 = inl e →
  list_models_items items = inl KeyError.
Proof.
  intros Hin Hinfo.
  induction items as [|kg' items IH] using rev_ind; [by apply elem_of_nil in Hin|].
  rewrite list_models_items_snoc. unfold mbind, result_bind.
  apply elem_of_app in Hin as [Hin|Hin].
  - by rewrite IH.
  - apply list_elem_of_singleton in Hin as <-.
    destruct (list_models_items items) as [e'|d] eqn:Hitems.
    + by rewrite (list_models_items_error _ _ Hitems).
    + rewrite Hinfo. by rewrite (model_info_error _ _ Hinfo).
Qed.

Lemma list_models_items_lookup (items : list (string * h5group))
    (d : gmap string (gmap string pyval)) (name : string) :
  NoDup items.*1 →
  list_models_items items = inr d →
  (name ∉ items.*1 → d !! name = None)
  ∧ (∀ g, (name, g) ∈ items →
       ∃ info, model_info g = inr info ∧ d !! name = Some info).
Proof.
  revert d. induction items as [|kg items IH] using rev_ind; intros d Hnd.
  - intros [= <-]. split; [done|]. intros g Hg. by apply elem_of_nil in Hg.
  - rewrite fmap_app in Hnd. apply list.NoDup_app in Hnd as (Hnd & Hdisj & _).
    rewrite list_models_items_snoc. unfold mbind, result_bind.
    destruct (list_models_items items) as [e'|d0]; [done|].
    destruct (model_info kg.2) as [e'|info] eqn:Hinfo; [done|].
    intros [= <-]. destruct (IH d0 Hnd eq_refl) as [IH1 IH2]. split.
    + intros Hnot. rewrite fmap_app in Hnot.
      apply not_elem_of_app in Hnot as [Hnot1 Hnot2].
      rewrite lookup_insert_ne; [by apply IH1|].
      intros Heq. apply Hnot2. rewrite <- Heq. simpl. left.
    + intros g Hg. apply elem_of_app in Hg as [Hg|Hg].
      * destruct (IH2 g Hg) as (info' & Hinfo' & Hd).
        exists info'. split; [done|]. rewrite lookup_insert_ne; [done|].
        intros Heq. apply (Hdisj name).
        -- apply list_elem_of_fmap. by exists (name, g).
        -- rewrite <- Heq. simpl. left.
      * apply list_elem_of_singleton in Hg as <-. exists info.
        split; [done|]. simpl. apply lookup_insert_eq.
Qed.

Lemma list_models_lookup (fs : files) (file_name name : string) (f : h5file)
    (g : h5group) (d : gmap string (gmap string pyval)) :
  list_models fs file_name = inr d →
  fs !! file_name = Some f → f !! name = Some g →
  ∃ info, model_info g = inr info ∧ d !! name = Some info.
Proof.
  unfold list_models. intros Hd Hf Hg. rewrite Hf in Hd.
  destruct (list_models_items_lookup (map_to_list f) d name
              (NoDup_fst_map_to_list f) Hd) as [_ Hsome].
  apply Hsome. by apply elem_of_map_to_list.
Qed.

Lemma set_group_attr_again (file_name model_name name : string) (v : pyval)
    (fs : files) (f : h5file) (g : h5group) :
  set_group_attr file_name model_name name v
    (<[file_name := <[model_name := g]> f]> fs)
  = (inr (), <[file_name := <[model_name := H5Group (<[name := v]> (attrs g))]> f]> fs).
Proof.
  unfold set_group_attr, modify. rewrite lookup_insert_eq. simpl.
  rewrite lookup_insert_eq. simpl.
  by rewrite !insert_insert_eq.
Qed.

Lemma write_group_run (file_name model_name : string)
    (created created_readable class_str class_repr : pyval)
    (save_streaming_chain : bool) (encode : result pyval) (fs : files) :
  let f := default ∅ (fs !! file_name) in
  let old := attrs (default (H5Group ∅) (f !! model_name)) in
  let new := written_attrs created created_readable class_str class_repr
               save_streaming_chain old in
  write_group file_name model_name created created_readable class_str class_repr
    save_streaming_chain encode fs
  = match encode with
    | inr flattened =>
        (inr (),
         <[file_name := <[model_name := H5Group (<["model" := flattened]> new)]> f]> fs)
    | inl e => (inl e, <[file_name := <[model_name := H5Group new]> f]> fs)
    end.
Proof.
  intros f old new. unfold write_group.
  unfold mbind at 1. unfold M_bind.
  change (set_group_attr file_name model_name "created" created fs)
    with (inr () : result unit,
          <[file_name := <[model_name := H5Group (<["created" := created]> old)]> f]> fs).
  unfold mbind at 1. unfold M_bind. rewrite set_group_attr_again.
  unfold mbind at 1. unfold M_bind. rewrite set_group_attr_again.
  unfold mbind at 1. unfold M_bind. rewrite set_group_attr_again.
  unfold mbind at 1. unfold M_bind. rewrite set_group_attr_again.
  unfold mbind at 1. unfold M_bind, lift.
  destruct encode as [e|flattened]; [done|].
  by rewrite set_group_attr_again.
Qed.

Section container_facts.
Variable upgrade_old_names_in_json : pyval → result pyval.
Variable jsonpickle_decode : pyval → h5group → result instance.

(** X24. [list_models] and [load] agree on what a file contains. When
    [list_models] returns, a name that it does not list is one for which
    [load] raises [ValueError]; a name that it lists is a group of the
    file, listed with its attributes [class_str], [created_readable] and
    [saved_streaming_chain], and [load] decodes the attribute [model] of
    that group, raising [KeyError] when the group has none. *)
Theorem list_models_agrees_with_load (fs : files) (file_name name : string)
    (d : gmap string (gmap string pyval)) :
  list_models fs file_name = inr d →
  (d !! name = None →
     load upgrade_old_names_in_json jsonpickle_decode fs file_name name
     = inl ValueError)
  ∧ (∀ info, d !! name = Some info →
       ∃ f g,
         fs !! file_name = Some f ∧ f !! name = Some g
         ∧ attrs g !! "class_str" = info !! "repr"
         ∧ attrs g !! "created_readable" = info !! "created"
         ∧ attrs g !! "saved_streaming_chain" = info !! "saved_streaming_chain"
         ∧ load upgrade_old_names_in_json jsonpickle_decode fs file_name name
           = (inp ← from_option inr (inl KeyError) (attrs g !! "model");
              inp ← upgrade_old_names_in_json inp;
              jsonpickle_decode inp g)).
Proof.
  unfold list_models, load. destruct (fs !! file_name) as [f|]; [|done].
  intros Hitems.
  destruct (list_models_items_lookup (map_to_list f) d name
              (NoDup_fst_map_to_list f) Hitems) as [Hnone Hsome].
  destruct (f !! name) as [g|] eqn:Hg.
  - destruct (Hsome g) as (info & Hinfo & Hd); [by apply elem_of_map_to_list|].
    apply model_info_inv in Hinfo as (H1 & H2 & H3).
    split; [by rewrite Hd|].
    intros info' Hd'. rewrite Hd in Hd'. injection Hd' as <-.
    exists f, g. by repeat split.
  - split; [done|]. intros info Hd. rewrite Hnone in Hd; [done|].
    intros Hin. apply list_elem_of_fmap in Hin as ([k g] & -> & Hin).
    apply elem_of_map_to_list in Hin. simpl in Hg. congruence.
Qed.

(** X25. One group without [class_str], [created_readable] or
    [saved_streaming_chain] makes [list_models] fail for the whole file,
    with [KeyError]; when every group has the three attributes,
    [list_models] returns. *)
Theorem list_models_needs_every_group_complete (fs : files) (file_name : string)
    (f : h5file) :
  fs !! file_name = Some f →
  ((∃ name g, f !! name = Some g
              ∧ (attrs g !! "class_str" = None
                 ∨ attrs g !! "created_readable" = None
                 ∨ attrs g !! "saved_streaming_chain" = None)) →
   list_models fs file_name = inl KeyError)
  ∧ ((∀ name g, f !! name = Some g →
        is_Some (attrs g !! "class_str")
        ∧ is_Some (attrs g !! "created_readable")
        ∧ is_Some (attrs g !! "saved_streaming_chain")) →
     ∃ d, list_models fs file_name = inr d).
Proof.
  intros Hf. unfold list_models. rewrite Hf. split.
  - intros (name & g & Hg & Hmissing).
    assert (Hinfo : model_info g = inl KeyError).
    { unfold model_info. destruct Hmissing as [H|[H|H]].
      - by rewrite H.
      - rewrite H. by destruct (attrs g !! "class_str").
      - rewrite H.
        by destruct (attrs g !! "class_str"), (attrs g !! "created_readable"). }
    apply (list_models_items_fails _ (name, g) KeyError); [|done].
    by apply elem_of_map_to_list.
  - intros Hall.
    assert (Hitems : ∀ kg, kg ∈ map_to_list f → ∃ info, model_info kg.2 = inr info).
    { intros [name g] Hin. apply elem_of_map_to_list in Hin.
      destruct (Hall name g Hin) as (H1 & H2 & H3). by apply model_info_is_Some. }
    induction (map_to_list f) as [|kg items IH] using rev_ind; [by exists ∅|].
    rewrite list_models_items_snoc. unfold mbind, result_bind.
    destruct IH as [d ->].
    { intros kg' Hin. apply Hitems. apply elem_of_app. by left. }
    destruct (Hitems kg) as [info ->]; [apply elem_of_app; right; left|].
    by eexists.
Qed.

(** X26. What the block of [save] writes, [list_models] lists and
    [load] reads. When the encoding succeeds, the block returns; then
    [load] of the model name decodes the encoded object, [list_models],
    when it returns, lists the model with the description of the object and
    with the flag, and the other groups of the file and the other files are
    what they were. *)
Theorem saved_model_is_listed_and_loaded (file_name model_name : string)
    (created created_readable class_str class_repr flattened : pyval)
    (save_streaming_chain : bool) (fs : files) :
  ∃ fs',
    write_group file_name model_name created created_readable class_str class_repr
      save_streaming_chain (inr flattened) fs = (inr (), fs')
    ∧ (∃ g, load upgrade_old_names_in_json jsonpickle_decode fs' file_name model_name
            = (inp ← upgrade_old_names_in_json flattened; jsonpickle_decode inp g))
    ∧ (∀ d, list_models fs' file_name = inr d →
         ∃ info, d !! model_name = Some info
                 ∧ info !! "repr" = Some class_str
                 ∧ info !! "created" = Some created_readable
                 ∧ info !! "saved_streaming_chain" = Some (PBool save_streaming_chain))
    ∧ (∀ name, name ≠ model_name →
         (fs' !! file_name ≫= (.!! name)) = (fs !! file_name ≫= (.!! name)))
    ∧ (∀ file, file ≠ file_name → fs' !! file = fs !! file).
Proof.
  pose proof (write_group_run file_name model_name created created_readable
                class_str class_repr save_streaming_chain (inr flattened) fs) as Hrun.
  cbn zeta iota in Hrun. eexists. split; [exact Hrun|]. clear Hrun.
  set (f := default ∅ (fs !! file_name)).
  set (new := written_attrs _ _ _ _ _ _).
  split; [|split; [|split]].
  - exists (H5Group (<["model" := flattened]> new)).
    unfold load. rewrite lookup_insert_eq, lookup_insert_eq. simpl.
    by rewrite lookup_insert_eq.
  - intros d Hd.
    destruct (list_models_lookup _ file_name model_name
                (<[model_name := H5Group (<["model" := flattened]> new)]> f)
                (H5Group (<["model" := flattened]> new)) d Hd)
      as (info & Hinfo & Hlookup); [apply lookup_insert_eq..|].
    exists info. split; [done|].
    apply model_info_inv in Hinfo as (-> & -> & ->). simpl.
    unfold new, written_attrs. by simplify_map_eq.
  - intros name Hne. rewrite lookup_insert_eq. simpl.
    rewrite lookup_insert_ne by done. unfold f.
    by destruct (fs !! file_name).
  - intros file Hne. by rewrite lookup_insert_ne.
Qed.

(** X27. A save whose encoding fails leaves its group behind. The
    block raises the exception of the encoder, and yet the file has the
    group with the description of the new object, so that [list_models]
    shows it; its attribute [model] is the one the group had before, so
    that [load] raises [KeyError] for a new name and decodes the model saved
    earlier for a name that was in use. *)
Theorem failed_save_leaves_group_behind (file_name model_name : string)
    (created created_readable class_str class_repr : pyval) (e : exn)
    (save_streaming_chain : bool) (fs : files) :
  ∃ fs' g,
    write_group file_name model_name created created_readable class_str class_repr
      save_streaming_chain (inl e) fs = (inl e, fs')
    ∧ (fs' !! file_name ≫= (.!! model_name)) = Some g
    ∧ attrs g !! "class_str" = Some class_str
    ∧ attrs g !! "model" = group_attr fs file_name model_name "model"
    ∧ load upgrade_old_names_in_json jsonpickle_decode fs' file_name model_name
      = (inp ← from_option inr (inl KeyError)
                 (group_attr fs file_name model_name "model");
         inp ← upgrade_old_names_in_json inp;
         jsonpickle_decode inp g)
    ∧ (∀ d, list_models fs' file_name = inr d →
         ∃ info, d !! model_name = Some info ∧ info !! "repr" = Some class_str).
Proof.
  pose proof (write_group_run file_name model_name created created_readable
                class_str class_repr save_streaming_chain (inl e) fs) as Hrun.
  cbn zeta iota in Hrun. eexists. eexists. split; [exact Hrun|]. clear Hrun.
  set (f := default ∅ (fs !! file_name)).
  set (new := written_attrs _ _ _ _ _ _).
  assert (Hmodel : new !! "model" = group_attr fs file_name model_name "model").
  { unfold new, written_attrs, group_attr, f.
    rewrite !lookup_insert_ne by done.
    destruct (fs !! file_name) as [f0|]; simpl; [|done].
    by destruct (f0 !! model_name). }
  split; [by rewrite lookup_insert_eq; simpl; rewrite lookup_insert_eq|].
  split; [unfold new, written_attrs; by simplify_map_eq|].
  split; [done|]. split.
  - unfold load. rewrite lookup_insert_eq, lookup_insert_eq. simpl.
    by rewrite Hmodel.
  - intros d Hd.
    destruct (list_models_lookup _ file_name model_name
                (<[model_name := H5Group new]> f) (H5Group new) d Hd)
      as (info & Hinfo & Hlookup); [apply lookup_insert_eq..|].
    exists info. split; [done|].
    apply model_info_inv in Hinfo as (-> & _). simpl.
    unfold new, written_attrs. by simplify_map_eq.
Qed.

End container_facts.

(** ** Classes that are inspected twice *)

(** X28. [_get_classes_to_inspect] lists a class once for its fields and
    once more for its estimator parameters: a class of the instance with a
    non-empty [_serialize_fields], with [_get_param_names] and with a
    [_serialize_version] is in the list twice, and so [__getstate__] and
    [__setstate__] go through it twice. *)
Theorem class_with_fields_and_params_is_inspected_twice (self : instance)
    (c : klass) (field : string) (fields params : list string) (v : Z) :
  c ∈ mro self →
  serialize_fields c = Some (field :: fields) →
  get_param_names c = Some params →
  serialize_version c = Some v →
  ∃ l1 l2 l3, get_classes_to_inspect self = l1 ++ c :: l2 ++ c :: l3.
Proof.
  intros Hc Hf Hp Hv. unfold get_classes_to_inspect.
  set (A := List.filter _ (mro self)). set (B := List.filter _ (mro self)).
  assert (HA : c ∈ A).
  { apply list_elem_of_In, filter_In. split; [by apply list_elem_of_In|].
    by rewrite Hf. }
  assert (HB : c ∈ B).
  { apply list_elem_of_In, filter_In. split; [by apply list_elem_of_In|].
    by rewrite Hp, Hv. }
  apply list_elem_of_split in HA as (a1 & a2 & ->).
  apply list_elem_of_split in HB as (b1 & b2 & ->).
  exists a1, (a2 ++ b1), b2. by rewrite <- !app_assoc.
Qed.

Section twice_facts.
Variable old_handled_by : klass → list string.
Variable py_call : nat → pyval → result pyval.

Lemma first_version_ext (st st' : dict) (names : list string) :
  st' !! HStr "class_tree_versions" = st !! HStr "class_tree_versions" →
  first_version st' names = first_version st names.
Proof.
  intros Heq. induction names as [|n names IH]; [done|].
  simpl. unfold lookup_class_tree_version. by rewrite Heq, IH.
Qed.

(** [__interpolate] for a class whose map holds one rename. *)
Lemma interpolate_rename (c : klass) (st : dict) (old new : string) (k v0 v1 : Z) :
  serialize_interpolation_map c
  = Some {[ KInt k := Actions [[PStr "mv"; PStr old; PStr new]] ]} →
  serialize_version c = Some v1 →
  get_version_for_class_from_state old_handled_by st c = inr (PInt v0) →
  v0 ≤ k < v1 →
  interpolate old_handled_by py_call c st
  = match st !! HStr old with
    | Some v => (inr (), <[HStr new := v]> (delete (HStr old) st))
    | None => (inl DeveloperError, st)
    end.
Proof.
  intros Hmap Hv1 Hv0 Hk. unfold interpolate. rewrite Hmap.
  unfold mbind at 1. unfold M_bind, get.
  unfold mbind at 1. unfold M_bind, lift. rewrite Hv0, Hv1.
  cbn [as_number number_gt].
  rewrite (proj2 (Z.ltb_ge v1 v0)) by lia.
  rewrite validate_singleton by done.
  unfold mbind at 1. unfold M_bind.
  cbn [for_each]. unfold mbind at 1. unfold M_bind.
  unfold interpolate_key. cbn [fst snd key_in_range number_ge].
  unfold mbind at 1. unfold M_bind, lift.
  rewrite (proj2 (Z.ltb_lt k v1)) by lia.
  rewrite (proj2 (Z.leb_le v0 k)) by lia.
  cbn [andb negb for_each apply_action py_eq_str String.eqb Ascii.eqb Bool.eqb].
  unfold try_except, mbind, M_bind, mret, M_ret, pop, setitem, modify, raise. simpl.
  by destruct (st !! HStr old).
Qed.

Lemma restore_attr_absent (k : hkey) (name : string) :
  triple (λ fr, f_state fr !! k = None) (restore_attr name)
    (λ _ fr, f_state fr !! k = None) (λ _ _, True).
Proof.
  intros fr Hk. unfold restore_attr, mbind, M_bind, get.
  destruct (f_state fr !! HStr name) as [v|] eqn:Hv; [|done].
  unfold on_state, zoom, pop. simpl. rewrite Hv. simpl.
  destruct (decide (HStr name = k)) as [<-|Hne].
  - apply lookup_delete_eq.
  - by rewrite lookup_delete_ne.
Qed.

(** X29. A rename in the interpolation map of a class that is inspected
    twice fails the second time. After
    [_set_state_from_serializeable_fields_and_state] has run for a class
    whose map renames [old] to [new] for the version of the state, running
    it again for the same class, on the state it left, raises
    [DeveloperError]: the version in the manifest is still the old one, and
    [old] is no longer in the state. *)
Theorem rename_migration_fails_when_run_twice (c : klass) (fr fr1 : frame)
    (old new : string) (k v0 v1 : Z) :
  serialize_interpolation_map c
  = Some {[ KInt k := Actions [[PStr "mv"; PStr old; PStr new]] ]} →
  serialize_version c = Some v1 →
  get_version_for_class_from_state old_handled_by (f_state fr) c = inr (PInt v0) →
  v0 ≤ k < v1 →
  old ≠ new →
  "class_tree_versions" ∉ old :: new :: restored_names c →
  set_state_from_serializeable_fields_and_state old_handled_by py_call c fr
  = (inr (), fr1) →
  set_state_from_serializeable_fields_and_state old_handled_by py_call c fr1
  = (inl DeveloperError, fr1).
Proof.
  intros Hmap Hv1 Hv0 Hk Hne Hctv Hrun.
  apply not_elem_of_cons in Hctv as [Hctv1 Hctv].
  apply not_elem_of_cons in Hctv as [Hctv2 Hctv].
  set (ctv := HStr "class_tree_versions").
  set (Inv := λ fr' : frame,
         f_state fr' !! HStr old = None
         ∧ f_state fr' !! ctv = f_state fr !! ctv).
  assert (Hrestore : ∀ name, name ∈ restored_names c →
            triple Inv (restore_attr name) (λ _, Inv) (λ _ _, True)).
  { intros name Hname fr' [H1 H2].
    pose proof (restore_attr_absent (HStr old) name fr' H1) as Ha.
    pose proof (restore_attr_inv (λ fr'', f_state fr'' !! ctv = f_state fr !! ctv)
                  (λ k', k' = ctv) (λ _, True) (λ _ _, True)) as Hb.
    specialize (Hb (λ fr'' st Hst H, eq_trans (Hst ctv eq_refl) H)
                   (λ fr'' n w _ H, H) (λ _ _ _, I) name I).
    assert (Hname' : ¬ HStr name = ctv).
    { intros [= ->]. by apply Hctv. }
    specialize (Hb Hname' fr' H2).
    by destruct (restore_attr name fr') as [[e|[]] fr'']. }
  (* the first run *)
  assert (Hfr1 : Inv fr1).
  { revert Hrun. unfold set_state_from_serializeable_fields_and_state.
    unfold mbind at 1. unfold M_bind at 1. unfold on_state, zoom.
    rewrite (interpolate_rename c (f_state fr) old new k v0 v1) by done.
    destruct (f_state fr !! HStr old) as [v|] eqn:Hold; [|done].
    set (fr0 := {| f_self := f_self fr;
                   f_state := <[HStr new := v]> (delete (HStr old) (f_state fr));
                   f_log := f_log fr |}).
    assert (Hfr0 : Inv fr0).
    { split; simpl.
      - rewrite lookup_insert_ne by congruence. apply lookup_delete_eq.
      - rewrite lookup_insert_ne by (unfold ctv; congruence).
        apply lookup_delete_ne. unfold ctv. congruence. }
    assert (Hloops : triple Inv
              (match get_param_names c with
               | Some params => for_each params restore_attr
               | None => mret ()
               end ;;
               match serialize_fields c with
               | Some fields => for_each fields restore_attr
               | None => raise AttributeError
               end) (λ _, Inv) (λ _ _, True)).
    { eapply triple_bind.
      - instantiate (1 := λ _, Inv).
        destruct (get_param_names c) as [params|] eqn:Hparams; [|by apply triple_ret].
        apply triple_for_each. intros name Hname. apply Hrestore.
        unfold restored_names. rewrite Hparams. apply elem_of_app. by left.
      - intros []. destruct (serialize_fields c) as [fields|] eqn:Hfields;
          [|by apply triple_raise].
        apply triple_for_each. intros name Hname. apply Hrestore.
        unfold restored_names. rewrite Hfields. apply elem_of_app. by right. }
    specialize (Hloops fr0 Hfr0). intros Hrun. by rewrite Hrun in Hloops. }
  (* the second run *)
  destruct Hfr1 as [Hold Hsame].
  unfold set_state_from_serializeable_fields_and_state.
  unfold mbind at 1. unfold M_bind, on_state, zoom.
  rewrite (interpolate_rename c (f_state fr1) old new k v0 v1); try done.
  - rewrite Hold. by destruct fr1.
  - unfold get_version_for_class_from_state in *.
    by rewrite (first_version_ext (f_state fr)).
Qed.

End twice_facts.

(** ** The further properties on the examples *)

Module MoreWitnesses.
Import Examples MoreExamples.

Lemma saved_eq (version : string) (x : instance) (v : pyval) :
  state_lookup (getstate version (x, [])) "_pyemma_version" = Some v →
  ∃ s, getstate version (x, []) = (inr (Some (saved version x)), s).
Proof.
  unfold saved. destruct (getstate version (x, [])) as [[e|[res|]] s]; try done.
  intros _. by exists s.
Qed.

Lemma listed_eq (fs : files) (file_name name : string) (v : pyval) :
  (listed fs file_name !! name ≫= (.!! "repr")) = Some v →
  list_models fs file_name = inr (listed fs file_name).
Proof.
  unfold listed. destruct (list_models fs file_name) as [e|d]; [|done].
  by rewrite lookup_empty.
Qed.

Lemma run_eq {S} (r : result unit * S) : r.1 = inr () → r = (inr (), r.2).
Proof. destruct r as [[e|[]] s]; by intros [=]. Qed.

Lemma validate_accepts_iff_witness :
  item_ok (KInt 1, Actions [[PStr "mv"; PStr "a"; PStr "b"]]) = true
  ∧ ¬ ∃ inter_map, validate_interpolation_map Bad_map = inr inter_map.
Proof.
  split.
  - apply (proj1 (validate_accepts_iff C_map)).
    + eexists. vm_compute. reflexivity.
    + vm_compute. reflexivity.
  - intros Hvalid.
    pose proof (proj1 (validate_accepts_iff Bad_map) Hvalid (KInt 0)
                  (Actions [[PStr "delete"; PStr "a"]])) as Hok.
    discriminate Hok. vm_compute. reflexivity.
Defined.

Lemma validate_returns_sorted_items_witness :
  ∃ l : list (Z * list action),
    typed_item <$> C_selected ++ [(5, [[PStr "rm"; PStr "a"]])] = typed_item <$> l
    ∧ StronglySorted key_lt l
    ∧ (∀ k acts, (k, acts) ∈ l ↔ C_map !! KInt k = Some (Actions acts))
    ∧ (∀ kv, kv ∈ typed_item <$> C_selected ++ [(5, [[PStr "rm"; PStr "a"]])]
             ↔ C_map !! kv.1 = Some kv.2).
Proof.
  apply (validate_returns_sorted_items C_map). vm_compute. reflexivity.
Defined.

Lemma validate_is_stable_witness :
  list_to_map (typed_item <$> C_selected ++ [(5, [[PStr "rm"; PStr "a"]])]) = C_map
  ∧ validate_interpolation_map
      (list_to_map (typed_item <$> C_selected ++ [(5, [[PStr "rm"; PStr "a"]])]))
    = inr (typed_item <$> C_selected ++ [(5, [[PStr "rm"; PStr "a"]])]).
Proof.
  apply (validate_is_stable C_map). vm_compute. reflexivity.
Defined.

Lemma version_is_first_known_name_witness :
  get_version_for_class_from_state renamed old_name_state C = inr (PInt 0).
Proof.
  apply (version_is_first_known_name renamed C old_name_state
           {[ HStr "m.OldC" := PInt 0 ]} ["m.C"] [] "m.OldC").
  - vm_compute. reflexivity.
  - reflexivity.
  - intros n Hn. apply list_elem_of_singleton in Hn as ->. vm_compute. reflexivity.
  - vm_compute. reflexivity.
Defined.

Lemma state_without_manifest_is_not_interpolated_witness :
  get_version_for_class_from_state no_old_names C_state_no_manifest C = inr PInf
  ∧ interpolate no_old_names no_call C C_state_no_manifest
    = (inr (), C_state_no_manifest).
Proof.
  apply (state_without_manifest_is_not_interpolated no_old_names no_call C
           C_state_no_manifest 2).
  - vm_compute. reflexivity.
  - reflexivity.
Defined.

Lemma manifest_not_a_dict_raises_witness :
  get_version_for_class_from_state no_old_names broken_manifest_state C
  = inl TypeError
  ∧ interpolate no_old_names no_call C broken_manifest_state
    = (inl TypeError, broken_manifest_state).
Proof.
  apply (manifest_not_a_dict_raises no_old_names no_call C C_map
           broken_manifest_state (PInt 3)).
  - reflexivity.
  - vm_compute. reflexivity.
  - discriminate.
Defined.

Lemma newer_state_is_passed_through_witness :
  interpolate no_old_names no_call C newer_state = (inr (), newer_state).
Proof.
  apply (newer_state_is_passed_through no_old_names no_call C C_map newer_state 7 2).
  - reflexivity.
  - reflexivity.
  - vm_compute. reflexivity.
  - lia.
Defined.

Lemma malformed_map_raises_before_any_action_witness :
  interpolate no_old_names no_call Bad Bad_state = (inl DeveloperError, Bad_state).
Proof.
  apply (malformed_map_raises_before_any_action no_old_names no_call Bad Bad_map
           Bad_state 0 1).
  - reflexivity.
  - reflexivity.
  - vm_compute. reflexivity.
  - lia.
  - vm_compute. reflexivity.
Defined.

Lemma Est_untouched (k : hkey) : k ≠ HStr "a" → k ≠ HStr "b" → untouched Est k.
Proof.
  intros Ha Hb m key acts a [= <-] Hkey Hin. unfold Est_map in Hkey.
  apply lookup_singleton_Some in Hkey as [_ [= <-]].
  apply list_elem_of_singleton in Hin as ->.
  unfold touched, operands. simpl.
  intros Hk. apply list.elem_of_cons in Hk as [->|Hk]; [done|].
  apply list_elem_of_singleton in Hk as ->. done.
Qed.

Lemma no_map_untouched (c : klass) (k : hkey) :
  serialize_interpolation_map c = None → untouched c k.
Proof. intros Hnone m key acts a Hmap. congruence. Qed.

Lemma interpolate_keeps_unnamed_keys_witness :
  (interpolate no_old_names no_call Est Est_state_v0).2 !! HStr "lag"
  = Est_state_v0 !! HStr "lag".
Proof.
  apply (interpolate_keeps_unnamed_keys no_old_names no_call Est Est_state_v0).
  by apply Est_untouched.
Defined.

Lemma mv_moves_the_value_witness :
  ∃ st',
    apply_action no_call [PStr "mv"; PStr "a"; PStr "b"] C_state_v0 = (inr (), st')
    ∧ st' !! HStr "b" = Some (PInt 5)
    ∧ (HStr "a" ≠ HStr "b" → st' !! HStr "a" = None)
    ∧ (∀ k, k ≠ HStr "a" → k ≠ HStr "b" → st' !! k = C_state_v0 !! k).
Proof.
  apply (mv_moves_the_value no_call C_state_v0 (PStr "a") (PStr "b") (PInt 5)).
  - reflexivity.
  - reflexivity.
  - vm_compute. reflexivity.
Defined.

Lemma map_applies_the_function_witness :
  apply_action no_call [PStr "map"; PStr "zzz"; PFunc 0] C_state_v0
  = (inl KeyError, C_state_v0)
  ∧ apply_action no_call [PStr "map"; PStr "a"; PFunc 0] C_state_v0
    = (inl TypeError, C_state_v0).
Proof.
  destruct (map_applies_the_function no_call C_state_v0 (PStr "zzz") (HStr "zzz") 0
              eq_refl) as (_ & Hmissing & _).
  destruct (map_applies_the_function no_call C_state_v0 (PStr "a") (HStr "a") 0
              eq_refl) as (_ & _ & Hraises & _).
  split.
  - apply Hmissing. vm_compute. reflexivity.
  - apply (Hraises (PInt 5)).
    + vm_compute. reflexivity.
    + reflexivity.
Defined.

Lemma transformer_saved :
  ∃ s, getstate "2.5" (transformer 1 (Some false), [])
       = (inr (Some (saved "2.5" (transformer 1 (Some false)))), s).
Proof. apply (saved_eq _ _ (PStr "2.5")). vm_compute. reflexivity. Qed.

Lemma Est_instance_saved :
  ∃ s, getstate "2.5" (Est_instance, [])
       = (inr (Some (saved "2.5" Est_instance)), s).
Proof. apply (saved_eq _ _ (PStr "2.5")). vm_compute. reflexivity. Qed.

Lemma not_a_model_param (x : instance) (key : string) :
  get_model_params (i_class x) = None → ¬ model_param x key.
Proof. intros Hnone (params & state & Hsome & _). congruence. Qed.

Lemma not_in_list (key : string) (l : list string) :
  bool_decide (key ∈ l) = false → key ∉ l.
Proof. intros H Hin. by rewrite bool_decide_eq_true_2 in H. Qed.

Lemma getstate_stamps_version_witness :
  saved "2.5" (transformer 1 (Some false)) !! HStr "_pyemma_version"
  = Some (PStr "2.5").
Proof.
  destruct transformer_saved as [s Hget].
  exact (getstate_stamps_version "2.5" _ [] _ s Hget).
Defined.

Lemma getstate_holds_manifest_witness :
  saved "2.5" (transformer 1 (Some false)) !! HStr "class_tree_versions"
  = Some (PDict (class_tree_versions (mro (transformer 1 (Some false))))).
Proof.
  destruct transformer_saved as [s Hget].
  apply (getstate_holds_manifest "2.5" _ [] _ s Hget).
  - apply not_in_list. vm_compute. reflexivity.
  - by apply not_a_model_param.
Defined.

Lemma getstate_returns_None_on_failure_witness :
  (getstate "2.5" (unversioned_instance, [])).1 = inr None
  ∧ (getstate "2.5" (flagged_instance, [])).2.2
    = [LogException "exception during pickling" AssertionError].
Proof.
  split.
  - apply (proj1 (getstate_returns_None_on_failure "2.5" unversioned_instance [])).
    reflexivity.
  - apply (proj2 (getstate_returns_None_on_failure "2.5" flagged_instance []));
      [by eexists|reflexivity|vm_compute; reflexivity].
Defined.

Lemma Est_inspected : Est ∈ get_classes_to_inspect Est_instance.
Proof. left. Qed.

Lemma T_inspected (x : instance) :
  i_class x = T → i_bases x = [mixin_class; object_class] →
  T ∈ get_classes_to_inspect x.
Proof. intros H1 H2. unfold get_classes_to_inspect, mro. rewrite H1, H2. left. Qed.

Lemma getstate_persists_fields_and_params_witness :
  saved "2.5" Est_instance !! HStr "b" = Some (PInt 5)
  ∧ saved "2.5" Est_instance !! HStr "lag" = Some PNone.
Proof.
  destruct Est_instance_saved as [s Hget]. split.
  - apply (getstate_persists_fields_and_params "2.5" _ [] _ s Est "b" Hget).
    + apply Est_inspected.
    + right. split; [left|by eexists].
    + apply not_in_list. vm_compute. reflexivity.
    + by apply not_a_model_param.
  - apply (getstate_persists_fields_and_params "2.5" _ [] _ s Est "lag" Hget).
    + apply Est_inspected.
    + left. left.
    + apply not_in_list. vm_compute. reflexivity.
    + by apply not_a_model_param.
Defined.

Lemma getstate_keys_have_an_origin_witness :
  "dim" ∈ getstate_keys
  ∨ (∃ c, c ∈ get_classes_to_inspect (transformer 1 (Some false))
          ∧ persisted_by (transformer 1 (Some false)) c "dim")
  ∨ model_param (transformer 1 (Some false)) "dim".
Proof.
  destruct transformer_saved as [s Hget].
  apply (getstate_keys_have_an_origin "2.5" _ [] _ s "dim" Hget).
  unfold saved in *. destruct (getstate "2.5" (transformer 1 (Some false), []))
    as [[e|[res|]] s'] eqn:Hres; try done.
  assert (Hkey : state_lookup (getstate "2.5" (transformer 1 (Some false), [])) "dim"
                 = Some (PInt 2)) by (vm_compute; reflexivity).
  rewrite Hres in Hkey. by eexists.
Defined.

Lemma T_consumed (k : string) :
  bool_decide (k ∈ consumed_keys T_bare) = false →
  ∀ name, name ∈ consumed_keys T_bare → HStr k ≠ HStr name.
Proof. intros Hk name Hin [= <-]. by apply (not_in_list _ _ Hk). Qed.

Lemma T_bare_untouched (k : hkey) (c : klass) :
  c ∈ get_classes_to_inspect T_bare → untouched c k.
Proof.
  intros Hc. apply list_elem_of_singleton in Hc as ->. by apply no_map_untouched.
Qed.

Lemma setstate_reports_unconsumed_key_witness :
  ∃ r fr',
    setstate no_old_names no_call
      {| f_self := T_bare; f_state := T_state_with_producer; f_log := [] |}
    = (inr (), logged fr' r)
    ∧ f_log fr' = []
    ∧ f_state fr' !! HStr "data_producer" = T_state_with_producer !! HStr "data_producer"
    ∧ (r = LogError "left-overs after setstate: %s" (f_state fr')
       ∨ ∃ e, r = LogException "exception during pickling" e).
Proof.
  apply (setstate_reports_unconsumed_key no_old_names no_call
           {| f_self := T_bare; f_state := T_state_with_producer; f_log := [] |}
           (HStr "data_producer")).
  - eexists. vm_compute. reflexivity.
  - apply T_consumed. vm_compute. reflexivity.
  - apply T_bare_untouched.
Defined.

Lemma setstate_restores_attribute_witness :
  i_dict (f_self (setstate no_old_names no_call
                    {| f_self := T_bare;
                       f_state := saved "2.5" (transformer 1 (Some false));
                       f_log := [] |}).2) !! "dim"
  = Some (PInt 2).
Proof.
  apply (setstate_restores_attribute no_old_names no_call
           {| f_self := T_bare; f_state := saved "2.5" (transformer 1 (Some false));
              f_log := [] |} "dim" (PInt 2) T).
  - vm_compute. reflexivity.
  - left.
  - vm_compute. left.
  - apply T_bare_untouched.
  - apply not_in_list. vm_compute. reflexivity.
  - by left.
  - vm_compute. reflexivity.
Defined.


Lemma pipeline_ends : chain_ends pipeline 0 2.
Proof.
  eapply chain_ends_later; [vm_compute; reflexivity..|].
  eapply chain_ends_later; [vm_compute; reflexivity..|].
  apply chain_ends_here; [by eexists|vm_compute; reflexivity].
Qed.

Lemma pipeline_reaches_reader : on_chain pipeline 0 2.
Proof.
  eapply on_chain_next; [vm_compute; reflexivity|].
  eapply on_chain_next; [vm_compute; reflexivity|].
  apply on_chain_self. by eexists.
Qed.

Lemma setter_sets_flag_along_chain_witness :
  (set_save_data_producer 10 0 true pipeline).1 = inr ()
  ∧ flag_of (set_save_data_producer 10 0 true pipeline).2 2 = Some true.
Proof.
  destruct (setter_sets_flag_along_chain pipeline 0 2 10 pipeline_ends)
    as (Hr & Hflags & _); [lia|].
  split; [done|]. apply Hflags, pipeline_reaches_reader.
Defined.

Lemma cycle_never_ends : never_ends cycle (λ o, o = 0%nat ∨ o = 1%nat).
Proof.
  intros o [->| ->].
  - exists (PObj 1), 1%nat. repeat split; [vm_compute; reflexivity..|by right].
  - exists (PObj 0), 0%nat. repeat split; [vm_compute; reflexivity..|by left].
Qed.

Lemma setter_on_endless_chain_exhausts_recursion_witness :
  (set_save_data_producer 1000 0 true cycle).1 = inl RecursionError.
Proof.
  apply (setter_on_endless_chain_exhausts_recursion cycle (λ o, o = 0%nat ∨ o = 1%nat)).
  - apply cycle_never_ends.
  - by left.
Defined.

Lemma pipeline_setter_returns :
  set_save_data_producer 10 0 true (with_object 0 get_save_data_producer pipeline).2
  = (inr (),
     (set_save_data_producer 10 0 true
        (with_object 0 get_save_data_producer pipeline).2).2).
Proof. apply run_eq. vm_compute. reflexivity. Qed.

Lemma save_returns_what_the_pickling_returns_witness :
  (save 10 write_ok 0 true pipeline).1 = inr ()
  ∧ flag_of (save 10 write_ok 0 true pipeline).2 0 = Some false.
Proof.
  assert (Hold : flag_of pipeline 0 = Some false) by (vm_compute; reflexivity).
  destruct (save_returns_what_the_pickling_returns 10 write_ok pipeline _ 0 true
              Hold pipeline_setter_returns (λ h' Hobj, Hobj)) as (Hr & Hflag & _).
  split; [exact Hr|exact Hflag].
Defined.

Lemma save_leaves_flag_set_on_producers_witness :
  flag_of pipeline 2 = Some false
  ∧ flag_of (save 10 write_ok 0 true pipeline).2 2 = Some true.
Proof.
  split; [vm_compute; reflexivity|].
  assert (Hold : flag_of pipeline 0 = Some false) by (vm_compute; reflexivity).
  apply (save_leaves_flag_set_on_producers 10 write_ok pipeline _ 0 2
           Hold pipeline_setter_returns).
  - intros h' o. reflexivity.
  - apply pipeline_reaches_reader.
  - lia.
Defined.

Lemma complete_file_listed :
  list_models complete_file "f.h5" = inr (listed complete_file "f.h5").
Proof. apply (listed_eq _ _ "latest" (PStr "T()")). vm_compute. reflexivity. Qed.

Lemma list_models_agrees_with_load_witness :
  load upgrade_id (decode_to C_bare) complete_file "f.h5" "old" = inl ValueError.
Proof.
  apply (list_models_agrees_with_load upgrade_id (decode_to C_bare) complete_file
           "f.h5" "old" _ complete_file_listed).
  vm_compute. reflexivity.
Defined.

Lemma list_models_needs_every_group_complete_witness :
  list_models one_model_file "f.h5" = inl KeyError.
Proof.
  assert (Hfs : one_model_file !! "f.h5"
                = Some {[ "latest" := {| attrs := {[ "model" := PStr "{}" ]} |} ]}).
  { vm_compute. reflexivity. }
  apply (proj1 (list_models_needs_every_group_complete one_model_file "f.h5" _ Hfs)).
  exists "latest", {| attrs := {[ "model" := PStr "{}" ]} |}.
  split; [vm_compute; reflexivity|]. left. vm_compute. reflexivity.
Defined.

Lemma saved_model_is_listed_and_loaded_witness :
  ∃ fs',
    write_group "f.h5" "latest" (PInt 0) (PStr "Mon") (PStr "T()") (PStr "T()")
      false (inr (PStr "{}")) ∅ = (inr (), fs')
    ∧ ∃ g, load upgrade_id (decode_to C_bare) fs' "f.h5" "latest"
           = (inp ← upgrade_id (PStr "{}"); decode_to C_bare inp g).
Proof.
  destruct (saved_model_is_listed_and_loaded upgrade_id (decode_to C_bare)
              "f.h5" "latest" (PInt 0) (PStr "Mon") (PStr "T()") (PStr "T()")
              (PStr "{}") false ∅) as (fs' & Hrun & Hload & _).
  by exists fs'.
Defined.

Lemma failed_save_leaves_group_behind_witness :
  ∃ fs' g,
    write_group "f.h5" "latest" (PInt 0) (PStr "Mon") (PStr "T()") (PStr "T()")
      false (inl TypeError) complete_file = (inl TypeError, fs')
    ∧ (fs' !! "f.h5" ≫= (.!! "latest")) = Some g
    ∧ attrs g !! "model" = group_attr complete_file "f.h5" "latest" "model".
Proof.
  destruct (failed_save_leaves_group_behind upgrade_id (decode_to C_bare)
              "f.h5" "latest" (PInt 0) (PStr "Mon") (PStr "T()") (PStr "T()")
              TypeError false complete_file)
    as (fs' & g & Hrun & Hg & _ & Hmodel & _).
  by exists fs', g.
Defined.

Lemma class_with_fields_and_params_is_inspected_twice_witness :
  ∃ l1 l2 l3, get_classes_to_inspect Est_bare = l1 ++ Est :: l2 ++ Est :: l3.
Proof.
  apply (class_with_fields_and_params_is_inspected_twice Est_bare Est "b" [] ["lag"] 1).
  - left.
  - reflexivity.
  - reflexivity.
  - reflexivity.
Defined.

Lemma Est_first_run :
  let fr := {| f_self := Est_bare; f_state := Est_state_v0; f_log := [] |} in
  set_state_from_serializeable_fields_and_state no_old_names no_call Est fr
  = (inr (),
     (set_state_from_serializeable_fields_and_state no_old_names no_call Est fr).2).
Proof. apply run_eq. vm_compute. reflexivity. Qed.

Lemma rename_migration_fails_when_run_twice_witness :
  let fr := {| f_self := Est_bare; f_state := Est_state_v0; f_log := [] |} in
  let fr1 :=
    (set_state_from_serializeable_fields_and_state no_old_names no_call Est fr).2 in
  set_state_from_serializeable_fields_and_state no_old_names no_call Est fr1
  = (inl DeveloperError, fr1).
Proof.
  intros fr fr1.
  apply (rename_migration_fails_when_run_twice no_old_names no_call Est fr fr1
           "a" "b" 0 0 1).
  - reflexivity.
  - reflexivity.
  - vm_compute. reflexivity.
  - lia.
  - done.
  - apply not_in_list. vm_compute. reflexivity.
  - apply Est_first_run.
Defined.

(** The estimator of the example cannot be restored from the state that
    its version 0 saved: [__setstate__] logs the [DeveloperError] of the
    second run and returns with [b] set and the rest of the state left. *)
Example Est_is_not_restored :
  let out := (setstate no_old_names no_call
                {| f_self := Est_bare; f_state := Est_state_v0; f_log := [] |}).2 in
  f_log out = [LogException "exception during pickling" DeveloperError]
  ∧ i_dict (f_self out) !! "b" = Some (PInt 5)
  ∧ i_dict (f_self out) !! "_pyemma_version" = None.
Proof. vm_compute. done. Qed.

Lemma setstate_of_empty_state_witness :
  setstate no_old_names no_call {| f_self := C_bare; f_state := ∅; f_log := [] |}
  = (inr (),
     logged {| f_self := C_bare; f_state := ∅; f_log := [] |}
       (LogError "left-overs after setstate: %s" ∅)).
Proof.
  apply (setstate_of_empty_state no_old_names no_call
           {| f_self := C_bare; f_state := ∅; f_log := [] |}).
  reflexivity.
Defined.

End MoreWitnesses.
